(** * async-deethon: a shallow embedding of the session, entity cache,
      stream-URL codec and download orchestration

    The development follows the Python package [async_deethon]:
    - [utils.py]   : [md5hex], [get_quality], [get_stream_url];
    - [types.py]   : the per-class instance caches of [Track] and [Album],
                     their constructors and [Track.add_more_tags];
    - [session.py] : [Session.get_api], [_refresh_session], [search_songs],
                     [download], [download_track].

    Python objects live in a heap of attribute dictionaries addressed by
    locations, so that aliasing of cached instances is visible.  Effects
    (HTTP traffic, the clock) are threaded through a state-and-exception
    monad whose state carries the I/O history; the remote side is a family
    of oracles that answer as a function of that history. *)

From Stdlib Require Import ZArith String Ascii List Lia Bool.
From Stdlib.Strings Require Import Byte.
From Stdlib Require Import DecimalString.
From stdpp Require Import base option list gmap strings.

#[local] Set Warnings "-register-all".
Local Open Scope string_scope.
Local Open Scope Z_scope.
Local Open Scope list_scope.

(** ** Python values *)

(** JSON documents and the plain attribute values of the entity classes.
    A float is kept as its IEEE-754 binary64 bit pattern; a [datetime] as
    its calendar fields. *)
Inductive value : Type :=
| VNone
| VBool (b : bool)
| VInt (z : Z)
| VFloat (bits : Z)
| VStr (s : string)
| VList (l : list value)
| VDict (d : list (string * value))
| VDatetime (year month day : Z).

(** Exceptions raised by the modelled code.  The built-in ones keep their
    Python names; the package's own come from [errors.py]; a failure of the
    HTTP layer ([aiohttp], created with [raise_for_status=True]) is a
    [ClientError]. *)
Inductive exn : Type :=
| KeyError (key : string)
| TypeError
| AttributeError
| IndexError
| ValueError
| DeezerApiError (type message code : value)
| DeezerLoginError
| DownloadError (track_id : value)
| ActionNotSupported (mode : string)
| InvalidUrlError (url : string)
| ClientError (status : Z).

Inductive outcome (A : Type) : Type :=
| Ok (a : A)
| Raise (e : exn)
| OutOfFuel.
Arguments Ok {A} a.
Arguments Raise {A} e.
Arguments OutOfFuel {A}.

Module Res.
(** The exception monad of pure, fallible expressions. *)
Definition bind {A B} (x : outcome A) (f : A -> outcome B) : outcome B :=
  match x with
  | Ok a => f a
  | Raise e => Raise e
  | OutOfFuel => OutOfFuel
  end.

Fixpoint mapM {A B} (f : A -> outcome B) (l : list A) : outcome (list B) :=
  match l with
  | [] => Ok []
  | x :: l' => bind (f x) (fun y => bind (mapM f l') (fun ys => Ok (y :: ys)))
  end.
End Res.

Notation "'let?' x := c 'in' k" := (Res.bind c (fun x => k))
  (at level 10, x name, c at level 100, k at level 200).

(** [d[key]] on a dictionary given as an association list. *)
Fixpoint assoc (key : string) (d : list (string * value)) : option value :=
  match d with
  | [] => None
  | (k, v) :: d' => if String.eqb k key then Some v else assoc key d'
  end.

(** [v[key]] for a string key: only a [dict] can be subscripted that way. *)
Definition subscript (v : value) (key : string) : outcome value :=
  match v with
  | VDict d => match assoc key d with
               | Some x => Ok x
               | None => Raise (KeyError key)
               end
  | _ => Raise TypeError
  end.

(** [v.get(key)]: a method of [dict] alone; a missing key gives [None]. *)
Definition dict_get (v : value) (key : string) : outcome value :=
  match v with
  | VDict d => Ok (default VNone (assoc key d))
  | _ => Raise AttributeError
  end.

(** [isinstance(v, list)]. *)
Definition is_list (v : value) : bool :=
  match v with VList _ => true | _ => false end.

(** Truth value of [v] as tested by [if v] and [not v]. *)
Definition truthy (v : value) : bool :=
  match v with
  | VNone => false
  | VBool b => b
  | VInt z => negb (Z.eqb z 0)
  | VFloat bits => negb (Z.eqb bits 0 || Z.eqb bits (2 ^ 63))
  | VStr s => negb (String.eqb s "")
  | VList l => match l with [] => false | _ => true end
  | VDict d => match d with [] => false | _ => true end
  | VDatetime _ _ _ => true
  end.

(** [v == 0]. *)
Definition eq_zero (v : value) : bool :=
  match v with
  | VBool b => negb b
  | VInt z => Z.eqb z 0
  | VFloat bits => Z.eqb bits 0 || Z.eqb bits (2 ^ 63)
  | _ => false
  end.

(** ** Byte strings *)

Definition bytes := list byte.

(** A [str] is modelled by its UTF-8 encoding, so [s.encode()] and
    [b.decode()] only change the type.  A [str] that has no encoding (one
    with a lone surrogate) is outside the model. *)
Definition encode (s : string) : bytes := list_byte_of_string s.
Definition decode (b : bytes) : string := string_of_list_byte b.

(** A continuation byte of a multi-byte character, [10xxxxxx]. *)
Definition is_continuation (c : ascii) : bool :=
  let n := nat_of_ascii c in ((128 <=? n) && (n <? 192))%nat.

(** [s] starts with a continuation byte. *)
Definition continues (s : string) : bool :=
  match s with
  | String c _ => is_continuation c
  | EmptyString => false
  end.

(** The characters of a text, in order: each is a byte together with the
    continuation bytes that follow it. *)
Fixpoint chars (s : string) : list string :=
  match s with
  | EmptyString => []
  | String c s' =>
      match chars s' with
      | ch :: rest => if continues ch then String c ch :: rest
                      else String c "" :: ch :: rest
      | [] => [String c ""]
      end
  end.

(** ["".join(l)]. *)
Definition join_chars (l : list string) : string := String.concat "" l.

(** [sep.join(parts)] on [bytes]. *)
Fixpoint bytes_join (sep : bytes) (parts : list bytes) : bytes :=
  match parts with
  | [] => []
  | [p] => p
  | p :: rest => p ++ sep ++ bytes_join sep rest
  end.

Definition hex_digit (n : N) : byte :=
  match n with
  | 0 => "0" | 1 => "1" | 2 => "2" | 3 => "3" | 4 => "4" | 5 => "5"
  | 6 => "6" | 7 => "7" | 8 => "8" | 9 => "9" | 10 => "a" | 11 => "b"
  | 12 => "c" | 13 => "d" | 14 => "e" | _ => "f"
  end%N%byte.

(** [binascii.b2a_hex] and the body of [hexdigest]: two lower-case
    hexadecimal digits per byte, high nibble first. *)
Definition b2a_hex (data : bytes) : bytes :=
  flat_map (fun b => [hex_digit (Byte.to_N b / 16); hex_digit (Byte.to_N b mod 16)]%N) data.

(** [str(n)] for an [int]. *)
Definition str_of_int (n : Z) : string := NilZero.string_of_int (Z.to_int n).

(** [str(v)].  The textual form of floats and containers is left to the
    interpreter ([repr_of]). *)
Definition py_str (repr_of : value -> string) (v : value) : string :=
  match v with
  | VNone => "None"
  | VBool true => "True"
  | VBool false => "False"
  | VInt z => str_of_int z
  | VStr s => s
  | _ => repr_of v
  end.

(** [key in v]: key membership for a [dict], element membership for a
    [list], substring test for a [str]. *)
Definition contains (v : value) (key : string) : outcome bool :=
  match v with
  | VDict d => Ok (bool_decide (is_Some (assoc key d)))
  | VList l => Ok (existsb (fun x => match x with
                                     | VStr s => String.eqb s key
                                     | _ => false
                                     end) l)
  | VStr s => Ok (bool_decide (is_Some (String.index 0 key s)))
  | _ => Raise TypeError
  end.

(** The elements produced by [for x in v]. *)
Definition iterate (v : value) : outcome (list value) :=
  match v with
  | VList l => Ok l
  | VDict d => Ok (map (fun kv => VStr (fst kv)) d)
  | VStr s => Ok (map VStr (chars s))
  | _ => Raise TypeError
  end.

(** [l[:n]] for an [int] bound: a negative bound counts from the end. *)
Definition slice_to {A} (n : Z) (l : list A) : list A :=
  if n <? 0 then firstn (Z.to_nat (Z.of_nat (length l) + n)) l
  else firstn (Z.to_nat n) l.

(** [v[:n]]. *)
Definition slice_value (v : value) (n : Z) : outcome value :=
  match v with
  | VList l => Ok (VList (slice_to n l))
  | VStr s => Ok (VStr (join_chars (slice_to n (chars s))))
  | _ => Raise TypeError
  end.

(** [s.split(sep)] for a non-empty separator: [cur] accumulates, in
    reverse, the characters of the piece being read. *)
Fixpoint split_from (sep : string) (cur : list ascii) (s : string) (fuel : nat) : list string :=
  match fuel with
  | O => [string_of_list_ascii (rev cur)]
  | S fuel' =>
      match s with
      | EmptyString => [string_of_list_ascii (rev cur)]
      | String c s' =>
          if String.prefix sep s
          then string_of_list_ascii (rev cur)
               :: split_from sep [] (String.substring (String.length sep) (String.length s - String.length sep)%nat s) fuel'
          else split_from sep (c :: cur) s' fuel'
      end
  end.

Definition str_split (s sep : string) : list string :=
  split_from sep [] s (S (String.length s)).

(** [v.split(", ")]: a method of [str]. *)
Definition split_comma_space (v : value) : outcome value :=
  match v with
  | VStr s => Ok (VList (map VStr (str_split s ", ")))
  | _ => Raise AttributeError
  end.

(** ** The outside world *)

(** What a streaming [GET] answers: the integer that
    [int(response.headers["Content-Length"])] evaluates to (or the
    exception that expression raises), the chunks that
    [response.content.iter_chunks()] delivers, and the exception, if any,
    that ends the iteration early. *)
Record response : Type := {
  content_length : outcome Z;
  chunks : list bytes;
  stream_error : option exn
}.

(** The I/O history, oldest event first. *)
Inductive event : Type :=
| EvClock
| EvPost (url : string) (params : list (string * value)) (json : value)
         (cookies : list (string * string))
| EvGetJson (url : string)
| EvSearch (url : string) (q : string)
| EvStream (url : string)
| EvProgress (current total : Z).

(** Everything the package imports rather than defines: the constants of
    [consts.py], the library functions, and the remote hosts.  Each oracle
    receives the history up to its call, so replies may change from one
    call to the next. *)
Class Platform : Type := {
  METHOD_GET_USER : string;
  METHOD_PAGE_TRACK : string;
  API_URL : string;
  LEGACY_API_URL : string;
  (** [hashlib.md5(data).digest()] *)
  hashlib_md5 : bytes -> bytes;
  (** [AES.new(key, AES.MODE_ECB).encrypt(data)] *)
  aes_ecb_encrypt : bytes -> bytes -> bytes;
  (** [datetime.strptime(v, fmt)] *)
  strptime : value -> string -> outcome value;
  (** [f"{((gain + 18.4) * -1):.2f} dB"] *)
  format_replaygain : value -> outcome string;
  (** [repr] of floats and containers *)
  repr_of : value -> string;
  (** [ch.isalnum()] for a character outside ASCII *)
  unicode_alnum : string -> bool;
  (** the digit a character outside ASCII stands for, when its category
      is Nd *)
  unicode_decimal : string -> option Z;
  (** [sys.get_int_max_str_digits()]; [0] when there is no limit *)
  int_max_str_digits : nat;
  (** which of [n] failed awaitables of one [asyncio.gather], counted in
      argument order from [0], failed first *)
  first_failure : list event -> nat -> nat;
  (** [time.time()] *)
  clock : list event -> Z;
  (** the decoded JSON body of a [POST] to the private API *)
  http_post : list event -> string -> list (string * value) -> value ->
              list (string * string) -> outcome value;
  (** the decoded JSON body of a [GET] on the public API *)
  http_get_json : list event -> string -> outcome value;
  (** the decoded JSON body of a [GET] on the legacy search endpoint *)
  http_search : list event -> string -> string -> outcome value;
  (** the reply to the [GET] of a stream URL *)
  http_stream : list event -> string -> outcome response
}.

(** ** Dictionary keys *)

(** The keys of a [dict]: the hashable values, two values being one key
    when they are equal.  [True] and [1] and [1.0] are the same key. *)
Inductive pykey : Type :=
| KNone
| KInt (z : Z)
| KFloat (bits : Z)
| KStr (s : string)
| KDatetime (year month day : Z).

#[global] Instance pykey_eq_dec : EqDecision pykey.
Proof. solve_decision. Defined.

#[global] Instance pykey_countable : Countable pykey.
Proof.
  refine (inj_countable'
    (fun k => match k with
              | KNone => inl tt
              | KInt z => inr (inl z)
              | KFloat b => inr (inr (inl b))
              | KStr s => inr (inr (inr (inl s)))
              | KDatetime y m d => inr (inr (inr (inr (y, m, d))))
              end)
    (fun x => match x with
              | inl _ => KNone
              | inr (inl z) => KInt z
              | inr (inr (inl b)) => KFloat b
              | inr (inr (inr (inl s))) => KStr s
              | inr (inr (inr (inr (y, m, d)))) => KDatetime y m d
              end) _).
  intros []; reflexivity.
Defined.

(** The exponent and the fraction of a binary64 bit pattern. *)
Definition float_exponent (bits : Z) : Z := Z.land (Z.shiftr bits 52) 2047.
Definition float_fraction (bits : Z) : Z := Z.land bits (2 ^ 52 - 1).

Definition float_is_nan (bits : Z) : bool :=
  (float_exponent bits =? 2047) && negb (float_fraction bits =? 0).

(** The integer a float is equal to, if there is one. *)
Definition float_integer (bits : Z) : option Z :=
  let e := float_exponent bits in
  let m := float_fraction bits in
  let signed (z : Z) := if Z.testbit bits 63 then - z else z in
  if e =? 2047 then None
  else if e =? 0 then (if m =? 0 then Some 0 else None)
  else
    let significand := 2 ^ 52 + m in
    let k := 1075 - e in
    if k <=? 0 then Some (signed (significand * 2 ^ (- k)))
    else if significand mod 2 ^ k =? 0 then Some (signed (significand / 2 ^ k))
    else None.

(** The key under which a value is filed in a [dict]: [list] and [dict]
    are unhashable.  A NaN is equal to nothing but found again as the
    same object; values carry no identity here, so the model gives no
    answer for it. *)
Definition hash_key (v : value) : outcome pykey :=
  match v with
  | VNone => Ok KNone
  | VBool b => Ok (KInt (Z.b2z b))
  | VInt z => Ok (KInt z)
  | VFloat bits =>
      if float_is_nan bits then OutOfFuel
      else match float_integer bits with
           | Some z => Ok (KInt z)
           | None => Ok (KFloat bits)
           end
  | VStr s => Ok (KStr s)
  | VDatetime y m d => Ok (KDatetime y m d)
  | VList _ | VDict _ => Raise TypeError
  end.

(** ** The heap and the interpreter state *)

Definition loc := nat.

Inductive class_tag : Type := ClsTrack | ClsAlbum.

(** An instance: its class and its [__dict__]. *)
Record object : Type := {
  obj_class : class_tag;
  obj_attrs : gmap string value
}.

(** The fields of the one [Session] object. *)
Record session : Type := {
  arl_token : string;
  transport_open : bool;          (* [_session] is a live [ClientSession] *)
  csrf_token : value;             (* [_csrf_token] *)
  session_expires : Z             (* [_session_expires] *)
}.

Record state : Type := {
  history : list event;
  heap : gmap loc object;
  next_loc : loc;
  Track_cache : gmap pykey loc;   (* [Track._cache] *)
  Album_cache : gmap pykey loc;   (* [Album._cache] *)
  sess : session
}.

(** [Session(arl_token)]. *)
Definition Session_init (arl : string) : session :=
  {| arl_token := arl; transport_open := false;
     csrf_token := VStr ""; session_expires := 0 |}.

(** The state of a freshly started interpreter holding one session. *)
Definition initial_state (arl : string) : state :=
  {| history := []; heap := ∅; next_loc := O;
     Track_cache := ∅; Album_cache := ∅; sess := Session_init arl |}.

Definition set_history (h : list event) (s : state) : state :=
  {| history := h; heap := heap s; next_loc := next_loc s;
     Track_cache := Track_cache s; Album_cache := Album_cache s; sess := sess s |}.
Definition set_heap (h : gmap loc object) (s : state) : state :=
  {| history := history s; heap := h; next_loc := next_loc s;
     Track_cache := Track_cache s; Album_cache := Album_cache s; sess := sess s |}.
Definition set_next_loc (n : loc) (s : state) : state :=
  {| history := history s; heap := heap s; next_loc := n;
     Track_cache := Track_cache s; Album_cache := Album_cache s; sess := sess s |}.
Definition set_Track_cache (c : gmap pykey loc) (s : state) : state :=
  {| history := history s; heap := heap s; next_loc := next_loc s;
     Track_cache := c; Album_cache := Album_cache s; sess := sess s |}.
Definition set_Album_cache (c : gmap pykey loc) (s : state) : state :=
  {| history := history s; heap := heap s; next_loc := next_loc s;
     Track_cache := Track_cache s; Album_cache := c; sess := sess s |}.
Definition set_sess (x : session) (s : state) : state :=
  {| history := history s; heap := heap s; next_loc := next_loc s;
     Track_cache := Track_cache s; Album_cache := Album_cache s; sess := x |}.

(** ** The monad of effectful code *)

Definition M (A : Type) : Type := state -> outcome A * state.

Definition ret {A} (a : A) : M A := fun s => (Ok a, s).

Definition bind {A B} (m : M A) (k : A -> M B) : M B :=
  fun s => match m s with
           | (Ok a, s') => k a s'
           | (Raise e, s') => (Raise e, s')
           | (OutOfFuel, s') => (OutOfFuel, s')
           end.

Definition raise {A} (e : exn) : M A := fun s => (Raise e, s).
Definition out_of_fuel {A} : M A := fun s => (OutOfFuel, s).
Definition lift {A} (x : outcome A) : M A := fun s => (x, s).
Definition get : M state := fun s => (Ok s, s).
Definition modify (f : state -> state) : M unit := fun s => (Ok tt, f s).
Definition emit (ev : event) : M unit :=
  modify (fun s => set_history (history s ++ [ev]) s).

Notation "x <- c ;; k" := (bind c (fun x => k))
  (at level 100, c at next level, right associativity).
Notation "c ;; k" := (bind c (fun _ => k))
  (at level 100, right associativity).

Fixpoint mapM {A B} (f : A -> M B) (l : list A) : M (list B) :=
  match l with
  | [] => ret []
  | x :: l' => y <- f x;; ys <- mapM f l';; ret (y :: ys)
  end.

(** A failure, whatever result was expected. *)
Definition failure {A B} (x : outcome A) : outcome B :=
  match x with
  | Raise e => Raise e
  | _ => OutOfFuel
  end.

Definition failed {A} (x : outcome A) : bool :=
  match x with Ok _ => false | _ => true end.

(** [asyncio.gather(a, b)]: both awaitables are started, in argument
    order, so the second runs even when the first fails.  The results
    come back in argument order; of two failures the one that happened
    first is raised.  The awaitables run one after the other here: how
    their steps interleave is not modelled. *)
Definition gather2 `{Platform} {A B} (a : M A) (b : M B) : M (A * B) :=
  fun s =>
    let (ra, s1) := a s in
    let (rb, s2) := b s1 in
    (match ra, rb with
     | Ok x, Ok y => Ok (x, y)
     | Ok _, _ => failure rb
     | _, Ok _ => failure ra
     | _, _ => if (first_failure (history s2) 2 =? 1)%nat then failure rb
               else failure ra
     end, s2).

(** [obj.name]. *)
Definition getattr (self : loc) (name : string) : M value :=
  s <- get;;
  match heap s !! self with
  | Some o => match obj_attrs o !! name with
              | Some v => ret v
              | None => raise AttributeError
              end
  | None => raise AttributeError
  end.

(** [obj.name = v]. *)
Definition setattr (self : loc) (name : string) (v : value) : M unit :=
  modify (fun s =>
    set_heap (alter (fun o => {| obj_class := obj_class o;
                                 obj_attrs := <[name := v]> (obj_attrs o) |})
                    self (heap s)) s).

(** [super().__new__(cls)]: a fresh instance without attributes. *)
Definition object_new (cls : class_tag) : M loc :=
  s <- get;;
  let l := next_loc s in
  modify (fun s => set_next_loc (S l)
            (set_heap (<[l := {| obj_class := cls; obj_attrs := ∅ |}]> (heap s)) s));;
  ret l.

(** ** utils.py *)

Definition get_quality (bitrate : string) : string :=
  if String.eqb bitrate "FLAC" then "9"
  else if String.eqb bitrate "MP3_320" then "3"
  else if String.eqb bitrate "MP3_256" then "5"
  else "1".

(** [v.encode()]: a method of [str]. *)
Definition str_encode (v : value) : outcome bytes :=
  match v with
  | VStr s => Ok (encode s)
  | _ => Raise AttributeError
  end.

(** [v[0]] as interpolated into an f-string: the first character of a
    [str], the first element of a [list]. *)
Definition first_item (repr_of : value -> string) (v : value) : outcome string :=
  match v with
  | VStr s => match chars s with
              | ch :: _ => Ok ch
              | [] => Raise IndexError
              end
  | VList [] => Raise IndexError
  | VList (x :: _) => Ok (py_str repr_of x)
  | VDict _ => Raise (KeyError "0")
  | _ => Raise TypeError
  end.

(** The separator byte [b"\xa4"]. *)
Definition SEP : bytes := [xa4]%byte.

(** The fixed key of the stream-URL cipher. *)
Definition STREAM_KEY : string := "jo6aey6haid2Teih".

Section Utils.
Context `{Platform}.

Definition md5hex (data : bytes) : bytes := b2a_hex (hashlib_md5 data).

(** The buffer handed to the cipher by [get_stream_url]. *)
Definition stream_plaintext (fields : list bytes) : bytes :=
  let data := bytes_join SEP fields in
  let data := bytes_join SEP [md5hex data; data] ++ SEP in
  if (length data mod 16 =? 0)%nat then data
  else data ++ repeat x00%byte (16 - length data mod 16)%nat.

Definition get_stream_url (track : loc) (quality : string) : M string :=
  md5_origin <- getattr track "md5_origin";;
  track_id <- getattr track "id";;
  media_version <- getattr track "media_version";;
  fields <- lift (Res.mapM str_encode
              [md5_origin; VStr quality; VStr (py_str repr_of track_id); media_version]);;
  let data := stream_plaintext fields in
  let hashs := decode (b2a_hex (aes_ecb_encrypt (encode STREAM_KEY) data)) in
  md5_origin <- getattr track "md5_origin";;
  host <- lift (first_item repr_of md5_origin);;
  ret ("http://e-cdn-proxy-" +:+ host +:+ ".dzcdn.net/api/1/" +:+ hashs).
End Utils.

(** ** types.py *)

Section Types.
Context `{Platform}.

(** [_json_get_request(None, url)]: a one-shot client session. *)
Definition _json_get_request (url : string) : M value :=
  s <- get;;
  emit (EvGetJson url);;
  lift (http_get_json (history s) url).

(** [Track.__new__(cls, track_info)]. *)
Definition Track_new (track_info : value) : M loc :=
  track_id <- lift (subscript track_info "id");;
  key <- lift (hash_key track_id);;
  s <- get;;
  (if bool_decide (is_Some (Track_cache s !! key)) then ret tt
   else
     l <- object_new ClsTrack;;
     modify (fun s => set_Track_cache (<[key := l]> (Track_cache s)) s));;
  s <- get;;
  match Track_cache s !! key with
  | Some l => ret l
  | None => raise (KeyError "id")
  end.

(** The [if "error" in info: raise DeezerApiError(...)] guard shared by
    both [__init__] methods. *)
Definition raise_if_error (info : value) : M unit :=
  has_error <- lift (contains info "error");;
  if has_error : bool then
    err <- lift (subscript info "error");;
    type <- lift (subscript err "type");;
    message <- lift (subscript err "message");;
    code <- lift (subscript err "code");;
    raise (DeezerApiError type message code)
  else ret tt.

(** [[x["name"] for x in v]]. *)
Definition names_of (v : value) : outcome value :=
  let? items := iterate v in
  let? names := Res.mapM (fun x => subscript x "name") items in
  Ok (VList names).

(** [self.name = info[key]]. *)
Definition copy_field (self : loc) (name : string) (info : value) (key : string) : M unit :=
  v <- lift (subscript info key);;
  setattr self name v.

(** [self.name = info[k1][k2]]. *)
Definition copy_field2 (self : loc) (name : string) (info : value) (k1 k2 : string) : M unit :=
  v <- lift (let? x := subscript info k1 in subscript x k2);;
  setattr self name v.

(** [Track.__init__(self, track_info)]. *)
Definition Track_init (self : loc) (track_info : value) : M unit :=
  raise_if_error track_info;;
  copy_field2 self "album_id" track_info "album" "id";;
  copy_field2 self "artist" track_info "artist" "name";;
  (artists <- lift (let? c := subscript track_info "contributors" in names_of c);;
   setattr self "artists" artists);;
  copy_field self "bpm" track_info "bpm";;
  copy_field self "disk_number" track_info "disk_number";;
  copy_field self "duration" track_info "duration";;
  copy_field self "id" track_info "id";;
  copy_field self "isrc" track_info "isrc";;
  copy_field self "link" track_info "link";;
  copy_field self "number" track_info "track_position";;
  copy_field self "preview_link" track_info "preview";;
  copy_field self "rank" track_info "rank";;
  (gain <- lift (let? g := subscript track_info "gain" in format_replaygain g);;
   setattr self "replaygain_track_gain" (VStr gain));;
  (date <- lift (let? d := subscript track_info "release_date" in strptime d "%Y-%m-%d");;
   setattr self "release_date" date);;
  copy_field self "title" track_info "title";;
  copy_field self "title_short" track_info "title_short".

(** [Track(track_info)]: [__new__], then [__init__] on what it returned. *)
Definition Track_call (track_info : value) : M loc :=
  self <- Track_new track_info;;
  Track_init self track_info;;
  ret self.

(** [Track.init_via_track_id(track_id)]. *)
Definition Track_init_via_track_id (track_id : Z) : M loc :=
  info <- _json_get_request ("https://api.deezer.com/track/" +:+ str_of_int track_id);;
  Track_call info.

(** [Album.__new__(cls, album_info)]. *)
Definition Album_new (album_info : value) : M loc :=
  album_id <- lift (subscript album_info "id");;
  key <- lift (hash_key album_id);;
  s <- get;;
  (if bool_decide (is_Some (Album_cache s !! key)) then ret tt
   else
     l <- object_new ClsAlbum;;
     modify (fun s => set_Album_cache (<[key := l]> (Album_cache s)) s));;
  s <- get;;
  match Album_cache s !! key with
  | Some l => ret l
  | None => raise (KeyError "id")
  end.

(** [Album.__init__(self, album_info)]. *)
Definition Album_init (self : loc) (album_info : value) : M unit :=
  raise_if_error album_info;;
  copy_field2 self "artist" album_info "artist" "name";;
  copy_field2 self "basic_tracks_data" album_info "tracks" "data";;
  copy_field self "cover_small_link" album_info "cover_small";;
  copy_field self "cover_medium_link" album_info "cover_medium";;
  copy_field self "cover_big_link" album_info "cover_big";;
  copy_field self "cover_xl_link" album_info "cover_xl";;
  copy_field self "duration" album_info "duration";;
  (genres <- lift (let? g := subscript album_info "genres" in
                   let? d := subscript g "data" in names_of d);;
   setattr self "genres" genres);;
  copy_field self "id" album_info "id";;
  copy_field self "label" album_info "label";;
  copy_field self "link" album_info "link";;
  copy_field self "record_type" album_info "record_type";;
  (date <- lift (let? d := subscript album_info "release_date" in strptime d "%Y-%m-%d");;
   setattr self "release_date" date);;
  copy_field self "title" album_info "title";;
  copy_field self "total_tracks" album_info "nb_tracks";;
  copy_field self "upc" album_info "upc".

(** [Album(album_info)]. *)
Definition Album_call (album_info : value) : M loc :=
  self <- Album_new album_info;;
  Album_init self album_info;;
  ret self.

(** [Album.init_via_album_id(album_id)]. *)
Definition Album_init_via_album_id (album_id : Z) : M loc :=
  info <- _json_get_request ("https://api.deezer.com/album/" +:+ str_of_int album_id);;
  Album_call info.

(** [Album.fetch_tracks(self)]. *)
Definition fetch_tracks (self : loc) : M (list loc) :=
  basic_tracks_data <- getattr self "basic_tracks_data";;
  schemes <- lift (iterate basic_tracks_data);;
  mapM Track_call schemes.

(** [Track.fetch_album(self)]: [Album.init_via_album_id] at whatever
    value [album_id] holds, formatted into the address as an f-string
    does. *)
Definition fetch_album (self : loc) : M loc :=
  album_id <- getattr self "album_id";;
  info <- _json_get_request ("https://api.deezer.com/album/" +:+ py_str repr_of album_id);;
  Album_call info.
End Types.

(** ** Regular expressions

    The fragment of [re] used by [Session.download], with the
    backtracking order of the library: greedy repetition and greedy
    option, leftmost alternative first.  A pattern is matched against
    the characters of the text. *)

Inductive regex : Type :=
| Lit (s : string)                    (* the characters of [s] *)
| Plus (cls : string -> bool)         (* [c+] for a class of characters *)
| Opt (r : regex)                     (* [(?:r)?] *)
| Seq (r1 r2 : regex)
| Group (n : nat) (r : regex).        (* [(r)], capture number [n] *)

(** The ASCII digits, and the ASCII letters, digits and underscore. *)
Definition ascii_digit (c : ascii) : bool :=
  let n := nat_of_ascii c in ((48 <=? n) && (n <=? 57))%nat.

Definition ascii_word (c : ascii) : bool :=
  let n := nat_of_ascii c in
  (((48 <=? n) && (n <=? 57)) || ((65 <=? n) && (n <=? 90))
   || ((97 <=? n) && (n <=? 122)) || (n =? 95))%nat.

Definition is_ascii (c : ascii) : bool := (nat_of_ascii c <? 128)%nat.

Section CharacterClasses.
Context `{Platform}.

(** [\d] of a [str] pattern: the decimal digits of every script. *)
Definition is_digit (ch : string) : bool :=
  match ch with
  | EmptyString => false
  | String c tl =>
      if is_ascii c then ascii_digit c && String.eqb tl ""
      else if is_continuation c then false
      else bool_decide (is_Some (unicode_decimal ch))
  end.

(** [\w] of a [str] pattern: the alphanumeric characters of every script
    and the underscore. *)
Definition is_word (ch : string) : bool :=
  match ch with
  | EmptyString => false
  | String c tl =>
      if is_ascii c then ascii_word c && String.eqb tl ""
      else if is_continuation c then false
      else unicode_alnum ch || bool_decide (is_Some (unicode_decimal ch))
  end.

(** The digit a character stands for. *)
Definition digit_value (ch : string) : Z :=
  match ch with
  | EmptyString => 0
  | String c _ =>
      if is_ascii c then Z.of_nat (nat_of_ascii c) - 48
      else default 0 (unicode_decimal ch)
  end.

(** A string of digits is longer than [int] accepts. *)
Definition too_long (digits : string) : bool :=
  ((0 <? int_max_str_digits) && (int_max_str_digits <? length (chars digits)))%nat.

(** [int(s)] on a string of decimal digits. *)
Definition py_int (digits : string) : outcome Z :=
  if too_long digits then Raise ValueError
  else Ok (fold_left (fun acc ch => 10 * acc + digit_value ch) (chars digits) 0).
End CharacterClasses.

(** What remains of [s] after the literal [lit], if [s] starts with it. *)
Fixpoint strip_prefix (lit s : string) : option string :=
  match lit, s with
  | EmptyString, _ => Some s
  | String a lit', String b s' => if Ascii.eqb a b then strip_prefix lit' s' else None
  | String _ _, EmptyString => None
  end.

(** The same on characters. *)
Fixpoint strip_chars (lit s : list string) : option (list string) :=
  match lit, s with
  | [], _ => Some s
  | a :: lit', b :: s' => if String.eqb a b then strip_chars lit' s' else None
  | _ :: _, [] => None
  end.

(** [c+] in front of the continuation [k]: longest run first. *)
Fixpoint match_plus {R} (cls : string -> bool) (s : list string)
    (k : list string -> option R) : option R :=
  match s with
  | [] => None
  | ch :: s' =>
      if cls ch then
        match match_plus cls s' k with
        | Some x => Some x
        | None => k s'
        end
      else None
  end.

(** The part of [s] consumed when [rest] is what is left of it. *)
Definition consumed (s rest : list string) : string :=
  join_chars (firstn (length s - length rest) s).

Definition captures := list (nat * string).

Fixpoint match_re {R} (r : regex) (s : list string) (caps : captures)
    (k : list string -> captures -> option R) : option R :=
  match r with
  | Lit lit => match strip_chars (chars lit) s with
               | Some rest => k rest caps
               | None => None
               end
  | Plus cls => match_plus cls s (fun rest => k rest caps)
  | Opt r' => match match_re r' s caps k with
              | Some x => Some x
              | None => k s caps
              end
  | Seq r1 r2 => match_re r1 s caps (fun rest caps' => match_re r2 rest caps' k)
  | Group n r' => match_re r' s caps
                    (fun rest caps' => k rest ((n, consumed s rest) :: caps'))
  end.

Fixpoint group (n : nat) (caps : captures) : option string :=
  match caps with
  | [] => None
  | (m, text) :: caps' => if (m =? n)%nat then Some text else group n caps'
  end.

(** [re.match(r, s)]: anchored at the start, free at the end. *)
Definition re_match (r : regex) (s : string) : option captures :=
  match_re r (chars s) [] (fun _ caps => Some caps).

(** [r"https?://(?:www\.)?deezer\.com/(?:\w+/)?(\w+)/(\d+)"]. *)
Definition URL_PATTERN `{Platform} : regex :=
  Seq (Lit "http") (Seq (Opt (Lit "s")) (Seq (Lit "://")
  (Seq (Opt (Lit "www.")) (Seq (Lit "deezer.com/")
  (Seq (Opt (Seq (Plus is_word) (Lit "/")))
  (Seq (Group 1 (Plus is_word)) (Seq (Lit "/") (Group 2 (Plus is_digit))))))))).

(** The number written by a string of ASCII digits. *)
Definition int_of_digits (s : string) : Z :=
  fold_left (fun acc c => 10 * acc + (Z.of_nat (nat_of_ascii c) - 48))
            (list_ascii_of_string s) 0.

(** ** session.py *)

(** What [Session.download] hands back: the bytes of a track, or one
    buffer per track of an album. *)
Inductive downloaded : Type :=
| OneTrack (buffer : bytes)
| WholeAlbum (buffers : list bytes).

Section Session.
Context `{Platform}.

(** [time.time()]. *)
Definition time_time : M Z :=
  s <- get;;
  emit EvClock;;
  ret (clock (history s)).

(** [Session.update_requests_session(self)]. *)
Definition update_requests_session : M unit :=
  modify (fun s => set_sess {| arl_token := arl_token (sess s);
                               transport_open := true;
                               csrf_token := csrf_token (sess s);
                               session_expires := session_expires (sess s) |} s).

(** Any method call on [self._session], which is [None] until
    [update_requests_session] has run. *)
Definition with_transport {A} (request : M A) : M A :=
  s <- get;;
  if transport_open (sess s) then request else raise AttributeError.

(** [Session._refresh_session(self)], over the [get_api] it calls. *)
Definition _refresh_session_with (get_api : string -> value -> M value) : M unit :=
  user <- get_api METHOD_GET_USER VNone;;
  user_id <- lift (let? u := subscript user "USER" in subscript u "USER_ID");;
  if eq_zero user_id then raise DeezerLoginError
  else
    token <- lift (subscript user "checkForm");;
    modify (fun s => set_sess {| arl_token := arl_token (sess s);
                                 transport_open := transport_open (sess s);
                                 csrf_token := token;
                                 session_expires := session_expires (sess s) |} s);;
    now <- time_time;;
    modify (fun s => set_sess {| arl_token := arl_token (sess s);
                                 transport_open := transport_open (sess s);
                                 csrf_token := csrf_token (sess s);
                                 session_expires := now + 3600 |} s).

(** The guard of [get_api]:
    [not method == METHOD_GET_USER and
     (not self._csrf_token or self._session_expires > time.time())].
    The clock is read only when the first two tests leave it to decide. *)
Definition must_refresh (method : string) : M bool :=
  s <- get;;
  if negb (String.eqb method METHOD_GET_USER) then
    if negb (truthy (csrf_token (sess s))) then ret true
    else
      now <- time_time;;
      ret (session_expires (sess s) >? now)
  else ret false.

(** The body of [Session.get_api(self, method, json)], the method and
    [_refresh_session] calling each other: [get_api] stands for the
    method in the call that [_refresh_session] makes. *)
Definition get_api_step (get_api : string -> value -> M value)
    (method : string) (json : value) : M value :=
  refresh <- must_refresh method;;
  (if refresh : bool then _refresh_session_with get_api else ret tt);;
  s <- get;;
  let params := [("api_version", VStr "1.0");
                 ("api_token", csrf_token (sess s));
                 ("input", VStr "3");
                 ("method", VStr method)] in
  update_requests_session;;
  response <- with_transport (
    s <- get;;
    let cookies := [("arl", arl_token (sess s))] in
    emit (EvPost API_URL params json cookies);;
    lift (http_post (history s) API_URL params json cookies));;
  lift (subscript response "results").

(** [Session.get_api], the nesting of the calls bounded by [fuel]. *)
Fixpoint get_api_fuel (fuel : nat) : string -> value -> M value :=
  match fuel with
  | O => fun _ _ => out_of_fuel
  | S fuel' => get_api_step (get_api_fuel fuel')
  end.

(** Two levels suffice: a refresh asks for [METHOD_GET_USER], which
    never refreshes. *)
Definition get_api : string -> value -> M value := get_api_fuel 2.

Definition _refresh_session : M unit := _refresh_session_with get_api.

(** [Track.add_more_tags(self, session)] (types.py). *)
Definition add_more_tags (self : loc) : M unit :=
  track_id <- getattr self "id";;
  r <- get_api METHOD_PAGE_TRACK (VDict [("sng_id", track_id)]);;
  copy_field2 self "md5_origin" r "DATA" "MD5_ORIGIN";;
  copy_field2 self "media_version" r "DATA" "MEDIA_VERSION";;
  contributors <- lift (let? d := subscript r "DATA" in subscript d "SNG_CONTRIBUTORS");;
  (if is_list contributors then
     setattr self "composer" VNone;;
     setattr self "author" VNone
   else
     (composer <- lift (let? d := subscript r "DATA" in
                        let? c := subscript d "SNG_CONTRIBUTORS" in dict_get c "composer");;
      setattr self "composer" composer);;
     (author <- lift (let? d := subscript r "DATA" in
                      let? c := subscript d "SNG_CONTRIBUTORS" in dict_get c "author");;
      setattr self "author" author));;
  copy_field2 self "copyright" r "DATA" "COPYRIGHT";;
  has_lyrics <- lift (match r with
                      | VDict d => Ok (bool_decide (is_Some (assoc "LYRICS" d)))
                      | _ => Raise AttributeError
                      end);;
  if has_lyrics : bool then
    (v <- lift (let? l := subscript r "LYRICS" in dict_get l "LYRICS_TEXT");;
     setattr self "lyrics" v);;
    (v <- lift (let? l := subscript r "LYRICS" in dict_get l "LYRICS_SYNC_JSON");;
     setattr self "lyrics_sync" v);;
    (v <- lift (let? l := subscript r "LYRICS" in dict_get l "LYRICS_COPYRIGHTS");;
     setattr self "lyrics_copyrights" v);;
    (v <- lift (let? l := subscript r "LYRICS" in
                let? w := dict_get l "LYRICS_WRITERS" in split_comma_space w);;
     setattr self "lyrics_writers" v)
  else
    setattr self "lyrics" VNone;;
    setattr self "lyrics_sync" VNone;;
    setattr self "lyrics_copyrights" VNone;;
    setattr self "lyrics_writers" VNone.

(** [self._session.get(url, params={"q": name})] decoded as JSON, then
    [["data"]]: the body shared by [_find_albums] and [_find_tracks]. *)
Definition search_request (url name : string) : M value :=
  found <- with_transport (
    s <- get;;
    emit (EvSearch url name);;
    lift (http_search (history s) url name));;
  lift (subscript found "data").

Definition _find_albums (name : string) : M value :=
  search_request (LEGACY_API_URL +:+ "search/album") name.

Definition _find_tracks (name : string) : M value :=
  search_request (LEGACY_API_URL +:+ "search") name.

(** The display record built for one album of the search result. *)
Definition album_summary (element : value) : outcome value :=
  let? title := subscript element "title" in
  let? singer := (let? a := subscript element "artist" in subscript a "name") in
  let? cover := subscript element "cover_medium" in
  let? link := subscript element "link" in
  Ok (VDict [("album_title", title); ("singer_name", singer);
             ("album_photo_medium", cover); ("link", link)]).

(** The display record built for one track of the search result. *)
Definition track_summary (element : value) : outcome value :=
  let? title := subscript element "title" in
  let? singer := (let? a := subscript element "artist" in subscript a "name") in
  let? album := (let? a := subscript element "album" in subscript a "title") in
  let? cover := (let? a := subscript element "album" in subscript a "cover_medium") in
  let? link := subscript element "link" in
  Ok (VDict [("music_title", title); ("singer_name", singer);
             ("album_title", album); ("album_photo_medium", cover); ("link", link)]).

(** [Session.search_songs(self, name, albums_count, songs_limit)]. *)
Definition search_songs (name : string) (albums_count songs_limit : Z)
    : M (list value * list value) :=
  update_requests_session;;
  found <- gather2 (_find_albums name) (_find_tracks name);;
  let (albums, tracks) := found : value * value in
  albums <- lift (slice_value albums albums_count);;
  tracks <- lift (slice_value tracks (songs_limit - albums_count));;
  albums <- lift (let? l := iterate albums in Res.mapM album_summary l);;
  tracks <- lift (let? l := iterate tracks in Res.mapM track_summary l);;
  ret (albums, tracks).

(** The [async for] loop of [download_track] over the delivered chunks. *)
Fixpoint read_chunks (data : list bytes) (current total : Z) (buffer : bytes)
    (progress_callback : bool) : M bytes :=
  match data with
  | [] => ret buffer
  | chunk :: data' =>
      let current := current + Z.of_nat (length chunk) in
      let buffer := buffer ++ chunk in
      (if progress_callback then emit (EvProgress current total) else ret tt);;
      read_chunks data' current total buffer progress_callback
  end.

(** The head of [download_track], up to and including
    [total = int(response.headers["Content-Length"])]. *)
Definition open_stream (track : loc) (bitrate : string) : M (response * Z) :=
  update_requests_session;;
  let quality := get_quality bitrate in
  add_more_tags track;;
  download_url <- get_stream_url track quality;;
  response <- with_transport (
    s <- get;;
    emit (EvStream download_url);;
    lift (http_stream (history s) download_url));;
  total <- lift (content_length response);;
  ret (response, total).

(** The body of
    [Session.download_track(self, track, bitrate, progress_callback)],
    [download_track] standing for the method in its recursive call.
    [progress_callback] tells whether a callback was supplied; the tasks
    created for it are recorded in the history and never awaited. *)
Definition download_track_step (download_track : loc -> string -> bool -> M bytes)
    (track : loc) (bitrate : string) (progress_callback : bool) : M bytes :=
  opened <- open_stream track bitrate;;
  let (response, total) := opened : response * Z in
  if total =? 0 then
    fallback_bitrate <-
      (if String.eqb bitrate "FLAC" then ret "MP3_320"
       else if String.eqb bitrate "MP3_320" then ret "MP3_256"
       else if String.eqb bitrate "MP3_256" then ret "MP3_128"
       else
         track_id <- getattr track "id";;
         raise (DownloadError track_id));;
    download_track track fallback_bitrate progress_callback
  else
    buffer <- read_chunks (chunks response) 0 total [] progress_callback;;
    match stream_error response with
    | Some e => raise e
    | None => ret buffer
    end.

(** [Session.download_track], the depth of the recursion bounded by
    [fuel]. *)
Fixpoint download_track_fuel (fuel : nat) : loc -> string -> bool -> M bytes :=
  match fuel with
  | O => fun _ _ _ => out_of_fuel
  | S fuel' => download_track_step (download_track_fuel fuel')
  end.

(** The recursion goes down the chain of bitrates, at most three steps. *)
Definition download_track : loc -> string -> bool -> M bytes :=
  download_track_fuel 4.

(** [Session.download_track_via_id]. *)
Definition download_track_via_id (track_id : Z) (bitrate : string)
    (progress_callback : bool) : M bytes :=
  track <- Track_init_via_track_id track_id;;
  download_track track bitrate progress_callback.

(** Every awaitable of the list, one after the other, each with what it
    returned or raised. *)
Fixpoint run_all {A} (coros : list (M A)) (s : state) : list (outcome A) * state :=
  match coros with
  | [] => ([], s)
  | c :: coros' =>
      let (r, s1) := c s in
      let (rs, s2) := run_all coros' s1 in
      (r :: rs, s2)
  end.

(** [asyncio.gather] over a list of coroutines: every task runs, the
    results keep the order of the arguments, and of several failures
    the one that happened first is raised.  The tasks run one after the
    other here: how their steps interleave is not modelled. *)
Definition gather {A} (coros : list (M A)) : M (list A) :=
  fun s =>
    let (rs, s') := run_all coros s in
    (match List.filter failed rs with
     | [] => Res.mapM (fun r => r) rs
     | f :: fs => failure (nth (first_failure (history s') (length (f :: fs)))
                               (f :: fs) f)
     end, s').

(** [Session.download_album(self, album, bitrate)]. *)
Definition download_album (album : loc) (bitrate : string) : M (list bytes) :=
  tracks <- fetch_tracks album;;
  gather (map (fun track => download_track track bitrate false) tracks).

(** [Session.download(self, url, bitrate, progress_callback)]. *)
Definition download (url bitrate : string) (progress_callback : bool) : M downloaded :=
  match re_match URL_PATTERN url with
  | Some m =>
      let mode := default "" (group 1 m) in
      content_id <- lift (py_int (default "" (group 2 m)));;
      if String.eqb mode "track" then
        track <- Track_init_via_track_id content_id;;
        buffer <- download_track track bitrate progress_callback;;
        ret (OneTrack buffer)
      else if String.eqb mode "album" then
        album <- Album_init_via_album_id content_id;;
        buffers <- download_album album bitrate;;
        ret (WholeAlbum buffers)
      else raise (ActionNotSupported mode)
  | None => raise (InvalidUrlError url)
  end.
End Session.

(** ** Reference implementations of the imported primitives

    [hashlib.md5] follows RFC 1321 and [AES] (128-bit key, ECB) follows
    FIPS 197; both work on bytes as integers below 256. *)

Definition Z_of_byte (b : byte) : Z := Z.of_N (Byte.to_N b).
Definition byte_of_Z (z : Z) : byte :=
  default x00%byte (Byte.of_N (Z.to_N (z mod 256))).

(** Cuts [l] into consecutive pieces of [n] elements; the last piece may
    be shorter. *)
Fixpoint chunks_of {A} (fuel n : nat) (l : list A) : list (list A) :=
  match fuel with
  | O => []
  | S fuel' => match l with
               | [] => []
               | _ => firstn n l :: chunks_of fuel' n (skipn n l)
               end
  end.

Module MD5.
Definition mask32 (x : Z) : Z := x mod 2 ^ 32.
Definition rotl (x n : Z) : Z :=
  mask32 (Z.lor (Z.shiftl x n) (Z.shiftr x (32 - n))).
Definition lnot32 (x : Z) : Z := Z.lxor x 0xffffffff.

Definition K : list Z :=
  [0xd76aa478; 0xe8c7b756; 0x242070db; 0xc1bdceee;
   0xf57c0faf; 0x4787c62a; 0xa8304613; 0xfd469501;
   0x698098d8; 0x8b44f7af; 0xffff5bb1; 0x895cd7be;
   0x6b901122; 0xfd987193; 0xa679438e; 0x49b40821;
   0xf61e2562; 0xc040b340; 0x265e5a51; 0xe9b6c7aa;
   0xd62f105d; 0x02441453; 0xd8a1e681; 0xe7d3fbc8;
   0x21e1cde6; 0xc33707d6; 0xf4d50d87; 0x455a14ed;
   0xa9e3e905; 0xfcefa3f8; 0x676f02d9; 0x8d2a4c8a;
   0xfffa3942; 0x8771f681; 0x6d9d6122; 0xfde5380c;
   0xa4beea44; 0x4bdecfa9; 0xf6bb4b60; 0xbebfbc70;
   0x289b7ec6; 0xeaa127fa; 0xd4ef3085; 0x04881d05;
   0xd9d4d039; 0xe6db99e5; 0x1fa27cf8; 0xc4ac5665;
   0xf4292244; 0x432aff97; 0xab9423a7; 0xfc93a039;
   0x655b59c3; 0x8f0ccc92; 0xffeff47d; 0x85845dd1;
   0x6fa87e4f; 0xfe2ce6e0; 0xa3014314; 0x4e0811a1;
   0xf7537e82; 0xbd3af235; 0x2ad7d2bb; 0xeb86d391].

Definition SHIFTS : list Z :=
  [7; 12; 17; 22; 7; 12; 17; 22; 7; 12; 17; 22; 7; 12; 17; 22;
   5; 9; 14; 20; 5; 9; 14; 20; 5; 9; 14; 20; 5; 9; 14; 20;
   4; 11; 16; 23; 4; 11; 16; 23; 4; 11; 16; 23; 4; 11; 16; 23;
   6; 10; 15; 21; 6; 10; 15; 21; 6; 10; 15; 21; 6; 10; 15; 21].

(** Little-endian bytes of a word, [n] of them. *)
Fixpoint le_bytes (n : nat) (x : Z) : list Z :=
  match n with
  | O => []
  | S n' => x mod 256 :: le_bytes n' (x / 256)
  end.

Definition le_word (bs : list Z) : Z :=
  fold_right (fun b acc => b + 256 * acc) 0 bs.

Definition pad (msg : list Z) : list Z :=
  let len := Z.of_nat (length msg) in
  msg ++ [0x80] ++ repeat 0 (Z.to_nat ((55 - len) mod 64))
      ++ le_bytes 8 ((8 * len) mod 2 ^ 64).

Definition step (m : list Z) (st : Z * Z * Z * Z) (i : nat) : Z * Z * Z * Z :=
  let '(a, b, c, d) := st in
  let '(f, g) :=
    if (i <? 16)%nat then (Z.lor (Z.land b c) (Z.land (lnot32 b) d), i)
    else if (i <? 32)%nat then (Z.lor (Z.land d b) (Z.land (lnot32 d) c), (5 * i + 1) mod 16)%nat
    else if (i <? 48)%nat then (Z.lxor b (Z.lxor c d), (3 * i + 5) mod 16)%nat
    else (Z.lxor c (Z.lor b (lnot32 d)), (7 * i) mod 16)%nat in
  let f := mask32 (f + a + nth i K 0 + nth g m 0) in
  (d, mask32 (b + rotl f (nth i SHIFTS 0)), b, c).

Definition block (st : Z * Z * Z * Z) (blk : list Z) : Z * Z * Z * Z :=
  let m := map le_word (chunks_of 16 4 blk) in
  let '(a, b, c, d) := st in
  let '(a', b', c', d') := fold_left (step m) (seq 0 64) st in
  (mask32 (a + a'), mask32 (b + b'), mask32 (c + c'), mask32 (d + d')).

Definition digest (msg : list Z) : list Z :=
  let padded := pad msg in
  let '(a, b, c, d) :=
    fold_left block (chunks_of (length padded) 64 padded)
              (0x67452301, 0xefcdab89, 0x98badcfe, 0x10325476) in
  le_bytes 4 a ++ le_bytes 4 b ++ le_bytes 4 c ++ le_bytes 4 d.

(** [hashlib.md5(data).digest()]. *)
Definition md5 (data : bytes) : bytes :=
  map byte_of_Z (digest (map Z_of_byte data)).
End MD5.

Module AES.
(** Multiplication by [x] in GF(2^8) modulo [x^8 + x^4 + x^3 + x + 1]. *)
Definition xtime (a : Z) : Z :=
  let b := 2 * a in if 256 <=? b then Z.lxor b 0x11b else b.

Fixpoint gmul_bits (n : nat) (a b : Z) : Z :=
  match n with
  | O => 0
  | S n' => Z.lxor (if Z.odd b then a else 0) (gmul_bits n' (xtime a) (b / 2))
  end.
Definition gmul : Z -> Z -> Z := gmul_bits 8.

Fixpoint gpow (a : Z) (n : nat) : Z :=
  match n with
  | O => 1
  | S n' => gmul a (gpow a n')
  end.

Definition rotl8 (x n : Z) : Z :=
  (Z.lor (Z.shiftl x n) (Z.shiftr x (8 - n))) mod 256.

(** The S-box: inversion in the field, then the affine map. *)
Definition sbox_of (x : Z) : Z :=
  let b := gpow x 254 in
  Z.lxor b (Z.lxor (rotl8 b 1) (Z.lxor (rotl8 b 2)
    (Z.lxor (rotl8 b 3) (Z.lxor (rotl8 b 4) 0x63)))).

Definition SBOX : list Z :=
  Eval vm_compute in map (fun n => sbox_of (Z.of_nat n)) (seq 0 256).

Definition sub_byte (b : Z) : Z := nth (Z.to_nat b) SBOX 0.

Definition xor_bytes (a b : list Z) : list Z :=
  map (fun p => Z.lxor (fst p) (snd p)) (combine a b).

Definition RCON : list Z := [0x01; 0x02; 0x04; 0x08; 0x10; 0x20; 0x40; 0x80; 0x1b; 0x36].

(** One step of the key schedule: from the last four words [w] (oldest
    first) to the next four. *)
Definition next_round_key (rcon : Z) (w : list (list Z)) : list (list Z) :=
  match w with
  | [w0; w1; w2; w3] =>
      let rot := skipn 1 w3 ++ firstn 1 w3 in
      let t := xor_bytes (map sub_byte rot) [rcon; 0; 0; 0] in
      let n0 := xor_bytes w0 t in
      let n1 := xor_bytes w1 n0 in
      let n2 := xor_bytes w2 n1 in
      let n3 := xor_bytes w3 n2 in
      [n0; n1; n2; n3]
  | _ => w
  end.

(** The eleven round keys, each as sixteen bytes. *)
Definition key_schedule (key : list Z) : list (list Z) :=
  let w := chunks_of 4 4 (firstn 16 key) in
  map (@concat Z)
      (rev (snd (fold_left (fun acc rcon =>
                              let w' := next_round_key rcon (fst acc) in
                              (w', w' :: snd acc))
                           RCON (w, [w])))).

(** The state is kept in input order: byte [r + 4 * c] is row [r],
    column [c]. *)
Definition shift_rows (st : list Z) : list Z :=
  map (fun i => nth ((i mod 4) + 4 * (((i / 4) + (i mod 4)) mod 4))%nat st 0) (seq 0 16).

Definition mix_column (col : list Z) : list Z :=
  match col with
  | [a0; a1; a2; a3] =>
      [Z.lxor (gmul 2 a0) (Z.lxor (gmul 3 a1) (Z.lxor a2 a3));
       Z.lxor a0 (Z.lxor (gmul 2 a1) (Z.lxor (gmul 3 a2) a3));
       Z.lxor a0 (Z.lxor a1 (Z.lxor (gmul 2 a2) (gmul 3 a3)));
       Z.lxor (gmul 3 a0) (Z.lxor a1 (Z.lxor a2 (gmul 2 a3)))]
  | _ => col
  end.

Definition mix_columns (st : list Z) : list Z :=
  concat (map mix_column (chunks_of 4 4 st)).

Definition encrypt_block (keys : list (list Z)) (blk : list Z) : list Z :=
  match keys with
  | k0 :: rest =>
      let middle := removelast rest in
      let final := List.last rest [] in
      let st := xor_bytes blk k0 in
      let st := fold_left (fun st k =>
                  xor_bytes (mix_columns (shift_rows (map sub_byte st))) k)
                middle st in
      xor_bytes (shift_rows (map sub_byte st)) final
  | [] => blk
  end.

(** [AES.new(key, AES.MODE_ECB).encrypt(data)] for a 16-byte key and
    data made of whole blocks. *)
Definition ecb_encrypt (key data : bytes) : bytes :=
  let keys := key_schedule (map Z_of_byte key) in
  map byte_of_Z
      (concat (map (encrypt_block keys)
                   (chunks_of (length data) 16 (map Z_of_byte data)))).
End AES.

(** ** A concrete platform for the examples *)

(** [datetime.strptime(v, "%Y-%m-%d")] on dates written with four, two
    and two digits. *)
Definition sample_strptime (v : value) (fmt : string) : outcome value :=
  match v with
  | VStr s =>
      if (String.length s =? 10)%nat
         && forallb ascii_digit (list_ascii_of_string (String.substring 0 4 s))
         && String.eqb (String.substring 4 1 s) "-"
         && forallb ascii_digit (list_ascii_of_string (String.substring 5 2 s))
         && String.eqb (String.substring 7 1 s) "-"
         && forallb ascii_digit (list_ascii_of_string (String.substring 8 2 s))
      then Ok (VDatetime (int_of_digits (String.substring 0 4 s))
                         (int_of_digits (String.substring 5 2 s))
                         (int_of_digits (String.substring 8 2 s)))
      else Raise ValueError
  | _ => Raise TypeError
  end.

(** The replay-gain text of an integer gain, which is exact in decimal;
    the examples use no other. *)
Definition sample_replaygain (v : value) : outcome string :=
  match v with
  | VInt g =>
      let tenths := - (10 * g + 184) in
      Ok ((if tenths <? 0 then "-" else "")
          +:+ str_of_int (Z.abs tenths / 10) +:+ "."
          +:+ str_of_int (Z.abs tenths mod 10) +:+ "0 dB")
  | _ => Raise TypeError
  end.

(** The remote side of the examples. *)
Record remote : Type := {
  remote_clock : list event -> Z;
  remote_post : list event -> string -> list (string * value) -> value ->
                list (string * string) -> outcome value;
  remote_get_json : list event -> string -> outcome value;
  remote_search : list event -> string -> string -> outcome value;
  remote_stream : list event -> string -> outcome response
}.

(** The examples use ASCII text only and let no two awaitables of one
    [gather] fail, so the tables of the other scripts stay empty and
    [first_failure] is never consulted. *)
Definition sample_platform (r : remote) : Platform :=
  {| METHOD_GET_USER := "deezer.getUserData";
     METHOD_PAGE_TRACK := "deezer.pageTrack";
     API_URL := "http://www.deezer.com/ajax/gw-light.php";
     LEGACY_API_URL := "https://api.deezer.com/";
     hashlib_md5 := MD5.md5;
     aes_ecb_encrypt := AES.ecb_encrypt;
     strptime := sample_strptime;
     format_replaygain := sample_replaygain;
     repr_of := fun _ => "<object>";
     unicode_alnum := fun _ => false;
     unicode_decimal := fun _ => None;
     int_max_str_digits := 4300;
     first_failure := fun _ _ => O;
     clock := remote_clock r;
     http_post := remote_post r;
     http_get_json := remote_get_json r;
     http_search := remote_search r;
     http_stream := remote_stream r |}.

(** The public-API document of track [track_id]. *)
Definition sample_track_info (track_id : Z) : value :=
  VDict [("id", VInt track_id); ("title", VStr "Song"); ("title_short", VStr "Song");
         ("album", VDict [("id", VInt 900); ("title", VStr "Record");
                          ("cover_medium", VStr "https://cdn/900.jpg")]);
         ("artist", VDict [("name", VStr "Singer")]);
         ("contributors", VList [VDict [("name", VStr "Singer")];
                                 VDict [("name", VStr "Guest")]]);
         ("bpm", VInt 120); ("disk_number", VInt 1); ("duration", VInt 200);
         ("isrc", VStr "XX0000000001"); ("link", VStr "https://www.deezer.com/track/1");
         ("track_position", VInt 3); ("preview", VStr "https://cdn/p.mp3");
         ("rank", VInt 5); ("gain", VInt (-8)); ("release_date", VStr "2020-01-31")].

(** The member-track summary an album document embeds for [track_id]. *)
Definition sample_track_scheme (track_id : Z) : value := sample_track_info track_id.

(** The public-API document of album [album_id] with the given members. *)
Definition sample_album_info (album_id : Z) (members : list Z) : value :=
  VDict [("id", VInt album_id); ("title", VStr "Record");
         ("artist", VDict [("name", VStr "Singer")]);
         ("tracks", VDict [("data", VList (map sample_track_scheme members))]);
         ("cover_small", VStr "s"); ("cover_medium", VStr "m");
         ("cover_big", VStr "b"); ("cover_xl", VStr "x");
         ("duration", VInt 2000);
         ("genres", VDict [("data", VList [VDict [("name", VStr "Pop")]])]);
         ("label", VStr "Label"); ("link", VStr "https://www.deezer.com/album/900");
         ("record_type", VStr "album"); ("release_date", VStr "2020-01-31");
         ("nb_tracks", VInt 2); ("upc", VStr "0001")].

(** The error document of the public API. *)
Definition sample_error_info : value :=
  VDict [("error", VDict [("type", VStr "DataException");
                          ("message", VStr "no data");
                          ("code", VInt 800)])].

(** The private-API reply to the page-track method. *)
Definition sample_page_track (with_lyrics : bool) : value :=
  VDict ([("DATA", VDict [("MD5_ORIGIN", VStr "abc123");
                          ("MEDIA_VERSION", VStr "1");
                          ("SNG_CONTRIBUTORS",
                           VDict [("composer", VList [VStr "Ann"; VStr "Bob"]);
                                  ("author", VList [VStr "Cy"])]);
                          ("COPYRIGHT", VStr "(c) Label")])]
         ++ (if with_lyrics
             then [("LYRICS", VDict [("LYRICS_TEXT", VStr "la la");
                                     ("LYRICS_COPYRIGHTS", VStr "(c) Words");
                                     ("LYRICS_WRITERS", VStr "Ann, Bob")])]
             else [])).

Definition is_stream (ev : event) : bool :=
  match ev with EvStream _ => true | _ => false end.

(** A server that knows every track, every album (with members 11 and
    12), one user, and answers the [n]-th stream request with a body of
    [nth n lengths 0] bytes.  Its clock stands at [now]. *)
Definition scripted (now : Z) (lengths : list Z) : remote :=
  {| remote_clock := fun _ => now;
     remote_post := fun _ _ params _ _ =>
       match assoc "method" params with
       | Some (VStr "deezer.getUserData") =>
           Ok (VDict [("results", VDict [("USER", VDict [("USER_ID", VInt 42)]);
                                         ("checkForm", VStr "fresh-token")])])
       | Some (VStr "deezer.pageTrack") =>
           Ok (VDict [("results", sample_page_track true)])
       | _ => Raise (ClientError 400)
       end;
     remote_get_json := fun _ url =>
       match strip_prefix "https://api.deezer.com/track/" url with
       | Some digits => Ok (sample_track_info (int_of_digits digits))
       | None =>
           match strip_prefix "https://api.deezer.com/album/" url with
           | Some digits => Ok (sample_album_info (int_of_digits digits) [11; 12])
           | None => Raise (ClientError 404)
           end
       end;
     remote_search := fun _ _ _ => Ok (VDict [("data", VList [])]);
     remote_stream := fun h _ =>
       let n := length (filter (fun ev => is_stream ev = true) h) in
       let size := nth n lengths 0 in
       Ok {| content_length := Ok size;
             chunks := if size =? 0 then [] else [repeat "a"%byte (Z.to_nat size)];
             stream_error := None |} |}.

(** A hydrated [Track] instance, reduced to the attributes the stream
    URL is derived from. *)
Definition hydrated_track (track_id : Z) (md5_origin media_version : string) : object :=
  {| obj_class := ClsTrack;
     obj_attrs := {[ "id" := VInt track_id;
                     "md5_origin" := VStr md5_origin;
                     "media_version" := VStr media_version ]} |}.

(** A state holding that one instance, at location [0]. *)
Definition hydrated_track_state (track_id : Z) (md5_origin media_version : string) : state :=
  {| history := [];
     heap := {[ O := hydrated_track track_id md5_origin media_version ]};
     next_loc := 1%nat;
     Track_cache := {[ KInt track_id := O ]};
     Album_cache := ∅;
     sess := Session_init "arl" |}.

(** The platform of the examples: the clock stands at 100 and every
    stream request is answered with an empty body. *)
Definition example_platform : Platform := sample_platform (scripted 100 []).

(** ** Vocabulary of the statements *)

(** [m] moves every state to one related to it by [R], whatever it
    returns or raises. *)
Definition steps (R : state -> state -> Prop) {A} (m : M A) : Prop :=
  forall s, R s (snd (m s)).

(** The history only grows. *)
Definition history_extends (s s' : state) : Prop :=
  exists d, history s' = history s ++ d.

(** The [method] parameter of each [POST] of a history, in order. *)
Definition posted_methods (h : list event) : list value :=
  flat_map (fun ev => match ev with
                      | EvPost _ params _ _ => [default VNone (assoc "method" params)]
                      | _ => []
                      end) h.

(** The session once [update_requests_session] has run. *)
Definition opened (s : state) : state :=
  set_sess {| arl_token := arl_token (sess s); transport_open := true;
              csrf_token := csrf_token (sess s);
              session_expires := session_expires (sess s) |} s.

(** The query parameters [get_api] sends. *)
Definition api_params (token : value) (method : string) : list (string * value) :=
  [("api_version", VStr "1.0"); ("api_token", token); ("input", VStr "3");
   ("method", VStr method)].

(** What the [POST] of [get_api] leaves behind when issued in state [s]:
    the transport is open, the request is in the history, and the result
    is the ["results"] member of the reply. *)
Definition api_post `{Platform} (method : string) (json : value) (s : state)
    : outcome value * state :=
  let params := api_params (csrf_token (sess s)) method in
  let cookies := [("arl", arl_token (sess s))] in
  (let? reply := http_post (history s) API_URL params json cookies in
   subscript reply "results",
   set_history (history s ++ [EvPost API_URL params json cookies]) (opened s)).

(** The state after a successful [_refresh_session] that received
    [token] while the clock showed [now]. *)
Definition refreshed (token : value) (now : Z) (s : state) : state :=
  set_history (history s ++ [EvClock])
    (set_sess {| arl_token := arl_token (sess s);
                 transport_open := transport_open (sess s);
                 csrf_token := token;
                 session_expires := now + 3600 |} s).

(** A server for which every visitor is anonymous: the user ID of its
    identity reply is [0]. *)
Definition anonymous : remote :=
  {| remote_clock := fun _ => 100;
     remote_post := fun _ _ _ _ _ =>
       Ok (VDict [("results", VDict [("USER", VDict [("USER_ID", VInt 0)]);
                                     ("checkForm", VStr "anonymous-token")])]);
     remote_get_json := fun _ _ => Raise (ClientError 404);
     remote_search := fun _ _ _ => Raise (ClientError 404);
     remote_stream := fun _ _ => Raise (ClientError 404) |}.

(** The value of attribute [name] of the instance at [self], if both
    exist. *)
Definition attr_of (s : state) (self : loc) (name : string) : option value :=
  match heap s !! self with
  | Some o => obj_attrs o !! name
  | None => None
  end.

(** Attribute [name] of [self] reads the same before and after. *)
Definition keeps_attr (self : loc) (name : string) (s s' : state) : Prop :=
  attr_of s' self name = attr_of s self name.

(** The heap and both caches are the same before and after. *)
Definition same_objects (s s' : state) : Prop :=
  heap s' = heap s /\ next_loc s' = next_loc s
  /\ Track_cache s' = Track_cache s /\ Album_cache s' = Album_cache s.

(** The degradation chain, best quality first. *)
Definition BITRATES : list string := ["FLAC"; "MP3_320"; "MP3_256"; "MP3_128"].

(** The element that follows [b] in [chain], if any. *)
Fixpoint next_in (chain : list string) (b : string) : option string :=
  match chain with
  | x :: rest =>
      if String.eqb b x then head rest else next_in rest b
  | [] => None
  end.

(** How many elements follow [b] in [chain]. *)
Fixpoint steps_left (chain : list string) (b : string) : nat :=
  match chain with
  | x :: rest => if String.eqb b x then length rest else steps_left rest b
  | [] => O
  end.

(** The number of events of [h] that satisfy [p]. *)
Definition count (p : event -> bool) (h : list event) : nat :=
  length (List.filter p h).

(** A [POST] of the page-track method: the request of [add_more_tags]. *)
Definition is_hydration `{Platform} (ev : event) : bool :=
  match ev with
  | EvPost _ params _ _ =>
      match assoc "method" params with
      | Some (VStr m) => String.eqb m METHOD_PAGE_TRACK
      | _ => false
      end
  | _ => false
  end.

(** The attributes [add_more_tags] assigns. *)
Definition EXTENDED_TAGS : list string :=
  ["md5_origin"; "media_version"; "composer"; "author"; "copyright";
   "lyrics"; "lyrics_sync"; "lyrics_copyrights"; "lyrics_writers"].

(** The history grows by events none of which satisfies [p]. *)
Definition quiet (p : event -> bool) (s s' : state) : Prop :=
  exists d, history s' = history s ++ d /\ count p d = O.

(** In every prefix of [h] the page-track requests are as many as the
    stream requests, or one more: the two kinds alternate, a page-track
    request coming first. *)
Definition alternating `{Platform} (h : list event) : Prop :=
  forall p q, h = p ++ q ->
    (count is_stream p <= count is_hydration p <= S (count is_stream p))%nat.

(** The progress notifications of a download that had received
    [current] bytes before the chunks [data]. *)
Fixpoint progress_events (current total : Z) (data : list bytes) : list event :=
  match data with
  | [] => []
  | chunk :: data' =>
      EvProgress (current + Z.of_nat (length chunk)) total
      :: progress_events (current + Z.of_nat (length chunk)) total data'
  end.

(** The state of a session that has resolved track 1 and nothing else;
    the instance is at location [0]. *)
Definition resolved_state : state :=
  snd (Track_init_via_track_id (H := example_platform) 1 (initial_state "arl")).

(** The empty reply of the example server to a stream request. *)
Definition empty_response : response :=
  {| content_length := Ok 0; chunks := []; stream_error := None |}.

(** Every character of [s] is in the class [cls]. *)
Definition all_in (cls : string -> bool) (s : string) : Prop :=
  Forall (fun ch => cls ch = true) (chars s).

(** [s] does not start with a character of the class [cls]. *)
Definition no_head (cls : string -> bool) (s : list string) : Prop :=
  match s with
  | [] => True
  | ch :: _ => cls ch = false
  end.

(** What may follow the numeric ID of a provider URL without changing
    how the URL is read: nothing, or a character that is no word
    character, a slash being followed by no digit. *)
Definition clean `{Platform} (rest : list string) : Prop :=
  match rest with
  | [] => True
  | ch :: rest' => is_word ch = false /\ (ch = "/" -> no_head is_digit rest')
  end.

(** The same for a text, which starts where a character starts. *)
Definition clean_tail `{Platform} (rest : string) : Prop :=
  continues rest = false /\ clean (chars rest).

(** The provider URL of an entity:
    [http(s)://(www.)deezer.com/(<locale>/)<kind>/<digits>]. *)
Definition provider_url (secure www : bool) (locale : option string)
    (kind digits : string) : string :=
  "http" +:+ (if secure then "s" else "") +:+ "://"
  +:+ (if www then "www." else "") +:+ "deezer.com/"
  +:+ match locale with Some l => l +:+ "/" | None => "" end
  +:+ kind +:+ "/" +:+ digits.

(** The candidates of [c+] on a run [w] followed by [rest], in the order
    [match_plus] tries them: the continuation sees ever longer remainders
    of [w]. *)
Fixpoint scan {R} (k : list string -> option R) (w rest : list string) : option R :=
  match w with
  | [] => None
  | _ :: w' =>
      match scan k w' rest with
      | Some x => Some x
      | None => k (w' ++ rest)
      end
  end.

(** The part of [URL_PATTERN] that follows the host. *)
Definition PATH_PATTERN `{Platform} : regex :=
  Seq (Opt (Seq (Plus is_word) (Lit "/")))
  (Seq (Group 1 (Plus is_word)) (Seq (Lit "/") (Group 2 (Plus is_digit)))).

(** Both caches keep every entry they had. *)
Definition caches_grow (s s' : state) : Prop :=
  Track_cache s ⊆ Track_cache s' /\ Album_cache s ⊆ Album_cache s'.

(** The state predicate [P] survives. *)
Definition preserves (P : state -> Prop) (s s' : state) : Prop := P s -> P s'.

(** The entry points of the package.  The cover downloads of [Album]
    are not among them: each assigns its own attribute of the instance
    and nothing else. *)
Inductive operation : Type :=
| OpTrack (track_info : value)
| OpAlbum (album_info : value)
| OpTrackViaId (track_id : Z)
| OpAlbumViaId (album_id : Z)
| OpFetchTracks (album : loc)
| OpFetchAlbum (track : loc)
| OpAddMoreTags (track : loc)
| OpGetApi (method : string) (json : value)
| OpRefreshSession
| OpSearchSongs (name : string) (albums_count songs_limit : Z)
| OpDownloadTrack (track : loc) (bitrate : string) (progress_callback : bool)
| OpDownloadTrackViaId (track_id : Z) (bitrate : string) (progress_callback : bool)
| OpDownloadAlbum (album : loc) (bitrate : string)
| OpDownload (url bitrate : string) (progress_callback : bool).

(** The state an operation leaves, whether it returns or raises. *)
Definition perform `{Platform} (op : operation) (s : state) : state :=
  match op with
  | OpTrack info => snd (Track_call info s)
  | OpAlbum info => snd (Album_call info s)
  | OpTrackViaId n => snd (Track_init_via_track_id n s)
  | OpAlbumViaId n => snd (Album_init_via_album_id n s)
  | OpFetchTracks album => snd (fetch_tracks album s)
  | OpFetchAlbum track => snd (fetch_album track s)
  | OpAddMoreTags track => snd (add_more_tags track s)
  | OpGetApi method json => snd (get_api method json s)
  | OpRefreshSession => snd (_refresh_session s)
  | OpSearchSongs name a b => snd (search_songs name a b s)
  | OpDownloadTrack track bitrate cb => snd (download_track track bitrate cb s)
  | OpDownloadTrackViaId n bitrate cb => snd (download_track_via_id n bitrate cb s)
  | OpDownloadAlbum album bitrate => snd (download_album album bitrate s)
  | OpDownload url bitrate cb => snd (download url bitrate cb s)
  end.

(** [s'] is what a sequence of operations makes of [s]. *)
Definition later `{Platform} (s s' : state) : Prop :=
  exists ops : list operation, s' = fold_left (fun s op => perform op s) ops s.

(** Every entry of [cache] points to an allocated instance of class
    [cls] whose [id], once assigned, is the key of the entry. *)
Definition cache_sound (cls : class_tag) (cache : gmap pykey loc) (s : state) : Prop :=
  forall key l, cache !! key = Some l ->
    (l < next_loc s)%nat
    /\ exists o, heap s !! l = Some o /\ obj_class o = cls
                 /\ forall v, obj_attrs o !! "id" = Some v -> hash_key v = Ok key.

(** Every instance of class [cls] is in [cache]. *)
Definition cache_complete (cls : class_tag) (cache : gmap pykey loc) (s : state) : Prop :=
  forall l o, heap s !! l = Some o -> obj_class o = cls ->
    exists key, cache !! key = Some l.

(** No instance is filed under two keys. *)
Definition cache_injective (cache : gmap pykey loc) : Prop :=
  forall k1 k2 l, cache !! k1 = Some l -> cache !! k2 = Some l -> k1 = k2.

(** The invariant of the heap and the caches. *)
Definition wf (s : state) : Prop :=
  cache_sound ClsTrack (Track_cache s) s
  /\ cache_sound ClsAlbum (Album_cache s) s
  /\ cache_complete ClsTrack (Track_cache s) s
  /\ cache_complete ClsAlbum (Album_cache s) s
  /\ cache_injective (Track_cache s)
  /\ cache_injective (Album_cache s)
  /\ forall l, (next_loc s <= l)%nat -> heap s !! l = None.

(** The invariant holds and the instance [self] is filed under [key]. *)
Definition filed (self : loc) (key : pykey) (s : state) : Prop :=
  wf s /\ (Track_cache s !! key = Some self \/ Album_cache s !! key = Some self).

(** A server that answers the album search with [albums] and the track
    search with [tracks]. *)
Definition search_platform (albums tracks : list value) : Platform :=
  sample_platform
    {| remote_clock := remote_clock (scripted 100 []);
       remote_post := remote_post (scripted 100 []);
       remote_get_json := remote_get_json (scripted 100 []);
       remote_search := fun _ url _ =>
         if String.eqb url "https://api.deezer.com/search/album"
         then Ok (VDict [("data", VList albums)])
         else Ok (VDict [("data", VList tracks)]);
       remote_stream := remote_stream (scripted 100 []) |}.

(** [part.get(key)] when [part] is a dictionary that is present, [None]
    otherwise. *)
Definition get_or_none (part : option value) (key : string) : value :=
  match part with
  | Some (VDict d) => default VNone (assoc key d)
  | _ => VNone
  end.

(** A server that answers the page-track method with [reply] and
    everything else as the example server does. *)
Definition page_track_platform (reply : value) : Platform :=
  sample_platform
    {| remote_clock := remote_clock (scripted 100 []);
       remote_post := fun h url params json cookies =>
         match assoc "method" params with
         | Some (VStr "deezer.pageTrack") => Ok (VDict [("results", reply)])
         | _ => remote_post (scripted 100 []) h url params json cookies
         end;
       remote_get_json := remote_get_json (scripted 100 []);
       remote_search := remote_search (scripted 100 []);
       remote_stream := remote_stream (scripted 100 []) |}.

(** A page-track reply with lyrics that name no writers. *)
Definition sample_page_track_no_writers : value :=
  VDict [("DATA", VDict [("MD5_ORIGIN", VStr "abc123");
                         ("MEDIA_VERSION", VStr "1");
                         ("SNG_CONTRIBUTORS", VList []);
                         ("COPYRIGHT", VStr "(c) Label")]);
         ("LYRICS", VDict [("LYRICS_TEXT", VStr "la la")])].

(** A server that knows no entity: every lookup on the public API is
    answered with the error document. *)
Definition unknown_entities : remote :=
  {| remote_clock := remote_clock (scripted 100 []);
     remote_post := remote_post (scripted 100 []);
     remote_get_json := fun _ _ => Ok sample_error_info;
     remote_search := remote_search (scripted 100 []);
     remote_stream := remote_stream (scripted 100 []) |}.

(** A session that holds [token], to expire at [expires]. *)
Definition logged_in (token : string) (expires : Z) : state :=
  set_sess {| arl_token := "arl"; transport_open := true;
              csrf_token := VStr token; session_expires := expires |}
           (initial_state "arl").

(** The number of times a [download_track] call started with [bitrate]
    in state [s] steps down the chain, when each of its attempts gets
    as far as opening a stream; [levels] bounds the attempts looked
    at. *)
Fixpoint step_downs `{Platform} (levels : nat) (track : loc) (bitrate : string)
    (s : state) : option nat :=
  match levels with
  | O => None
  | S levels' =>
      match open_stream track bitrate s with
      | (Ok (_, total), s1) =>
          if total =? 0 then
            match next_in BITRATES bitrate with
            | Some lower => option_map S (step_downs levels' track lower s1)
            | None => Some O
            end
          else Some O
      | _ => None
      end
  end.

(** * Properties *)

(** ** The monad *)

Lemma bind_Ok {A B} (m : M A) (k : A -> M B) s a s' :
  m s = (Ok a, s') -> bind m k s = k a s'.
Proof. intros Hm. unfold bind. now rewrite Hm. Qed.

Lemma bind_Raise {A B} (m : M A) (k : A -> M B) s e s' :
  m s = (Raise e, s') -> bind m k s = (Raise e, s').
Proof. intros Hm. unfold bind. now rewrite Hm. Qed.

Lemma bind_OutOfFuel {A B} (m : M A) (k : A -> M B) s s' :
  m s = (OutOfFuel, s') -> bind m k s = (OutOfFuel, s').
Proof. intros Hm. unfold bind. now rewrite Hm. Qed.

Lemma bind_Ok_inv {A B} (m : M A) (k : A -> M B) s b s2 :
  bind m k s = (Ok b, s2) ->
  exists a s1, m s = (Ok a, s1) /\ k a s1 = (Ok b, s2).
Proof.
  unfold bind. destruct (m s) as [[a | e |] s1]; intros Hk; try discriminate.
  now exists a, s1.
Qed.


(** ** utils.py *)

(** C7.  [get_quality] maps "FLAC" to "9", "MP3_320" to "3", "MP3_256" to
    "5", and "MP3_128" as well as every other label to "1". *)
Theorem get_quality_codes :
  get_quality "FLAC" = "9" /\ get_quality "MP3_320" = "3" /\
  get_quality "MP3_256" = "5" /\ get_quality "MP3_128" = "1" /\
  forall bitrate : string,
    bitrate <> "FLAC" -> bitrate <> "MP3_320" -> bitrate <> "MP3_256" ->
    get_quality bitrate = "1".
Proof.
  repeat split; try reflexivity.
  intros bitrate H1 H2 H3. unfold get_quality.
  destruct (String.eqb_spec bitrate "FLAC"); [contradiction |].
  destruct (String.eqb_spec bitrate "MP3_320"); [contradiction |].
  destruct (String.eqb_spec bitrate "MP3_256"); [contradiction |].
  reflexivity.
Qed.

Lemma get_quality_codes_witness :
  "MP3" <> "FLAC" /\ "MP3" <> "MP3_320" /\ "MP3" <> "MP3_256" /\ get_quality "MP3" = "1".
Proof.
  split; [discriminate |]. split; [discriminate |]. split; [discriminate |].
  apply (proj2 (proj2 (proj2 (proj2 get_quality_codes)))); discriminate.
Defined.


Section UtilsFacts.
Context `{Platform}.



End UtilsFacts.

(** The reference digest and cipher agree with the published vectors
    (RFC 1321, appendix A.5; FIPS 197, appendices B and C.1). *)
Example md5_rfc1321_vectors :
  decode (b2a_hex (MD5.md5 (encode ""))) = "d41d8cd98f00b204e9800998ecf8427e"
  /\ decode (b2a_hex (MD5.md5 (encode "abc"))) = "900150983cd24fb0d6963f7d28e17f72"
  /\ decode (b2a_hex (MD5.md5 (encode "message digest")))
     = "f96b697d7cb7938d525a2f31aaf161d0"
  /\ decode (b2a_hex (MD5.md5 (encode
       "12345678901234567890123456789012345678901234567890123456789012345678901234567890")))
     = "57edf4a22be3c955ac49da2e2107b67a".
Proof. repeat split; vm_compute; reflexivity. Qed.

Example aes_fips197_vectors :
  decode (b2a_hex (AES.ecb_encrypt
    (map byte_of_Z [0x00; 0x01; 0x02; 0x03; 0x04; 0x05; 0x06; 0x07;
                    0x08; 0x09; 0x0a; 0x0b; 0x0c; 0x0d; 0x0e; 0x0f])
    (map byte_of_Z [0x00; 0x11; 0x22; 0x33; 0x44; 0x55; 0x66; 0x77;
                    0x88; 0x99; 0xaa; 0xbb; 0xcc; 0xdd; 0xee; 0xff])))
  = "69c4e0d86a7b0430d8cdb78070b4c55a"
  /\ decode (b2a_hex (AES.ecb_encrypt
    (map byte_of_Z [0x2b; 0x7e; 0x15; 0x16; 0x28; 0xae; 0xd2; 0xa6;
                    0xab; 0xf7; 0x15; 0x88; 0x09; 0xcf; 0x4f; 0x3c])
    (map byte_of_Z [0x32; 0x43; 0xf6; 0xa8; 0x88; 0x5a; 0x30; 0x8d;
                    0x31; 0x31; 0x98; 0xa2; 0xe0; 0x37; 0x07; 0x34])))
  = "3925841d02dc09fbdc118597196a0b32".
Proof. split; vm_compute; reflexivity. Qed.

(** The golden vector of the specification: origin hash "abc123", quality
    "3", track 12345, media version "1". *)
Example get_stream_url_golden :
  get_stream_url (H := example_platform) O "3" (hydrated_track_state 12345 "abc123" "1")
  = (Ok ("http://e-cdn-proxy-a.dzcdn.net/api/1/"
         +:+ "4e8474bb6ba6ef4f6d2a9f8674866bb3e594a52ffba19a4f4dd694340bd4830d"
         +:+ "922eb5c111751431525fef5dd330af19399a24d2697c170205536c1c22f953c9"),
     hydrated_track_state 12345 "abc123" "1").
Proof. vm_compute. reflexivity. Qed.



(** ** Programs as state transformers *)

Section Steps.
Context `{Platform}.
Context (R : state -> state -> Prop) `{!PreOrder R}.

Lemma steps_ret {A} (a : A) : steps R (ret a).
Proof. intros s. reflexivity. Qed.

Lemma steps_raise {A} (e : exn) : steps R (@raise A e).
Proof. intros s. reflexivity. Qed.

Lemma steps_out_of_fuel {A} : steps R (@out_of_fuel A).
Proof. intros s. reflexivity. Qed.

Lemma steps_lift {A} (x : outcome A) : steps R (lift x).
Proof. intros s. reflexivity. Qed.

Lemma steps_get : steps R get.
Proof. intros s. reflexivity. Qed.

Lemma steps_modify (f : state -> state) :
  (forall s, R s (f s)) -> steps R (modify f).
Proof. intros Hf s. apply Hf. Qed.

Lemma steps_bind {A B} (m : M A) (k : A -> M B) :
  steps R m -> (forall a, steps R (k a)) -> steps R (bind m k).
Proof.
  intros Hm Hk s. unfold bind. specialize (Hm s).
  destruct (m s) as [[a | e |] s1]; cbn in *; try assumption.
  etransitivity; [exact Hm | apply Hk].
Qed.

Lemma steps_mapM {A B} (f : A -> M B) (l : list A) :
  (forall x, steps R (f x)) -> steps R (mapM f l).
Proof.
  intros Hf. induction l as [| x l IH]; cbn [mapM].
  - apply steps_ret.
  - apply steps_bind; [apply Hf | intros y].
    apply steps_bind; [exact IH | intros ys]. apply steps_ret.
Qed.

Lemma steps_gather2 {A B} (a : M A) (b : M B) :
  steps R a -> steps R b -> steps R (gather2 a b).
Proof.
  intros Ha Hb s. unfold gather2. specialize (Ha s).
  destruct (a s) as [ra s1]. specialize (Hb s1).
  destruct (b s1) as [rb s2]. cbn in *. etransitivity; eassumption.
Qed.
End Steps.

#[local] Instance history_extends_preorder : PreOrder history_extends.
Proof.
  split.
  - intros s. exists []. now rewrite app_nil_r.
  - intros s1 s2 s3 [d1 H1] [d2 H2]. exists (d1 ++ d2).
    rewrite H2, H1. now rewrite app_assoc.
Qed.

Ltac side_class :=
  lazymatch goal with
  | |- PreOrder _ => typeclasses eauto
  | _ => idtac
  end.

(** Walks through the binds and branches of a program, stopping at the
    calls of named functions. *)
Ltac steps_go :=
  repeat lazymatch goal with
    | |- steps _ (ret _) => apply steps_ret; side_class
    | |- steps _ (raise _) => apply steps_raise; side_class
    | |- steps _ (lift _) => apply steps_lift; side_class
    | |- steps _ get => apply steps_get; side_class
    | |- steps _ out_of_fuel => apply steps_out_of_fuel; side_class
    | |- steps _ (bind _ _) => apply steps_bind; side_class; [| intros ?]
    | |- steps _ (mapM _ _) => apply steps_mapM; side_class; intros ?
    | |- steps _ (gather2 _ _) => apply steps_gather2; side_class
    | |- steps _ (match ?x with _ => _ end) => destruct x
    end.

(** ** session.py: [get_api] and [_refresh_session] *)

Section SessionFacts.
Context `{Platform}.

Lemma must_refresh_run (method : string) (s : state) :
  must_refresh method s =
  if String.eqb method METHOD_GET_USER then (Ok false, s)
  else if truthy (csrf_token (sess s))
       then (Ok (session_expires (sess s) >? clock (history s)),
             set_history (history s ++ [EvClock]) s)
       else (Ok true, s).
Proof.
  unfold must_refresh. cbn.
  destruct (String.eqb method METHOD_GET_USER); cbn; [reflexivity |].
  destruct (truthy (csrf_token (sess s))); reflexivity.
Qed.

(** One level of [get_api]: the guard, the refresh it may ask for, then
    the request itself. *)
Lemma get_api_step_run (rec : string -> value -> M value) (method : string)
    (json : value) (s : state) :
  get_api_step rec method json s =
  match must_refresh method s with
  | (Ok true, s1) =>
      match _refresh_session_with rec s1 with
      | (Ok _, s2) => api_post method json s2
      | (Raise e, s2) => (Raise e, s2)
      | (OutOfFuel, s2) => (OutOfFuel, s2)
      end
  | (Ok false, s1) => api_post method json s1
  | (Raise e, s1) => (Raise e, s1)
  | (OutOfFuel, s1) => (OutOfFuel, s1)
  end.
Proof.
  unfold get_api_step. unfold bind at 1.
  destruct (must_refresh method s) as [[[|] | e |] s1]; try reflexivity.
  - unfold bind at 1.
    destruct (_refresh_session_with rec s1) as [[[] | e |] s2];
      try reflexivity.
    unfold api_post. cbn.
    destruct (http_post _ _ _ _ _); reflexivity.
  - unfold api_post. cbn.
    destruct (http_post _ _ _ _ _); reflexivity.
Qed.

Lemma get_api_fuel_S (fuel : nat) (method : string) (json : value) (s : state) :
  get_api_fuel (S fuel) method json s =
  match must_refresh method s with
  | (Ok true, s1) =>
      match _refresh_session_with (get_api_fuel fuel) s1 with
      | (Ok _, s2) => api_post method json s2
      | (Raise e, s2) => (Raise e, s2)
      | (OutOfFuel, s2) => (OutOfFuel, s2)
      end
  | (Ok false, s1) => api_post method json s1
  | (Raise e, s1) => (Raise e, s1)
  | (OutOfFuel, s1) => (OutOfFuel, s1)
  end.
Proof. apply get_api_step_run. Qed.

(** A request for [METHOD_GET_USER] goes out at once, whatever the
    method would do at the next level. *)
Lemma get_api_step_get_user (rec : string -> value -> M value) (json : value)
    (s : state) :
  get_api_step rec METHOD_GET_USER json s = api_post METHOD_GET_USER json s.
Proof.
  rewrite get_api_step_run, must_refresh_run, String.eqb_refl. reflexivity.
Qed.

Lemma get_api_fuel_get_user (fuel : nat) (json : value) (s : state) :
  get_api_fuel (S fuel) METHOD_GET_USER json s = api_post METHOD_GET_USER json s.
Proof. apply get_api_step_get_user. Qed.

(** [_refresh_session] in terms of the reply to its one request. *)
Lemma refresh_session_step_run (rec : string -> value -> M value) (s : state) :
  _refresh_session_with (get_api_step rec) s =
  match api_post METHOD_GET_USER VNone s with
  | (Ok user, s1) =>
      match (let? u := subscript user "USER" in subscript u "USER_ID") with
      | Ok user_id =>
          if eq_zero user_id then (Raise DeezerLoginError, s1)
          else match subscript user "checkForm" with
               | Ok token => (Ok tt, refreshed token (clock (history s1)) s1)
               | Raise e => (Raise e, s1)
               | OutOfFuel => (OutOfFuel, s1)
               end
      | Raise e => (Raise e, s1)
      | OutOfFuel => (OutOfFuel, s1)
      end
  | (Raise e, s1) => (Raise e, s1)
  | (OutOfFuel, s1) => (OutOfFuel, s1)
  end.
Proof.
  unfold _refresh_session_with. unfold bind at 1.
  rewrite get_api_step_get_user.
  destruct (api_post METHOD_GET_USER VNone s) as [[user | e |] s1]; try reflexivity.
  unfold bind at 1. unfold lift at 1.
  destruct (let? u := subscript user "USER" in subscript u "USER_ID")
    as [user_id | e |]; try reflexivity.
  destruct (eq_zero user_id); [reflexivity |].
  unfold bind at 1. unfold lift at 1.
  destruct (subscript user "checkForm") as [token | e |]; reflexivity.
Qed.

Lemma refresh_session_run (fuel : nat) (s : state) :
  _refresh_session_with (get_api_fuel (S fuel)) s =
  match api_post METHOD_GET_USER VNone s with
  | (Ok user, s1) =>
      match (let? u := subscript user "USER" in subscript u "USER_ID") with
      | Ok user_id =>
          if eq_zero user_id then (Raise DeezerLoginError, s1)
          else match subscript user "checkForm" with
               | Ok token => (Ok tt, refreshed token (clock (history s1)) s1)
               | Raise e => (Raise e, s1)
               | OutOfFuel => (OutOfFuel, s1)
               end
      | Raise e => (Raise e, s1)
      | OutOfFuel => (OutOfFuel, s1)
      end
  | (Raise e, s1) => (Raise e, s1)
  | (OutOfFuel, s1) => (OutOfFuel, s1)
  end.
Proof. apply refresh_session_step_run. Qed.
End SessionFacts.

Ltac destruct_inner :=
  match goal with
  | |- context [match ?x with _ => _ end] =>
      lazymatch x with
      | context [match _ with _ => _ end] => fail
      | _ => destruct x
      end
  end.

Section SessionExtras.
Context `{Platform}.

Lemma posted_methods_app (h1 h2 : list event) :
  posted_methods (h1 ++ h2) = posted_methods h1 ++ posted_methods h2.
Proof. unfold posted_methods. apply flat_map_app. Qed.

Lemma api_post_history (method : string) (json : value) (s : state) :
  exists ev, history (snd (api_post method json s)) = history s ++ [ev]
             /\ posted_methods [ev] = [VStr method].
Proof. eexists. split; reflexivity. Qed.

(** X1.  [get_api] sends the identity request first exactly when the
    method is not [METHOD_GET_USER] and either the token is empty (falsy)
    or the stored expiry is still greater than the clock.  After a
    refresh that returned, and when none was due, it sends the requested
    method; when the refresh failed it sends nothing more and fails as
    the refresh did.  No other request is made. *)
Theorem get_api_refresh_guard (method : string) (json : value) (s : state) :
  let refresh :=
    negb (String.eqb method METHOD_GET_USER)
    && (negb (truthy (csrf_token (sess s)))
        || (session_expires (sess s) >? clock (history s))) in
  let refreshing := _refresh_session (snd (must_refresh method s)) in
  exists (d : list event) (tail : list value),
    history (snd (get_api method json s)) = history s ++ d
    /\ posted_methods d = (if refresh then [VStr METHOD_GET_USER] else []) ++ tail
    /\ ((tail = [VStr method] /\ (refresh = true -> fst refreshing = Ok tt))
        \/ (refresh = true /\ tail = []
            /\ failed (fst refreshing) = true
            /\ fst (get_api method json s) = failure (fst refreshing))).
Proof.
  intros refresh refreshing. subst refresh refreshing.
  unfold _refresh_session, get_api.
  rewrite get_api_fuel_S, must_refresh_run.
  destruct (String.eqb method METHOD_GET_USER) eqn:Hm; cbn [negb andb].
  { exists [EvPost API_URL (api_params (csrf_token (sess s)) method) json
              [("arl", arl_token (sess s))]], [VStr method].
    cbn. split; [reflexivity |]. split; [reflexivity |]. left. split; [reflexivity |].
    discriminate. }
  assert (Hcase : forall s1 : state,
    exists (d : list event) (tail : list value),
      history (snd (match _refresh_session_with (get_api_fuel 1) s1 with
                    | (Ok _, s2) => api_post method json s2
                    | (Raise e, s2) => (Raise e, s2)
                    | (OutOfFuel, s2) => (OutOfFuel, s2)
                    end)) = history s1 ++ d
      /\ posted_methods d = [VStr METHOD_GET_USER] ++ tail
      /\ ((tail = [VStr method]
           /\ fst (_refresh_session_with (get_api_fuel 2) s1) = Ok tt)
          \/ (tail = []
              /\ failed (fst (_refresh_session_with (get_api_fuel 2) s1)) = true
              /\ fst (match _refresh_session_with (get_api_fuel 1) s1 with
                      | (Ok _, s2) => api_post method json s2
                      | (Raise e, s2) => (Raise e, s2)
                      | (OutOfFuel, s2) => (OutOfFuel, s2)
                      end)
                 = failure (fst (_refresh_session_with (get_api_fuel 2) s1))))).
  { intros s1. rewrite !refresh_session_run.
    destruct (api_post_history METHOD_GET_USER VNone s1) as (ev & Hev & Hpm).
    assert (Hfail : forall (x : outcome value) (y : outcome unit) (s2 s3 : state),
      history s2 = history s1 ++ [ev] -> s3 = s2 ->
      failed y = true -> x = failure y ->
      exists (d : list event) (tail : list value),
        history s3 = history s1 ++ d
        /\ posted_methods d = [VStr METHOD_GET_USER] ++ tail
        /\ ((tail = [VStr method] /\ y = Ok tt)
            \/ (tail = [] /\ failed y = true /\ x = failure y))).
    { intros x y s2 s3 Hs2 -> Hy Hx. exists [ev], [].
      split; [exact Hs2 |]. split; [exact Hpm |]. right. auto. }
    destruct (api_post METHOD_GET_USER VNone s1) as [[user | e |] s2];
      cbn [snd] in Hev; cbn [fst snd].
    2, 3: (eapply Hfail; [exact Hev | reflexivity ..]).
    destruct (let? u := subscript user "USER" in subscript u "USER_ID")
      as [user_id | e |]; cbn [fst snd].
    2, 3: (eapply Hfail; [exact Hev | reflexivity ..]).
    destruct (eq_zero user_id); cbn [fst snd].
    { eapply Hfail; [exact Hev | reflexivity ..]. }
    destruct (subscript user "checkForm") as [token | e |]; cbn [fst snd].
    2, 3: (eapply Hfail; [exact Hev | reflexivity ..]).
    destruct (api_post_history method json (refreshed token (clock (history s2)) s2))
      as (ev' & Hev' & Hpm').
    exists ([ev] ++ [EvClock] ++ [ev']), [VStr method].
    split.
    { rewrite Hev'. cbn [refreshed history set_history set_sess]. rewrite Hev.
      now rewrite <- !app_assoc. }
    split.
    { rewrite !posted_methods_app, Hpm, Hpm'. reflexivity. }
    left. auto. }
  destruct (truthy (csrf_token (sess s))) eqn:Htok; cbn [negb orb fst snd].
  - destruct (session_expires (sess s) >? clock (history s)) eqn:Hexp; cbn [fst snd].
    + destruct (Hcase (set_history (history s ++ [EvClock]) s))
        as (d & tail & Hh & Hp & Htail).
      exists (EvClock :: d), tail. rewrite Hh. cbn [history set_history].
      split; [now rewrite <- app_assoc |]. split; [exact Hp |].
      destruct Htail as [[-> Hr] | (-> & Hf & Hg)]; [left | right]; auto.
    + unfold api_post. cbn.
      eexists _, [VStr method]. split; [rewrite <- app_assoc; reflexivity |].
      split; [reflexivity |]. left. split; [reflexivity | discriminate].
  - destruct (Hcase s) as (d & tail & Hh & Hp & Htail).
    exists d, tail. split; [exact Hh |]. split; [exact Hp |].
    destruct Htail as [[-> Hr] | (-> & Hf & Hg)]; [left | right]; auto.
Qed.

(** X2.  The nesting of [get_api] and [_refresh_session] never exceeds
    two levels: whatever [get_api] would do at a third level, two levels
    of its body already give the result and the final state of
    [get_api]; in particular more fuel changes nothing. *)
Theorem get_api_fuel_independent (method : string) (json : value) (s : state) :
  (forall rec : string -> value -> M value,
     get_api_step (get_api_step rec) method json s = get_api method json s)
  /\ (forall fuel, get_api_fuel (2 + fuel) method json s = get_api method json s).
Proof.
  assert (Hrec : forall rec : string -> value -> M value,
            get_api_step (get_api_step rec) method json s = get_api method json s).
  { intros rec. unfold get_api. cbn [get_api_fuel]. rewrite !get_api_step_run.
    destruct (must_refresh method s) as [[[|] | e |] s1]; try reflexivity.
    now rewrite !refresh_session_step_run. }
  split; [exact Hrec |]. intros fuel. apply (Hrec (get_api_fuel fuel)).
Qed.

(** X3.  When the identity reply carries user ID 0, [_refresh_session]
    raises [DeezerLoginError] after that single request and leaves the
    token and its expiry as they were. *)
Theorem refresh_rejects_anonymous (s : state) (reply user user_id : value) :
  http_post (history s) API_URL (api_params (csrf_token (sess s)) METHOD_GET_USER)
            VNone [("arl", arl_token (sess s))] = Ok reply ->
  subscript reply "results" = Ok user ->
  (let? u := subscript user "USER" in subscript u "USER_ID") = Ok user_id ->
  eq_zero user_id = true ->
  exists s',
    _refresh_session s = (Raise DeezerLoginError, s')
    /\ csrf_token (sess s') = csrf_token (sess s)
    /\ session_expires (sess s') = session_expires (sess s)
    /\ history s' = history s
        ++ [EvPost API_URL (api_params (csrf_token (sess s)) METHOD_GET_USER)
                   VNone [("arl", arl_token (sess s))]].
Proof.
  intros Hpost Hres Huid Hzero.
  unfold _refresh_session, get_api. rewrite refresh_session_run.
  unfold api_post. rewrite Hpost. cbn [Res.bind]. rewrite Hres, Huid, Hzero.
  eexists. split; [reflexivity |]. cbn. auto.
Qed.

(** X4.  When the identity reply carries a non-zero user ID and a
    [checkForm] member, [_refresh_session] stores that member as the token
    and sets the expiry to the clock reading plus 3600. *)
Theorem refresh_stores_token (s : state) (reply user user_id token : value) :
  http_post (history s) API_URL (api_params (csrf_token (sess s)) METHOD_GET_USER)
            VNone [("arl", arl_token (sess s))] = Ok reply ->
  subscript reply "results" = Ok user ->
  (let? u := subscript user "USER" in subscript u "USER_ID") = Ok user_id ->
  eq_zero user_id = false ->
  subscript user "checkForm" = Ok token ->
  exists s',
    _refresh_session s = (Ok tt, s')
    /\ csrf_token (sess s') = token
    /\ session_expires (sess s')
       = clock (history s
                ++ [EvPost API_URL (api_params (csrf_token (sess s)) METHOD_GET_USER)
                           VNone [("arl", arl_token (sess s))]]) + 3600
    /\ arl_token (sess s') = arl_token (sess s).
Proof.
  intros Hpost Hres Huid Hzero Htok.
  unfold _refresh_session, get_api. rewrite refresh_session_run.
  unfold api_post. rewrite Hpost. cbn [Res.bind]. rewrite Hres, Huid, Hzero, Htok.
  eexists. split; [reflexivity |]. cbn. auto.
Qed.
End SessionExtras.

Lemma refresh_rejects_anonymous_witness :
  let P := sample_platform anonymous in
  let s := initial_state "arl" in
  let reply := VDict [("results", VDict [("USER", VDict [("USER_ID", VInt 0)]);
                                         ("checkForm", VStr "anonymous-token")])] in
  let user := VDict [("USER", VDict [("USER_ID", VInt 0)]);
                     ("checkForm", VStr "anonymous-token")] in
  exists s',
    _refresh_session (H := P) s = (Raise DeezerLoginError, s')
    /\ csrf_token (sess s') = csrf_token (sess s)
    /\ session_expires (sess s') = session_expires (sess s)
    /\ history s' = history s
        ++ [EvPost (API_URL (Platform := P))
                   (api_params (csrf_token (sess s)) (METHOD_GET_USER (Platform := P)))
                   VNone [("arl", arl_token (sess s))]].
Proof.
  intros P s reply user.
  apply (refresh_rejects_anonymous (H := P) s reply user (VInt 0));
    reflexivity.
Defined.

Lemma refresh_stores_token_witness :
  let P := example_platform in
  let s := initial_state "arl" in
  exists s',
    _refresh_session (H := P) s = (Ok tt, s')
    /\ csrf_token (sess s') = VStr "fresh-token"
    /\ session_expires (sess s')
       = clock (Platform := P)
               (history s
                ++ [EvPost (API_URL (Platform := P))
                           (api_params (csrf_token (sess s)) (METHOD_GET_USER (Platform := P)))
                           VNone [("arl", arl_token (sess s))]]) + 3600
    /\ arl_token (sess s') = arl_token (sess s).
Proof.
  intros P s.
  apply (refresh_stores_token (H := P) s
           (VDict [("results", VDict [("USER", VDict [("USER_ID", VInt 42)]);
                                      ("checkForm", VStr "fresh-token")])])
           (VDict [("USER", VDict [("USER_ID", VInt 42)]);
                   ("checkForm", VStr "fresh-token")])
           (VInt 42) (VStr "fresh-token"));
    reflexivity.
Defined.

Section DownloadTrackFacts.
Context `{Platform}.

Lemma next_in_chain (bitrate : string) :
  next_in BITRATES bitrate =
  if String.eqb bitrate "FLAC" then Some "MP3_320"
  else if String.eqb bitrate "MP3_320" then Some "MP3_256"
  else if String.eqb bitrate "MP3_256" then Some "MP3_128"
  else None.
Proof.
  cbn.
  destruct (String.eqb bitrate "FLAC"); [reflexivity |].
  destruct (String.eqb bitrate "MP3_320"); [reflexivity |].
  destruct (String.eqb bitrate "MP3_256"); [reflexivity |].
  destruct (String.eqb bitrate "MP3_128"); reflexivity.
Qed.

Lemma getattr_run (self : loc) (name : string) (s : state) :
  getattr self name s =
  match attr_of s self name with
  | Some v => (Ok v, s)
  | None => (Raise AttributeError, s)
  end.
Proof.
  unfold getattr, attr_of. cbn.
  destruct (heap s !! self) as [o |]; [| reflexivity].
  destruct (obj_attrs o !! name); reflexivity.
Qed.

(** One level of [download_track]. *)
Lemma download_track_step_run (rec : loc -> string -> bool -> M bytes) (track : loc)
    (bitrate : string) (cb : bool) (s : state) :
  download_track_step rec track bitrate cb s =
  match open_stream track bitrate s with
  | (Ok (response, total), s1) =>
      if total =? 0 then
        match next_in BITRATES bitrate with
        | Some lower => rec track lower cb s1
        | None =>
            match attr_of s1 track "id" with
            | Some track_id => (Raise (DownloadError track_id), s1)
            | None => (Raise AttributeError, s1)
            end
        end
      else
        match read_chunks (chunks response) 0 total [] cb s1 with
        | (Ok buffer, s2) =>
            match stream_error response with
            | Some e => (Raise e, s2)
            | None => (Ok buffer, s2)
            end
        | (Raise e, s2) => (Raise e, s2)
        | (OutOfFuel, s2) => (OutOfFuel, s2)
        end
  | (Raise e, s1) => (Raise e, s1)
  | (OutOfFuel, s1) => (OutOfFuel, s1)
  end.
Proof.
  unfold download_track_step. unfold bind at 1.
  destruct (open_stream track bitrate s) as [[[response total] | e |] s1];
    try reflexivity.
  destruct (total =? 0).
  - rewrite next_in_chain.
    destruct (String.eqb bitrate "FLAC"); [reflexivity |].
    destruct (String.eqb bitrate "MP3_320"); [reflexivity |].
    destruct (String.eqb bitrate "MP3_256"); [reflexivity |].
    unfold bind at 1. unfold bind at 1. rewrite getattr_run.
    destruct (attr_of s1 track "id"); reflexivity.
  - unfold bind at 1.
    destruct (read_chunks _ _ _ _ _ s1) as [[buffer | e |] s2]; try reflexivity.
    destruct (stream_error response); reflexivity.
Qed.

Lemma download_track_fuel_S (fuel : nat) (track : loc) (bitrate : string)
    (cb : bool) (s : state) :
  download_track_fuel (S fuel) track bitrate cb s =
  match open_stream track bitrate s with
  | (Ok (response, total), s1) =>
      if total =? 0 then
        match next_in BITRATES bitrate with
        | Some lower => download_track_fuel fuel track lower cb s1
        | None =>
            match attr_of s1 track "id" with
            | Some track_id => (Raise (DownloadError track_id), s1)
            | None => (Raise AttributeError, s1)
            end
        end
      else
        match read_chunks (chunks response) 0 total [] cb s1 with
        | (Ok buffer, s2) =>
            match stream_error response with
            | Some e => (Raise e, s2)
            | None => (Ok buffer, s2)
            end
        | (Raise e, s2) => (Raise e, s2)
        | (OutOfFuel, s2) => (OutOfFuel, s2)
        end
  | (Raise e, s1) => (Raise e, s1)
  | (OutOfFuel, s1) => (OutOfFuel, s1)
  end.
Proof. apply download_track_step_run. Qed.
End DownloadTrackFacts.

Lemma steps_weaken (R R' : state -> state -> Prop) {A} (m : M A) :
  (forall s s', R s s' -> R' s s') -> steps R m -> steps R' m.
Proof. intros HR Hm s. apply HR, Hm. Qed.

(** *** Code that touches the session and the history only *)

Section SessionSteps.
Context `{Platform}.
Context (R : state -> state -> Prop) `{!PreOrder R}.
Hypothesis R_emit : forall ev, is_stream ev = false -> steps R (emit ev).
Hypothesis R_sess : forall g : state -> session,
  steps R (modify (fun s => set_sess (g s) s)).

Lemma time_time_steps : steps R time_time.
Proof. unfold time_time. steps_go. now apply R_emit. Qed.

Lemma update_requests_session_steps : steps R update_requests_session.
Proof. unfold update_requests_session. apply R_sess. Qed.

Lemma must_refresh_steps (method : string) : steps R (must_refresh method).
Proof. unfold must_refresh. steps_go. apply time_time_steps. Qed.

Lemma refresh_session_with_steps (get_api : string -> value -> M value) :
  (forall method json, steps R (get_api method json)) ->
  steps R (_refresh_session_with get_api).
Proof.
  intros Hg. unfold _refresh_session_with. steps_go;
    first [apply Hg | apply R_sess | apply time_time_steps].
Qed.

Lemma get_api_step_steps (rec : string -> value -> M value) (method : string)
    (json : value) :
  (forall method json, steps R (rec method json)) ->
  steps R (get_api_step rec method json).
Proof.
  intros Hrec. unfold get_api_step, with_transport.
  steps_go;
    first [ apply must_refresh_steps | now apply refresh_session_with_steps
          | apply update_requests_session_steps | now apply R_emit ].
Qed.

Lemma get_api_fuel_steps (fuel : nat) (method : string) (json : value) :
  steps R (get_api_fuel fuel method json).
Proof.
  revert method json. induction fuel as [| fuel IH]; intros method json;
    cbn [get_api_fuel]; [steps_go |].
  now apply get_api_step_steps.
Qed.

Lemma get_api_steps (method : string) (json : value) : steps R (get_api method json).
Proof. apply get_api_fuel_steps. Qed.

Lemma read_chunks_steps (data : list bytes) (current total : Z) (buffer : bytes)
    (cb : bool) : steps R (read_chunks data current total buffer cb).
Proof.
  revert current buffer. induction data as [| chunk data IH]; intros current buffer;
    cbn [read_chunks]; steps_go; first [now apply R_emit | apply IH].
Qed.

Lemma search_request_steps (url name : string) : steps R (search_request url name).
Proof. unfold search_request, with_transport. steps_go. now apply R_emit. Qed.
End SessionSteps.

(** *** Code that also assigns the extended tags *)

Section TagSteps.
Context `{Platform}.
Context (R : state -> state -> Prop) `{!PreOrder R}.
Hypothesis R_emit : forall ev, is_stream ev = false -> steps R (emit ev).
Hypothesis R_sess : forall g : state -> session,
  steps R (modify (fun s => set_sess (g s) s)).
Hypothesis R_tag : forall self name v,
  In name EXTENDED_TAGS -> steps R (setattr self name v).

Lemma getattr_steps (self : loc) (name : string) : steps R (getattr self name).
Proof. unfold getattr. steps_go. Qed.

Lemma get_stream_url_steps (track : loc) (quality : string) :
  steps R (get_stream_url track quality).
Proof. unfold get_stream_url. steps_go; apply getattr_steps. Qed.

Lemma add_more_tags_steps (self : loc) : steps R (add_more_tags self).
Proof.
  unfold add_more_tags, copy_field2.
  steps_go;
    first [ apply getattr_steps
          | apply get_api_steps; assumption
          | apply R_tag; cbn; tauto ].
Qed.

Hypothesis R_stream : forall url, steps R (emit (EvStream url)).

Lemma open_stream_steps (track : loc) (bitrate : string) :
  steps R (open_stream track bitrate).
Proof.
  unfold open_stream, with_transport.
  steps_go;
    first [ apply update_requests_session_steps; assumption
          | apply add_more_tags_steps
          | apply get_stream_url_steps
          | apply R_stream ].
Qed.

Lemma download_track_step_steps (rec : loc -> string -> bool -> M bytes)
    (track : loc) (bitrate : string) (cb : bool) :
  (forall track bitrate cb, steps R (rec track bitrate cb)) ->
  steps R (download_track_step rec track bitrate cb).
Proof.
  intros Hrec. unfold download_track_step.
  steps_go;
    first [ apply open_stream_steps | apply Hrec | apply getattr_steps
          | apply read_chunks_steps; assumption ].
Qed.

Lemma download_track_fuel_steps (fuel : nat) (track : loc) (bitrate : string)
    (cb : bool) : steps R (download_track_fuel fuel track bitrate cb).
Proof.
  revert track bitrate cb. induction fuel as [| fuel IH]; intros track bitrate cb;
    cbn [download_track_fuel]; [steps_go |].
  now apply download_track_step_steps.
Qed.
End TagSteps.

(** *** The relations at hand *)

#[local] Instance same_objects_preorder : PreOrder same_objects.
Proof.
  split.
  - intros s. repeat split.
  - intros s1 s2 s3 (H1 & H2 & H3 & H4) (H5 & H6 & H7 & H8).
    repeat split; congruence.
Qed.

#[local] Instance keeps_attr_preorder self name : PreOrder (keeps_attr self name).
Proof.
  split.
  - intros s. reflexivity.
  - intros s1 s2 s3 H1 H2. unfold keeps_attr in *. congruence.
Qed.

Lemma count_app (p : event -> bool) (h1 h2 : list event) :
  count p (h1 ++ h2) = (count p h1 + count p h2)%nat.
Proof. unfold count. now rewrite List.filter_app, length_app. Qed.

#[local] Instance quiet_preorder p : PreOrder (quiet p).
Proof.
  split.
  - intros s. exists []. now rewrite app_nil_r.
  - intros s1 s2 s3 (d1 & H1 & C1) (d2 & H2 & C2). exists (d1 ++ d2).
    rewrite H2, H1, app_assoc, count_app, C1, C2. auto.
Qed.

Lemma same_objects_keeps_attr self name s s' :
  same_objects s s' -> keeps_attr self name s s'.
Proof. intros (Hh & _). unfold keeps_attr, attr_of. now rewrite Hh. Qed.

Lemma emit_same_objects ev : steps same_objects (emit ev).
Proof. intros s. repeat split. Qed.

Lemma sess_same_objects (g : state -> session) :
  steps same_objects (modify (fun s => set_sess (g s) s)).
Proof. intros s. repeat split. Qed.

Lemma emit_keeps_attr self name ev : steps (keeps_attr self name) (emit ev).
Proof. intros s. reflexivity. Qed.

Lemma sess_keeps_attr self name (g : state -> session) :
  steps (keeps_attr self name) (modify (fun s => set_sess (g s) s)).
Proof. intros s. reflexivity. Qed.

Lemma attr_of_setattr (s : state) (self l : loc) (name n : string) (v : value) :
  attr_of (snd (setattr l n v s)) self name =
  if decide (l = self /\ n = name)
  then (match heap s !! self with Some _ => Some v | None => None end)
  else attr_of s self name.
Proof.
  unfold setattr, modify, attr_of. cbn.
  destruct (decide (l = self)) as [-> | Hl].
  - rewrite lookup_alter_eq.
    destruct (heap s !! self) as [o |]; cbn.
    + destruct (decide (n = name)) as [-> | Hn].
      * rewrite decide_True by auto. now rewrite lookup_insert_eq.
      * rewrite decide_False by tauto. now rewrite lookup_insert_ne.
    + now destruct (decide _).
  - rewrite decide_False by tauto. now rewrite lookup_alter_ne.
Qed.

Lemma setattr_keeps_attr (self l : loc) (name n : string) (v : value) :
  n <> name -> steps (keeps_attr self name) (setattr l n v).
Proof.
  intros Hn s. unfold keeps_attr. rewrite attr_of_setattr.
  now rewrite decide_False by tauto.
Qed.

(** ** session.py: [download_track] *)

Section DownloadTrackExtras.
Context `{Platform}.

Lemma tag_keeps_id (track self : loc) (name : string) (v : value) :
  In name EXTENDED_TAGS -> steps (keeps_attr track "id") (setattr self name v).
Proof.
  intros Hin. apply setattr_keeps_attr. intros ->. cbn in Hin.
  repeat (destruct Hin as [Hin | Hin]; [discriminate |]). contradiction.
Qed.

Lemma open_stream_keeps_id (track : loc) (bitrate : string) (s : state) :
  attr_of (snd (open_stream track bitrate s)) track "id" = attr_of s track "id".
Proof.
  apply (open_stream_steps (keeps_attr track "id")).
  - intros ev _. apply emit_keeps_attr.
  - apply sess_keeps_attr.
  - apply tag_keeps_id.
  - intros url. apply emit_keeps_attr.
Qed.

(** A stream can be opened only for an instance that has an [id]. *)
Lemma open_stream_Ok_id (track : loc) (bitrate : string) (s : state) r s1 :
  open_stream track bitrate s = (Ok r, s1) ->
  exists track_id, attr_of s track "id" = Some track_id.
Proof.
  unfold open_stream. intros Hrun.
  apply bind_Ok_inv in Hrun as (? & s0 & Hs0 & Hrun).
  apply bind_Ok_inv in Hrun as (? & s2 & Htags & _).
  unfold add_more_tags in Htags.
  apply bind_Ok_inv in Htags as (track_id & s3 & Hid & _).
  rewrite getattr_run in Hid.
  unfold update_requests_session, modify in Hs0. injection Hs0 as _ <-.
  change (attr_of (set_sess _ s) track "id") with (attr_of s track "id") in Hid.
  destruct (attr_of s track "id") as [v |]; [eauto | discriminate].
Qed.

(** X5.  When the stream opened for [bitrate] declares a length of zero,
    [download_track] starts over with the next bitrate of the chain
    FLAC, MP3_320, MP3_256, MP3_128, in the state the attempt left; where
    the chain has no next bitrate it raises [DownloadError] with the ID of
    the track. *)
Theorem download_track_fallback (fuel : nat) (track : loc) (bitrate : string)
    (cb : bool) (s s1 : state) (response : response) :
  open_stream track bitrate s = (Ok (response, 0), s1) ->
  exists track_id,
    attr_of s track "id" = Some track_id
    /\ download_track_fuel (S fuel) track bitrate cb s =
       match next_in BITRATES bitrate with
       | Some lower => download_track_fuel fuel track lower cb s1
       | None => (Raise (DownloadError track_id), s1)
       end.
Proof.
  intros Hopen.
  destruct (open_stream_Ok_id _ _ _ _ _ Hopen) as [track_id Hid].
  exists track_id. split; [exact Hid |].
  rewrite download_track_fuel_S, Hopen. cbn [Z.eqb].
  destruct (next_in BITRATES bitrate); [reflexivity |].
  pose proof (open_stream_keeps_id track bitrate s) as Hkeep.
  rewrite Hopen in Hkeep. cbn [snd] in Hkeep. now rewrite Hkeep, Hid.
Qed.

Lemma next_in_steps_left (bitrate lower : string) :
  next_in BITRATES bitrate = Some lower ->
  steps_left BITRATES bitrate = S (steps_left BITRATES lower).
Proof.
  rewrite next_in_chain. cbn [steps_left BITRATES].
  destruct (String.eqb_spec bitrate "FLAC") as [-> | _];
    [intros [= <-]; reflexivity |].
  destruct (String.eqb_spec bitrate "MP3_320") as [-> | _];
    [intros [= <-]; reflexivity |].
  destruct (String.eqb_spec bitrate "MP3_256") as [-> | _];
    [intros [= <-]; reflexivity | discriminate].
Qed.

Lemma steps_left_bound (bitrate : string) : (steps_left BITRATES bitrate <= 3)%nat.
Proof.
  cbn. repeat (destruct (String.eqb bitrate _); [cbn; lia |]). lia.
Qed.

(** X6.  The recursion of [download_track] ends on its own: whatever
    the server answers and whatever the method would do at a fifth
    level, four levels of its body already give the result and the final
    state of [download_track]; in particular more fuel changes
    nothing. *)
Theorem download_track_fuel_independent (track : loc) (bitrate : string) (cb : bool)
    (s : state) :
  (forall rec : loc -> string -> bool -> M bytes,
     download_track_step
       (download_track_step (download_track_step (download_track_step rec)))
       track bitrate cb s
     = download_track track bitrate cb s)
  /\ (forall fuel,
       download_track_fuel (4 + fuel) track bitrate cb s
       = download_track track bitrate cb s).
Proof.
  assert (Hgen : forall n (rec1 rec2 : loc -> string -> bool -> M bytes) b s0,
             (steps_left BITRATES b < n)%nat ->
             Nat.iter n download_track_step rec1 track b cb s0
             = Nat.iter n download_track_step rec2 track b cb s0).
  { induction n as [| n IH]; intros rec1 rec2 b s0 Hn; [lia |].
    rewrite !Nat.iter_succ, !download_track_step_run.
    destruct (open_stream track b s0) as [[[resp total] | e |] s1]; try reflexivity.
    destruct (total =? 0); [| reflexivity].
    destruct (next_in BITRATES b) as [lower |] eqn:Hnext; [| reflexivity].
    apply next_in_steps_left in Hnext. apply IH; lia. }
  assert (Hrec : forall rec : loc -> string -> bool -> M bytes,
            download_track_step
              (download_track_step (download_track_step (download_track_step rec)))
              track bitrate cb s
            = download_track track bitrate cb s).
  { intros rec. pose proof (steps_left_bound bitrate).
    apply (Hgen 4%nat rec (fun _ _ _ => out_of_fuel)). lia. }
  split; [exact Hrec |]. intros fuel. apply (Hrec (download_track_fuel fuel)).
Qed.
End DownloadTrackExtras.

Section TraceFacts.
Context `{Platform}.

Lemma count_prefix_le (p : event -> bool) (h1 h2 : list event) :
  (count p h1 <= count p (h1 ++ h2))%nat.
Proof. rewrite count_app. lia. Qed.

Lemma emit_quiet (p : event -> bool) (ev : event) :
  p ev = false -> steps (quiet p) (emit ev).
Proof.
  intros Hp s. exists [ev]. split; [reflexivity |].
  unfold count. cbn. now rewrite Hp.
Qed.

Lemma modify_quiet (p : event -> bool) (f : state -> state) :
  (forall s, history (f s) = history s) -> steps (quiet p) (modify f).
Proof.
  intros Hf s. exists []. cbn. rewrite Hf, app_nil_r. auto.
Qed.

Lemma add_more_tags_no_stream (self : loc) : steps (quiet is_stream) (add_more_tags self).
Proof.
  apply add_more_tags_steps.
  - apply _.
  - intros ev Hev. now apply emit_quiet.
  - intros g. now apply modify_quiet.
  - intros l name v _. now apply modify_quiet.
Qed.

(** The chunks are appended to the buffer in the order received; with a
    callback, each chunk is followed by one notification carrying the
    running byte count. *)
Lemma read_chunks_run (data : list bytes) (current total : Z) (buffer : bytes)
    (cb : bool) (s : state) :
  read_chunks data current total buffer cb s =
  (Ok (buffer ++ concat data),
   set_history (history s ++ (if cb then progress_events current total data else [])) s).
Proof.
  revert current buffer s.
  induction data as [| chunk data IH]; intros current buffer s; cbn [read_chunks].
  - destruct cb; cbn; rewrite !app_nil_r; destruct s; reflexivity.
  - unfold bind at 1. destruct cb.
    + cbn [emit modify]. rewrite IH. cbn. rewrite <- !app_assoc. reflexivity.
    + cbn [ret]. rewrite IH. cbn. rewrite <- !app_assoc. reflexivity.
Qed.

Lemma count_progress (p : event -> bool) (current total : Z) (data : list bytes) :
  (forall c t, p (EvProgress c t) = false) ->
  count p (progress_events current total data) = O.
Proof.
  intros Hp. revert current. induction data as [| chunk data IH]; intros current.
  - reflexivity.
  - unfold count in *. cbn. rewrite Hp. apply IH.
Qed.
End TraceFacts.

Section HydrationFacts.
Context `{Platform}.

(** The requests of [get_api] for the page-track method: no stream
    request, at most one page-track request, exactly one on success. *)
Lemma get_api_page_track_trace (json : value) (s : state) :
  exists d,
    history (snd (get_api METHOD_PAGE_TRACK json s)) = history s ++ d
    /\ count is_stream d = O
    /\ (count is_hydration d <= 1)%nat
    /\ (forall v, fst (get_api METHOD_PAGE_TRACK json s) = Ok v ->
        count is_hydration d = 1%nat).
Proof.
  unfold get_api. rewrite get_api_fuel_S, must_refresh_run.
  destruct (String.eqb METHOD_PAGE_TRACK METHOD_GET_USER) eqn:Hm.
  - unfold api_post. cbn.
    eexists; split; [reflexivity |]. unfold count. cbn.
    rewrite String.eqb_refl. cbn. repeat split; lia.
  - assert (Hsym : String.eqb METHOD_GET_USER METHOD_PAGE_TRACK = false)
      by (now rewrite String.eqb_sym).
    destruct (truthy (csrf_token (sess s)));
      [destruct (session_expires (sess s) >? clock (history s)) |];
      rewrite ?refresh_session_run; unfold api_post, refreshed; cbn;
      repeat (destruct_inner; cbn);
      rewrite <- ?app_assoc;
      (eexists; split; [reflexivity |]); unfold count; cbn;
      rewrite ?String.eqb_refl, ?Hsym; cbn;
      repeat split; try lia; try (intros ? ?; discriminate).
Qed.
End HydrationFacts.

Section AttemptFacts.
Context `{Platform}.

Lemma quiet_all_same_history (s s' : state) :
  quiet (fun _ => true) s s' -> history s' = history s.
Proof.
  intros (d & Hd & Hc). unfold count in Hc.
  destruct d as [| ev d]; [now rewrite app_nil_r in Hd | discriminate].
Qed.

Lemma setattr_silent (self : loc) (name : string) (v : value) :
  steps (quiet (fun _ => true)) (setattr self name v).
Proof. now apply modify_quiet. Qed.

Lemma copy_field2_silent (self : loc) (name : string) (info : value) (k1 k2 : string) :
  steps (quiet (fun _ => true)) (copy_field2 self name info k1 k2).
Proof. unfold copy_field2. steps_go. apply setattr_silent. Qed.

(** The requests of [add_more_tags]: those of its one [get_api] call. *)
Lemma add_more_tags_trace (self : loc) (s : state) :
  exists d,
    history (snd (add_more_tags self s)) = history s ++ d
    /\ count is_stream d = O
    /\ (count is_hydration d <= 1)%nat
    /\ (forall u, fst (add_more_tags self s) = Ok u -> count is_hydration d = 1%nat).
Proof.
  remember (add_more_tags self s) as run eqn:Hrun.
  unfold add_more_tags in Hrun. unfold bind at 1 in Hrun.
  rewrite getattr_run in Hrun.
  destruct (attr_of s self "id") as [track_id |].
  2: { subst run. exists []. cbn. rewrite app_nil_r. repeat split; try lia.
       intros ? ?; discriminate. }
  unfold bind at 1 in Hrun.
  destruct (get_api_page_track_trace (VDict [("sng_id", track_id)]) s)
    as (d & Hd & Hs & Hle & Hok).
  destruct (get_api METHOD_PAGE_TRACK (VDict [("sng_id", track_id)]) s)
    as [[r | e |] s1]; cbn [fst snd] in *.
  2, 3: subst run; exists d; repeat split; auto; intros ? ?; discriminate.
  match type of Hrun with
  | run = ?m s1 => assert (Hq : steps (quiet (fun _ => true)) m)
  end.
  { steps_go; first [apply copy_field2_silent | apply setattr_silent]. }
  apply (fun H => quiet_all_same_history _ _ (H s1)) in Hq.
  rewrite <- Hrun in Hq.
  exists d. rewrite Hq, Hd. repeat split; eauto.
Qed.
End AttemptFacts.

Section Alternation.
Context `{Platform}.

Lemma alternating_of_counts (d : list event) :
  count is_stream d = O -> (count is_hydration d <= 1)%nat -> alternating d.
Proof.
  intros Hs Hh p q ->.
  pose proof (count_prefix_le is_stream p q).
  pose proof (count_prefix_le is_hydration p q). lia.
Qed.

Lemma alternating_app (d1 d2 : list event) :
  alternating d1 -> count is_hydration d1 = count is_stream d1 ->
  alternating d2 -> alternating (d1 ++ d2).
Proof.
  intros H1 Hbal H2 p q Heq.
  apply List.app_eq_app in Heq as [k [[-> ->] | [-> ->]]].
  - apply (H1 p k eq_refl).
  - rewrite !count_app. specialize (H2 k q eq_refl). lia.
Qed.

Lemma alternating_attempt (d : list event) (url : string) :
  count is_stream d = O -> count is_hydration d = 1%nat ->
  alternating (d ++ [EvStream url]).
Proof.
  intros Hs Hh p q Heq.
  apply List.app_eq_app in Heq as [k [[-> Hk] | [-> Hk]]].
  - pose proof (count_prefix_le is_stream p k).
    pose proof (count_prefix_le is_hydration p k). lia.
  - rewrite !count_app, Hs, Hh.
    destruct k as [| ev k].
    + cbn. lia.
    + injection Hk as Hev Hk. subst ev. symmetry in Hk.
      apply app_eq_nil in Hk as [-> ->].
      cbn. lia.
Qed.

Lemma get_stream_url_state (track : loc) (quality : string) (s : state) :
  snd (get_stream_url track quality s) = s.
Proof. symmetry. apply (get_stream_url_steps eq). Qed.

(** One attempt of [download_track]: a page-track request, then, when the
    tags arrived, at most one stream request. *)
Lemma open_stream_trace (track : loc) (bitrate : string) (s : state) :
  exists d,
    history (snd (open_stream track bitrate s)) = history s ++ d
    /\ alternating d
    /\ (count is_stream d <= 1)%nat
    /\ (forall r, fst (open_stream track bitrate s) = Ok r ->
        count is_stream d = 1%nat /\ count is_hydration d = 1%nat).
Proof.
  remember (open_stream track bitrate s) as run eqn:Hrun.
  unfold open_stream in Hrun. unfold bind at 1 in Hrun.
  cbn [update_requests_session modify] in Hrun.
  unfold bind at 1 in Hrun.
  destruct (add_more_tags_trace track (opened s)) as (d & Hd & Hs & Hle & Hok).
  fold (opened s) in Hrun.
  destruct (add_more_tags track (opened s)) as [[[] | e |] s1]; cbn [fst snd] in *.
  2, 3: subst run; exists d; split; [assumption |];
        split; [now apply alternating_of_counts |]; split; [lia |];
        intros ? ?; discriminate.
  specialize (Hok tt eq_refl).
  unfold bind at 1 in Hrun.
  pose proof (get_stream_url_state track (get_quality bitrate) s1) as Hurl.
  destruct (get_stream_url track (get_quality bitrate) s1) as [[url | e |] s2];
    cbn [snd] in Hurl; subst s2.
  2, 3: subst run; exists d; split; [assumption |];
        split; [now apply alternating_of_counts |]; split; [lia |];
        intros ? ?; discriminate.
  unfold with_transport, bind, get, emit, modify, lift, ret, raise in Hrun.
  cbn in Hrun.
  destruct (transport_open (sess s1)).
  - cbn in Hrun.
    exists (d ++ [EvStream url]).
    assert (Hhist : history (snd run) = history s ++ d ++ [EvStream url]).
    { subst run. destruct (http_stream (history s1) url) as [resp | e |]; cbn;
        [destruct (content_length resp); cbn | |];
        rewrite Hd; cbn; now rewrite <- app_assoc. }
    split; [exact Hhist |].
    split; [now apply alternating_attempt |].
    rewrite !count_app, Hs, Hok. cbn. repeat split; lia.
  - subst run. cbn. exists d. split; [assumption |].
    split; [now apply alternating_of_counts |]. split; [lia |].
    intros ? ?; discriminate.
Qed.
End Alternation.

Section DownloadTrackTrace.
Context `{Platform}.

Lemma count_progress_events (current total : Z) (data : list bytes) (cb : bool) :
  count is_stream (if cb then progress_events current total data else []) = O
  /\ count is_hydration (if cb then progress_events current total data else []) = O.
Proof.
  destruct cb; [| split; reflexivity].
  split; apply count_progress; reflexivity.
Qed.

(** X7.  The requests of a [download_track] call: page-track requests
    and stream requests alternate, a page-track request first, so every
    stream URL is derived right after a fresh hydration, also when the
    tags were already there; there are at most as many stream requests as
    the chain has bitrates from [bitrate] down, four at most; and a
    download that succeeds has issued as many page-track requests as
    stream requests. *)
Theorem download_track_requests (fuel : nat) (track : loc) (bitrate : string)
    (cb : bool) (s : state) :
  exists d,
    history (snd (download_track_fuel fuel track bitrate cb s)) = history s ++ d
    /\ alternating d
    /\ (count is_stream d <= S (steps_left BITRATES bitrate) <= 4)%nat
    /\ (forall buffer, fst (download_track_fuel fuel track bitrate cb s) = Ok buffer ->
        count is_hydration d = count is_stream d).
Proof.
  revert bitrate s. induction fuel as [| fuel IH]; intros bitrate s.
  { exists []. rewrite app_nil_r.
    pose proof (steps_left_bound bitrate).
    split; [reflexivity |].
    split; [apply alternating_of_counts; unfold count; cbn [List.filter length]; lia |].
    split; [unfold count; cbn [List.filter length]; lia |].
    intros ? ?; discriminate. }
  rewrite download_track_fuel_S.
  pose proof (steps_left_bound bitrate) as Hbound.
  destruct (open_stream_trace track bitrate s) as (d1 & Hd1 & Halt1 & Hle1 & Hok1).
  destruct (open_stream track bitrate s) as [[[resp total] | e |] s1];
    cbn [fst snd] in *.
  2, 3: exists d1; split; [assumption |]; split; [assumption |];
        split; [lia |]; intros ? ?; discriminate.
  destruct (Hok1 _ eq_refl) as [Hs1 Hh1].
  destruct (total =? 0).
  - destruct (next_in BITRATES bitrate) as [lower |] eqn:Hnext.
    + apply next_in_steps_left in Hnext.
      destruct (IH lower s1) as (d2 & Hd2 & Halt2 & Hle2 & Hok2).
      exists (d1 ++ d2). rewrite Hd2, Hd1, <- app_assoc.
      split; [reflexivity |].
      split; [apply alternating_app; [assumption | lia | assumption] |].
      rewrite !count_app. split; [lia |].
      intros buffer Hbuf. specialize (Hok2 buffer Hbuf). lia.
    + exists d1. destruct (attr_of s1 track "id"); cbn [fst snd];
        (split; [assumption |]; split; [assumption |];
         split; [lia |]; intros ? ?; discriminate).
  - rewrite read_chunks_run.
    destruct (count_progress_events 0 total (chunks resp) cb) as [Hps Hph].
    exists (d1 ++ (if cb then progress_events 0 total (chunks resp) else [])).
    assert (Hhist :
      history (set_history (history s1
                 ++ (if cb then progress_events 0 total (chunks resp) else [])) s1)
      = history s ++ d1 ++ (if cb then progress_events 0 total (chunks resp) else [])).
    { cbn. now rewrite Hd1, <- app_assoc. }
    destruct (stream_error resp); cbn [fst snd];
      (split; [exact Hhist |];
       split; [apply alternating_app;
               [assumption | lia | apply alternating_of_counts; lia] |];
       rewrite !count_app; split; [lia |]; intros; lia).
Qed.
End DownloadTrackTrace.

Lemma download_track_fallback_witness :
  let s := resolved_state in
  let s1 := snd (open_stream (H := example_platform) O "FLAC" s) in
  open_stream (H := example_platform) O "FLAC" s = (Ok (empty_response, 0), s1)
  /\ exists track_id,
      attr_of s O "id" = Some track_id
      /\ download_track_fuel (H := example_platform) 4 O "FLAC" false s =
         match next_in BITRATES "FLAC" with
         | Some lower => download_track_fuel (H := example_platform) 3 O lower false s1
         | None => (Raise (DownloadError track_id), s1)
         end.
Proof.
  intros s s1.
  assert (Hopen : open_stream (H := example_platform) O "FLAC" s
                  = (Ok (empty_response, 0), s1)) by (vm_compute; reflexivity).
  split; [exact Hopen |].
  exact (download_track_fallback (H := example_platform) 3 O "FLAC" false s s1
           empty_response Hopen).
Defined.

Section DownloadTrackBody.
Context `{Platform}.

(** X8.  When the stream opened declares a non-zero length,
    [download_track] returns the chunks concatenated in the order
    received; with a callback the history gains one notification per
    chunk, carrying the running byte count, and without one it gains
    nothing; an error that ends the stream is raised after the chunks
    delivered so far were consumed. *)
Theorem download_track_body (fuel : nat) (track : loc) (bitrate : string)
    (cb : bool) (s s1 : state) (resp : response) (total : Z) :
  open_stream track bitrate s = (Ok (resp, total), s1) ->
  total <> 0 ->
  download_track_fuel (S fuel) track bitrate cb s =
  (match stream_error resp with
   | Some e => Raise e
   | None => Ok (concat (chunks resp))
   end,
   set_history (history s1
                ++ (if cb then progress_events 0 total (chunks resp) else [])) s1).
Proof.
  intros Hopen Hnz. rewrite download_track_fuel_S, Hopen.
  destruct (Z.eqb_spec total 0) as [-> | _]; [contradiction |].
  rewrite read_chunks_run. cbn [app].
  destruct (stream_error resp); reflexivity.
Qed.
End DownloadTrackBody.

Lemma download_track_body_witness :
  let P := sample_platform (scripted 100 [3]) in
  let s := resolved_state in
  let s1 := snd (open_stream (H := P) O "FLAC" s) in
  let resp := {| content_length := Ok 3; chunks := [repeat "a"%byte 3];
                 stream_error := None |} in
  open_stream (H := P) O "FLAC" s = (Ok (resp, 3), s1)
  /\ 3 <> 0
  /\ download_track_fuel (H := P) 4 O "FLAC" true s =
     (Ok (repeat "a"%byte 3),
      set_history (history s1 ++ [EvProgress 3 3]) s1).
Proof.
  intros P s s1 resp.
  assert (Hopen : open_stream (H := P) O "FLAC" s = (Ok (resp, 3), s1))
    by (vm_compute; reflexivity).
  split; [exact Hopen |]. split; [discriminate |].
  exact (download_track_body (H := P) 3 O "FLAC" true s s1 resp 3 Hopen
           ltac:(discriminate)).
Defined.

(** ** Text and its characters *)

Lemma append_nil_l (b : string) : "" +:+ b = b.
Proof. reflexivity. Qed.

Lemma append_cons (c : ascii) (a b : string) : String c a +:+ b = String c (a +:+ b).
Proof. reflexivity. Qed.

Lemma append_assoc (a b c : string) : (a +:+ b) +:+ c = a +:+ (b +:+ c).
Proof.
  induction a as [| x a IH]; [reflexivity |]. rewrite !append_cons. now f_equal.
Qed.

Lemma append_nil_r (a : string) : a +:+ "" = a.
Proof.
  induction a as [| x a IH]; [reflexivity |]. rewrite append_cons. now f_equal.
Qed.

Lemma chars_cons (c : ascii) (s : string) :
  chars (String c s) =
  match chars s with
  | ch :: rest => if continues ch then String c ch :: rest
                  else String c "" :: ch :: rest
  | [] => [String c ""]
  end.
Proof. reflexivity. Qed.

Lemma chars_nil (s : string) : chars s = [] -> s = "".
Proof.
  destruct s as [| c s]; [reflexivity |]. rewrite chars_cons.
  destruct (chars s) as [| ch rest]; [discriminate |].
  destruct (continues ch); discriminate.
Qed.

(** The first character starts with the first byte. *)
Lemma chars_head (s : string) (ch : string) (rest : list string) :
  chars s = ch :: rest -> continues ch = continues s.
Proof.
  destruct s as [| c s]; [discriminate |]. rewrite chars_cons.
  destruct (chars s) as [| ch' rest']; [now intros [= <- <-] |].
  destruct (continues ch'); now intros [= <- <-].
Qed.

Lemma continues_append (a b : string) :
  a <> "" -> continues (a +:+ b) = continues a.
Proof. destruct a; [contradiction | reflexivity]. Qed.

(** Text is split where a character starts. *)
Lemma chars_app (a b : string) :
  continues b = false -> chars (a +:+ b) = chars a ++ chars b.
Proof.
  intros Hb. induction a as [| c a IH]; [reflexivity |].
  rewrite append_cons, !chars_cons, IH.
  destruct (chars a) as [| ch rest]; cbn [app].
  - destruct (chars b) as [| chb restb] eqn:Eb; [reflexivity |].
    now rewrite (chars_head _ _ _ Eb), Hb.
  - destruct (continues ch); reflexivity.
Qed.

Lemma join_chars_cons (ch : string) (l : list string) :
  join_chars (ch :: l) = ch +:+ join_chars l.
Proof.
  unfold join_chars. destruct l as [| x l]; cbn [String.concat].
  - now rewrite append_nil_r.
  - reflexivity.
Qed.

Lemma join_chars_app (l1 l2 : list string) :
  join_chars (l1 ++ l2) = join_chars l1 +:+ join_chars l2.
Proof.
  induction l1 as [| ch l1 IH]; [reflexivity |].
  cbn [app]. rewrite !join_chars_cons, IH. now rewrite append_assoc.
Qed.

(** The characters of a text, put together, are the text. *)
Lemma join_chars_chars (s : string) : join_chars (chars s) = s.
Proof.
  induction s as [| c s IH]; [reflexivity |]. rewrite chars_cons.
  destruct (chars s) as [| ch rest].
  - unfold join_chars in IH. cbn in IH. subst s. reflexivity.
  - rewrite join_chars_cons in IH.
    destruct (continues ch); rewrite !join_chars_cons.
    + rewrite append_cons. now f_equal.
    + rewrite append_cons, append_nil_l. now f_equal.
Qed.

(** Every element of [chars s] is one character, and all but the first
    start where a character starts. *)
Lemma chars_single (s : string) : Forall (fun ch => chars ch = [ch]) (chars s).
Proof.
  induction s as [| c s IH]; [constructor |]. rewrite chars_cons.
  destruct (chars s) as [| ch rest]; [repeat constructor |].
  apply Forall_cons in IH as [Hch Hrest].
  destruct (continues ch) eqn:Hc.
  - constructor; [| exact Hrest]. rewrite chars_cons, Hch. now rewrite Hc.
  - constructor; [reflexivity |]. now constructor.
Qed.

Lemma chars_tail (s : string) (ch : string) (rest : list string) :
  chars s = ch :: rest -> Forall (fun x => continues x = false) rest.
Proof.
  revert ch rest. induction s as [| c s IH]; intros ch rest; [discriminate |].
  rewrite chars_cons.
  destruct (chars s) as [| ch' rest'] eqn:Es; [intros [= <- <-]; constructor |].
  destruct (continues ch') eqn:Hc; intros [= <- <-].
  - now apply (IH ch').
  - constructor; [exact Hc | now apply (IH ch')].
Qed.

Lemma single_nonempty (ch : string) : chars ch = [ch] -> ch <> "".
Proof. intros Hch ->. discriminate. Qed.

(** Putting whole characters together and splitting again gives them
    back. *)
Lemma chars_join_chars (w : list string) :
  Forall (fun ch => chars ch = [ch]) w ->
  Forall (fun ch => continues ch = false) (tail w) ->
  chars (join_chars w) = w.
Proof.
  induction w as [| ch w IH]; [reflexivity |].
  intros [Hch Hw]%Forall_cons Htail. cbn [tail] in Htail.
  rewrite join_chars_cons, chars_app.
  - rewrite Hch, IH; [reflexivity | exact Hw |].
    destruct w; [constructor | now apply Forall_cons in Htail as [_ ?]].
  - destruct w as [| ch' w]; [reflexivity |].
    apply Forall_cons in Htail as [Hc' _]. apply Forall_cons in Hw as [Hs' _].
    rewrite join_chars_cons, continues_append; [exact Hc' |].
    now apply single_nonempty.
Qed.

Lemma ascii_not_continuation (c : ascii) :
  is_ascii c = true -> is_continuation c = false.
Proof.
  unfold is_ascii, is_continuation. intros Hc%Nat.ltb_lt.
  apply andb_false_iff. left. apply Nat.leb_gt. exact Hc.
Qed.

(** ** Regular expressions *)

Section ClassFacts.
Context `{Platform}.

Lemma is_word_start (ch : string) : is_word ch = true -> continues ch = false.
Proof.
  destruct ch as [| c tl]; [discriminate |]. cbn [is_word continues].
  destruct (is_ascii c) eqn:Ha; [intros _; now apply ascii_not_continuation |].
  destruct (is_continuation c); [discriminate | reflexivity].
Qed.

Lemma is_digit_is_word (ch : string) : is_digit ch = true -> is_word ch = true.
Proof.
  destruct ch as [| c tl]; [discriminate |]. cbn [is_digit is_word].
  destruct (is_ascii c).
  - intros [Hd Ht]%andb_true_iff. rewrite Ht, andb_true_r.
    unfold ascii_digit in Hd. unfold ascii_word. now rewrite Hd.
  - destruct (is_continuation c); [discriminate |].
    intros ->. apply orb_true_r.
Qed.

Lemma is_digit_start (ch : string) : is_digit ch = true -> continues ch = false.
Proof. intros Hd. now apply is_word_start, is_digit_is_word. Qed.

(** A run of word characters starts where a character starts. *)
Lemma all_in_start (cls : string -> bool) (s : string) :
  (forall ch, cls ch = true -> continues ch = false) ->
  all_in cls s -> continues s = false.
Proof.
  intros Hcls Hs. unfold all_in in Hs.
  destruct (chars s) as [| ch rest] eqn:Es.
  - now rewrite (chars_nil _ Es).
  - apply Forall_cons in Hs as [Hch _].
    rewrite <- (chars_head _ _ _ Es). now apply Hcls.
Qed.

Lemma all_digits_words (s : string) : all_in is_digit s -> all_in is_word s.
Proof.
  unfold all_in. intros Hs. eapply Forall_impl; [exact Hs |].
  intros ch. apply is_digit_is_word.
Qed.
End ClassFacts.

Lemma strip_chars_app (lit rest : list string) :
  strip_chars lit (lit ++ rest) = Some rest.
Proof.
  induction lit as [| ch lit IH]; [reflexivity |].
  cbn. now rewrite String.eqb_refl.
Qed.

Lemma strip_chars_Some (lit s rest : list string) :
  strip_chars lit s = Some rest -> s = lit ++ rest.
Proof.
  revert s. induction lit as [| ch lit IH]; intros s; cbn.
  - now intros [= ->].
  - destruct s as [| ch' s]; [discriminate |].
    destruct (String.eqb_spec ch ch') as [-> | _]; [| discriminate].
    intros Hs. cbn. now rewrite (IH _ Hs).
Qed.

Lemma consumed_app (w rest : list string) : consumed (w ++ rest) rest = join_chars w.
Proof.
  unfold consumed. rewrite length_app.
  replace (length w + length rest - length rest)%nat with (length w) by lia.
  now rewrite take_app_length.
Qed.

(** On a run of the class followed by something outside it, [c+] tries
    exactly the remainders listed by [scan]. *)
Lemma match_plus_scan {R} (cls : string -> bool) (w rest : list string)
    (k : list string -> option R) :
  Forall (fun ch => cls ch = true) w -> no_head cls rest ->
  match_plus cls (w ++ rest) k = scan k w rest.
Proof.
  intros Hw Hrest. induction w as [| ch w IH].
  - cbn [app]. destruct rest as [| ch rest]; [reflexivity |].
    cbn in *. now rewrite Hrest.
  - apply Forall_cons in Hw as [Hc Hw]. cbn.
    rewrite Hc, (IH Hw). reflexivity.
Qed.

(** The longest run wins when the continuation accepts what follows it. *)
Lemma scan_greedy {R} (k : list string -> option R) (w rest : list string) (x : R) :
  w <> [] -> k rest = Some x -> scan k w rest = Some x.
Proof.
  intros Hw Hk. induction w as [| ch w IH]; [contradiction |]. cbn.
  destruct w as [| ch' w].
  - cbn. exact Hk.
  - rewrite IH by discriminate. reflexivity.
Qed.

(** No candidate is accepted: the repetition fails. *)
Lemma scan_none {R} (k : list string -> option R) (w rest : list string) :
  (forall w1 w2, w = w1 ++ w2 -> w1 <> [] -> k (w2 ++ rest) = None) ->
  scan k w rest = None.
Proof.
  induction w as [| ch w IH]; intros Hk; [reflexivity |]. cbn.
  rewrite IH.
  - apply (Hk [ch] w); [reflexivity | discriminate].
  - intros w1 w2 -> Hw1. apply (Hk (ch :: w1) w2); [reflexivity | discriminate].
Qed.

Lemma match_plus_greedy {R} (cls : string -> bool) (w rest : list string)
    (k : list string -> option R) (x : R) :
  Forall (fun ch => cls ch = true) w -> w <> [] -> no_head cls rest ->
  k rest = Some x ->
  match_plus cls (w ++ rest) k = Some x.
Proof.
  intros Hw Hne Hrest Hk. rewrite match_plus_scan by assumption.
  now apply scan_greedy.
Qed.

Lemma match_plus_no_head {R} (cls : string -> bool) (s : list string)
    (k : list string -> option R) :
  no_head cls s -> match_plus cls s k = None.
Proof. destruct s as [| ch s]; cbn; [reflexivity | now intros ->]. Qed.

Lemma match_plus_Some {R} (cls : string -> bool) (s : list string)
    (k : list string -> option R) (x : R) :
  match_plus cls s k = Some x ->
  exists w rest, s = w ++ rest /\ w <> []
                 /\ Forall (fun ch => cls ch = true) w /\ k rest = Some x.
Proof.
  induction s as [| ch s IH]; cbn; [discriminate |].
  destruct (cls ch) eqn:Hc; [| discriminate].
  destruct (match_plus cls s k) as [y |] eqn:Hm.
  - intros [= ->]. destruct (IH eq_refl) as (w & rest & -> & Hw & Hall & Hk).
    exists (ch :: w), rest.
    split; [reflexivity |]. split; [discriminate |]. split; [now constructor | exact Hk].
  - intros Hk. exists [ch], s.
    split; [reflexivity |]. split; [discriminate |].
    split; [now repeat constructor | exact Hk].
Qed.

Lemma match_lit_Some {R} (lit : string) (s : list string) (caps : captures)
    (k : list string -> captures -> option R) (x : R) :
  match_re (Lit lit) s caps k = Some x ->
  exists rest, s = chars lit ++ rest /\ k rest caps = Some x.
Proof.
  cbn [match_re]. destruct (strip_chars (chars lit) s) as [rest |] eqn:Hs; [| discriminate].
  apply strip_chars_Some in Hs. eauto.
Qed.

Lemma match_opt_Some {R} (r : regex) (s : list string) (caps : captures)
    (k : list string -> captures -> option R) (x : R) :
  match_re (Opt r) s caps k = Some x ->
  match_re r s caps k = Some x \/ k s caps = Some x.
Proof.
  cbn [match_re]. destruct (match_re r s caps k); [intros [= ->]; now left | now right].
Qed.

Lemma match_seq {R} (r1 r2 : regex) (s : list string) (caps : captures)
    (k : list string -> captures -> option R) :
  match_re (Seq r1 r2) s caps k =
  match_re r1 s caps (fun rest caps' => match_re r2 rest caps' k).
Proof. reflexivity. Qed.

(** An optional literal in front of [r]. *)
Lemma match_opt_lit_Some {R} (lit : string) (r : regex) (s : list string)
    (caps : captures) (k : list string -> captures -> option R) (x : R) :
  match_re (Seq (Opt (Lit lit)) r) s caps k = Some x ->
  exists (present : bool) (rest : list string),
    s = (if present then chars lit else []) ++ rest
    /\ match_re r rest caps k = Some x.
Proof.
  rewrite match_seq. intros [Hm | Hm]%match_opt_Some.
  - apply match_lit_Some in Hm as (rest & -> & Hm). now exists true, rest.
  - now exists false, s.
Qed.

Section PatternFacts.
Context `{Platform}.

Lemma slash_not_word : is_word "/" = false.
Proof. reflexivity. Qed.

Lemma slash_not_digit : is_digit "/" = false.
Proof. reflexivity. Qed.

Lemma word_not_slash (ch : string) : is_word ch = true -> ch <> "/".
Proof. intros Hc ->. now rewrite slash_not_word in Hc. Qed.

Lemma no_word_no_digit (rest : list string) :
  no_head is_word rest -> no_head is_digit rest.
Proof.
  destruct rest as [| ch rest]; cbn; [auto |]. intros Hw.
  destruct (is_digit ch) eqn:Hd; [| reflexivity].
  apply is_digit_is_word in Hd. congruence.
Qed.

(** A literal in front of [r]. *)
Lemma match_lit_app {R} (lit : string) (r : regex) (s : list string) (caps : captures)
    (k : list string -> captures -> option R) :
  match_re (Seq (Lit lit) r) (chars lit ++ s) caps k = match_re r s caps k.
Proof. cbn [match_re]. now rewrite strip_chars_app. Qed.

(** An optional literal that is there, in front of an [r] that matches. *)
Lemma match_opt_present {R} (lit : string) (r : regex) (s : list string)
    (caps : captures) (k : list string -> captures -> option R) (x : R) :
  match_re r s caps k = Some x ->
  match_re (Seq (Opt (Lit lit)) r) (chars lit ++ s) caps k = Some x.
Proof. intros Hr. cbn [match_re]. now rewrite strip_chars_app, Hr. Qed.

(** An optional literal that is not there. *)
Lemma match_opt_absent {R} (lit : string) (r : regex) (s : list string)
    (caps : captures) (k : list string -> captures -> option R) :
  strip_chars (chars lit) s = None ->
  match_re (Seq (Opt (Lit lit)) r) s caps k = match_re r s caps k.
Proof. intros Hs. cbn [match_re]. now rewrite Hs. Qed.

(** The kind and the ID, as [(\w+)/(\d+)] reads them. *)
Lemma kind_id_match {R} (kind digits rest : list string) (caps : captures)
    (k : list string -> captures -> option R) (x : R) :
  Forall (fun ch => is_word ch = true) kind -> kind <> [] ->
  Forall (fun ch => is_digit ch = true) digits -> digits <> [] ->
  no_head is_digit rest ->
  k rest ((2%nat, join_chars digits) :: (1%nat, join_chars kind) :: caps) = Some x ->
  match_re (Seq (Group 1 (Plus is_word)) (Seq (Lit "/") (Group 2 (Plus is_digit))))
           (kind ++ "/" :: digits ++ rest) caps k = Some x.
Proof.
  intros Hk Hkne Hd Hdne Hrest Hx. cbn [match_re].
  apply match_plus_greedy; [assumption | assumption | exact slash_not_word |].
  change (chars "/") with ["/"]. cbn [strip_chars]. rewrite String.eqb_refl.
  apply match_plus_greedy; [assumption | assumption | assumption |].
  rewrite consumed_app.
  change ("/" :: digits ++ rest) with (["/"] ++ digits ++ rest) at 1.
  now rewrite consumed_app.
Qed.

(** With a locale in front, the optional group takes it. *)
Lemma path_match_locale {R} (locale kind digits rest : list string) (caps : captures)
    (k : list string -> captures -> option R) (x : R) :
  Forall (fun ch => is_word ch = true) locale -> locale <> [] ->
  Forall (fun ch => is_word ch = true) kind -> kind <> [] ->
  Forall (fun ch => is_digit ch = true) digits -> digits <> [] ->
  no_head is_digit rest ->
  k rest ((2%nat, join_chars digits) :: (1%nat, join_chars kind) :: caps) = Some x ->
  match_re PATH_PATTERN (locale ++ "/" :: kind ++ "/" :: digits ++ rest) caps k
  = Some x.
Proof.
  intros Hl Hlne Hk Hkne Hd Hdne Hrest Hx.
  unfold PATH_PATTERN. cbn [match_re].
  rewrite (match_plus_greedy is_word locale _ _ x); try assumption;
    [reflexivity | exact slash_not_word |].
  change (chars "/") with ["/"]. cbn [strip_chars]. rewrite String.eqb_refl.
  now apply kind_id_match.
Qed.

Lemma clean_no_word (rest : list string) : clean rest -> no_head is_word rest.
Proof. destruct rest as [| ch rest]; cbn; [auto | tauto]. Qed.

(** Without a locale, the optional group first takes the kind, finds no
    second path segment, and gives it back. *)
Lemma path_match_plain {R} (kind digits rest : list string) (caps : captures)
    (k : list string -> captures -> option R) (x : R) :
  Forall (fun ch => is_word ch = true) kind -> kind <> [] ->
  Forall (fun ch => is_digit ch = true) digits -> digits <> [] ->
  clean rest ->
  k rest ((2%nat, join_chars digits) :: (1%nat, join_chars kind) :: caps) = Some x ->
  match_re PATH_PATTERN (kind ++ "/" :: digits ++ rest) caps k = Some x.
Proof.
  intros Hk Hkne Hd Hdne Hrest Hx.
  pose proof (clean_no_word _ Hrest) as Hnw.
  pose proof (no_word_no_digit _ Hnw) as Hnd.
  assert (Hdw : Forall (fun ch => is_word ch = true) digits).
  { eapply Forall_impl; [exact Hd |]. intros ch. apply is_digit_is_word. }
  unfold PATH_PATTERN. cbn [match_re].
  rewrite match_plus_scan by (assumption || exact slash_not_word).
  rewrite scan_none.
  { now apply kind_id_match. }
  intros w1 w2 -> Hw1.
  apply Forall_app in Hk as [_ Hw2].
  change (chars "/") with ["/"].
  destruct w2 as [| ch w2].
  - cbn [app strip_chars]. rewrite String.eqb_refl.
    cbn [match_re].
    rewrite match_plus_scan by assumption.
    apply scan_none. intros d1 d2 -> Hd1.
    apply Forall_app in Hd as [_ Hd2].
    destruct d2 as [| ch d2].
    + cbn [app].
      destruct rest as [| ch rest]; [reflexivity |]. cbn [strip_chars].
      destruct (String.eqb_spec "/" ch) as [<- | _]; [| reflexivity].
      apply match_plus_no_head. now apply Hrest.
    + apply Forall_cons in Hd2 as [Hc _]. cbn [app strip_chars].
      destruct (String.eqb_spec "/" ch) as [<- | _]; [| reflexivity].
      now rewrite slash_not_digit in Hc.
  - apply Forall_cons in Hw2 as [Hc _]. cbn [app strip_chars].
    destruct (String.eqb_spec "/" ch) as [<- | _]; [| reflexivity].
    now rewrite slash_not_word in Hc.
Qed.

(** The scheme and the host, in front of a path that matches. *)
Lemma host_match {R} (secure www : bool) (r : regex) (path : string)
    (caps : captures) (k : list string -> captures -> option R) (x : R) :
  continues path = false ->
  match_re r (chars path) caps k = Some x ->
  match_re
    (Seq (Lit "http") (Seq (Opt (Lit "s")) (Seq (Lit "://")
      (Seq (Opt (Lit "www.")) (Seq (Lit "deezer.com/") r)))))
    (chars ("http" +:+ (if secure then "s" else "") +:+ "://"
            +:+ (if www then "www." else "") +:+ "deezer.com/" +:+ path))
    caps k = Some x.
Proof.
  intros Hpath Hr.
  assert (H1 : match_re (Seq (Lit "deezer.com/") r) (chars ("deezer.com/" +:+ path))
                 caps k = Some x).
  { rewrite chars_app by exact Hpath. now rewrite match_lit_app. }
  assert (H2 : match_re (Seq (Opt (Lit "www.")) (Seq (Lit "deezer.com/") r))
                 (chars ((if www then "www." else "") +:+ "deezer.com/" +:+ path))
                 caps k = Some x).
  { destruct www.
    - rewrite chars_app by reflexivity. now apply match_opt_present.
    - rewrite append_nil_l, match_opt_absent; [exact H1 |].
      rewrite chars_app by exact Hpath. reflexivity. }
  assert (H3 : match_re (Seq (Lit "://") (Seq (Opt (Lit "www."))
                                                (Seq (Lit "deezer.com/") r)))
                 (chars ("://" +:+ (if www then "www." else "") +:+ "deezer.com/"
                         +:+ path)) caps k = Some x).
  { rewrite chars_app by (destruct www; reflexivity). now rewrite match_lit_app. }
  assert (H4 : match_re (Seq (Opt (Lit "s")) (Seq (Lit "://") (Seq (Opt (Lit "www."))
                                                (Seq (Lit "deezer.com/") r))))
                 (chars ((if secure then "s" else "") +:+ "://"
                         +:+ (if www then "www." else "") +:+ "deezer.com/" +:+ path))
                 caps k = Some x).
  { destruct secure.
    - rewrite chars_app by reflexivity. now apply match_opt_present.
    - rewrite append_nil_l, match_opt_absent; [exact H3 |].
      rewrite chars_app by (destruct www; reflexivity). reflexivity. }
  rewrite chars_app by (destruct secure; reflexivity). now rewrite match_lit_app.
Qed.

Lemma clean_tail_clean (rest : string) : clean_tail rest -> clean (chars rest).
Proof. intros [_ Hrest]. exact Hrest. Qed.

(** How [URL_PATTERN] reads a provider URL. *)
Lemma re_match_provider_url (secure www : bool) (locale : option string)
    (kind digits rest : string) :
  (forall l, locale = Some l -> all_in is_word l /\ l <> "") ->
  all_in is_word kind -> kind <> "" ->
  all_in is_digit digits -> digits <> "" ->
  clean_tail rest ->
  re_match URL_PATTERN (provider_url secure www locale kind digits +:+ rest)
  = Some [(2%nat, digits); (1%nat, kind)].
Proof.
  intros Hl Hk Hkne Hd Hdne Hrest.
  pose proof (all_in_start _ _ is_word_start Hk) as Hks.
  pose proof (all_in_start _ _ is_digit_start Hd) as Hds.
  destruct Hrest as [Hrs Hclean].
  assert (Hne : forall s, s <> "" -> chars s <> []).
  { intros s Hs Hc. now apply chars_nil in Hc. }
  assert (Htail : chars (kind +:+ "/" +:+ digits +:+ rest)
                  = chars kind ++ "/" :: chars digits ++ chars rest).
  { rewrite chars_app by reflexivity.
    change ("/" +:+ digits +:+ rest) with ("/" +:+ (digits +:+ rest)).
    rewrite chars_app by (rewrite continues_append; assumption).
    rewrite chars_app by exact Hrs. reflexivity. }
  assert (Hpath : forall caps,
    match_re PATH_PATTERN
      (chars (match locale with Some l => l +:+ "/" | None => "" end
              +:+ kind +:+ "/" +:+ digits +:+ rest)) caps (fun _ c => Some c)
    = Some ((2%nat, digits) :: (1%nat, kind) :: caps)).
  { intros caps. destruct locale as [l |].
    - destruct (Hl l eq_refl) as [Hlw Hlne].
      rewrite append_assoc.
      rewrite chars_app by reflexivity.
      change ("/" +:+ kind +:+ "/" +:+ digits +:+ rest)
        with ("/" +:+ (kind +:+ "/" +:+ digits +:+ rest)).
      rewrite chars_app by (rewrite continues_append; assumption).
      rewrite Htail. change (chars "/") with ["/"]. cbn [app].
      apply path_match_locale; auto.
      + now apply no_word_no_digit, clean_no_word.
      + now rewrite !join_chars_chars.
    - rewrite append_nil_l, Htail.
      apply path_match_plain; auto.
      now rewrite !join_chars_chars. }
  unfold re_match, provider_url.
  rewrite !append_assoc.
  change URL_PATTERN with
    (Seq (Lit "http") (Seq (Opt (Lit "s")) (Seq (Lit "://")
      (Seq (Opt (Lit "www.")) (Seq (Lit "deezer.com/") PATH_PATTERN))))).
  apply host_match; [| apply Hpath].
  destruct locale as [l |].
  - destruct (Hl l eq_refl) as [Hlw Hlne].
    rewrite append_assoc, continues_append by assumption.
    exact (all_in_start _ _ is_word_start Hlw).
  - rewrite append_nil_l, continues_append by assumption. exact Hks.
Qed.
End PatternFacts.

Section PatternSound.
Context `{Platform}.

(** Whatever [(\w+)/(\d+)] accepts is a kind, a slash and an ID. *)
Lemma kind_id_Some (s : list string) (caps result : captures) :
  match_re (Seq (Group 1 (Plus is_word)) (Seq (Lit "/") (Group 2 (Plus is_digit))))
           s caps (fun _ c => Some c) = Some result ->
  exists kind digits rest,
    s = kind ++ "/" :: digits ++ rest
    /\ Forall (fun ch => is_word ch = true) kind /\ kind <> []
    /\ Forall (fun ch => is_digit ch = true) digits /\ digits <> []
    /\ result = (2%nat, join_chars digits) :: (1%nat, join_chars kind) :: caps.
Proof.
  cbn [match_re]. intros Hm.
  apply match_plus_Some in Hm as (kind & r1 & -> & Hkne & Hk & Hm).
  destruct (strip_chars (chars "/") r1) as [r2 |] eqn:Hs; [| discriminate].
  apply strip_chars_Some in Hs as ->. change (chars "/") with ["/"] in Hm.
  apply match_plus_Some in Hm as (digits & rest & -> & Hdne & Hd & Hm).
  rewrite consumed_app in Hm.
  change (["/"] ++ digits ++ rest) with ("/" :: digits ++ rest) in Hm.
  change ("/" :: digits ++ rest) with (["/"] ++ digits ++ rest) in Hm at 1.
  rewrite consumed_app in Hm. injection Hm as <-.
  exists kind, digits, rest. repeat split; assumption.
Qed.

(** A run of characters of a class, put together, is a text all of whose
    characters are in the class. *)
Lemma all_in_join (cls : string -> bool) (w : list string) :
  (forall ch, cls ch = true -> continues ch = false) ->
  Forall (fun ch => chars ch = [ch]) w ->
  Forall (fun ch => cls ch = true) w ->
  all_in cls (join_chars w).
Proof.
  intros Hcls Hsingle Hw. unfold all_in. rewrite chars_join_chars; [exact Hw | exact Hsingle |].
  destruct w as [| ch w]; [constructor |]. cbn [tail].
  apply Forall_cons in Hw as [_ Hw].
  eapply Forall_impl; [exact Hw |]. exact Hcls.
Qed.

Lemma join_nonempty (w : list string) :
  Forall (fun ch => chars ch = [ch]) w -> w <> [] -> join_chars w <> "".
Proof.
  destruct w as [| ch w]; [contradiction |].
  intros [Hch _]%Forall_cons _. rewrite join_chars_cons.
  apply single_nonempty in Hch. destruct ch; [contradiction | discriminate].
Qed.

(** Whatever [URL_PATTERN] accepts starts with a provider URL, and the
    groups are its kind and its ID. *)
Lemma re_match_sound (url : string) (result : captures) :
  re_match URL_PATTERN url = Some result ->
  exists secure www locale kind digits rest,
    url = provider_url secure www locale kind digits +:+ rest
    /\ (forall l, locale = Some l -> all_in is_word l /\ l <> "")
    /\ all_in is_word kind /\ kind <> ""
    /\ all_in is_digit digits /\ digits <> ""
    /\ result = [(2%nat, digits); (1%nat, kind)].
Proof.
  unfold re_match.
  change URL_PATTERN with
    (Seq (Lit "http") (Seq (Opt (Lit "s")) (Seq (Lit "://")
      (Seq (Opt (Lit "www.")) (Seq (Lit "deezer.com/") PATH_PATTERN))))).
  pose proof (chars_single url) as Hsingle.
  rewrite match_seq. intros Hm.
  apply match_lit_Some in Hm as (r1 & Hurl & Hm).
  apply match_opt_lit_Some in Hm as (secure & r2 & -> & Hm).
  rewrite match_seq in Hm. apply match_lit_Some in Hm as (r3 & -> & Hm).
  apply match_opt_lit_Some in Hm as (www & r4 & -> & Hm).
  rewrite match_seq in Hm. apply match_lit_Some in Hm as (r5 & -> & Hm).
  unfold PATH_PATTERN in Hm. rewrite match_seq in Hm.
  rewrite Hurl in Hsingle.
  do 5 apply Forall_app in Hsingle as [_ Hsingle].
  assert (Hpath : exists locale kind digits rest,
            join_chars r5 = match locale with Some l => l +:+ "/" | None => "" end
                            +:+ kind +:+ "/" +:+ digits +:+ rest
            /\ (forall l, locale = Some l -> all_in is_word l /\ l <> "")
            /\ all_in is_word kind /\ kind <> ""
            /\ all_in is_digit digits /\ digits <> ""
            /\ result = [(2%nat, digits); (1%nat, kind)]).
  { apply match_opt_Some in Hm as [Hm | Hm].
    - rewrite match_seq in Hm. cbn [match_re] in Hm.
      apply match_plus_Some in Hm as (l & r6 & -> & Hlne & Hl & Hm).
      destruct (strip_chars (chars "/") r6) as [r7 |] eqn:Hs; [| discriminate].
      apply strip_chars_Some in Hs as ->. change (chars "/") with ["/"] in *.
      apply (kind_id_Some r7 [] result) in Hm
        as (kind & digits & rest & -> & Hk & Hkne & Hd & Hdne & ->).
      rewrite !Forall_app, !Forall_cons, !Forall_app in Hsingle.
      destruct Hsingle as (Hsl & _ & Hsk & _ & Hsd & _).
      exists (Some (join_chars l)), (join_chars kind), (join_chars digits),
             (join_chars rest).
      split.
      { repeat (rewrite join_chars_app || rewrite join_chars_cons).
        rewrite !append_assoc. reflexivity. }
      split.
      { intros ? [= <-]. split; [| now apply join_nonempty].
        apply all_in_join; [exact is_word_start | assumption ..]. }
      split; [apply all_in_join; [exact is_word_start | assumption ..] |].
      split; [now apply join_nonempty |].
      split; [apply all_in_join; [exact is_digit_start | assumption ..] |].
      split; [now apply join_nonempty | reflexivity].
    - apply (kind_id_Some r5 [] result) in Hm
        as (kind & digits & rest & -> & Hk & Hkne & Hd & Hdne & ->).
      rewrite !Forall_app, !Forall_cons, !Forall_app in Hsingle.
      destruct Hsingle as (Hsk & _ & Hsd & _).
      exists None, (join_chars kind), (join_chars digits), (join_chars rest).
      split.
      { repeat (rewrite join_chars_app || rewrite join_chars_cons).
        rewrite ?append_assoc. reflexivity. }
      split; [discriminate |].
      split; [apply all_in_join; [exact is_word_start | assumption ..] |].
      split; [now apply join_nonempty |].
      split; [apply all_in_join; [exact is_digit_start | assumption ..] |].
      split; [now apply join_nonempty | reflexivity]. }
  destruct Hpath as (locale & kind & digits & rest & Hr5 & Hl & Hk & Hkne & Hd & Hdne & ->).
  exists secure, www, locale, kind, digits, rest.
  split.
  { rewrite <- (join_chars_chars url), Hurl. rewrite !join_chars_app, Hr5.
    rewrite !join_chars_chars. unfold provider_url.
    destruct secure, www; rewrite ?join_chars_chars; rewrite !append_assoc; reflexivity. }
  split; [exact Hl |]. repeat split; assumption.
Qed.
End PatternSound.

(** ** session.py: [download] *)

Section DownloadFacts.
Context `{Platform}.

(** X9.  [download] reads a provider URL
    [http(s)://(www.)deezer.com/(<locale>/)<kind>/<digits>], followed by
    nothing or by text that starts with neither a word character nor a
    slash and a digit -- word characters and digits being those of every
    script: it converts the digits with [int], which may refuse them,
    and then kind "track" resolves the track with that ID and downloads
    it, kind "album" does the same for the album, and any other kind
    raises [ActionNotSupported] carrying the kind. *)
Theorem download_dispatch (secure www : bool) (locale : option string)
    (kind digits rest bitrate : string) (cb : bool) :
  (forall l, locale = Some l -> all_in is_word l /\ l <> "") ->
  all_in is_word kind -> kind <> "" ->
  all_in is_digit digits -> digits <> "" ->
  clean_tail rest ->
  download (provider_url secure www locale kind digits +:+ rest) bitrate cb =
  (content_id <- lift (py_int digits);;
   if String.eqb kind "track" then
     track <- Track_init_via_track_id content_id;;
     buffer <- download_track track bitrate cb;;
     ret (OneTrack buffer)
   else if String.eqb kind "album" then
     album <- Album_init_via_album_id content_id;;
     buffers <- download_album album bitrate;;
     ret (WholeAlbum buffers)
   else raise (ActionNotSupported kind)).
Proof.
  intros Hl Hk Hkne Hd Hdne Hrest. unfold download.
  rewrite re_match_provider_url by assumption. reflexivity.
Qed.

Lemma digits_not_kind (d : string) (c : ascii) (k' : string) :
  all_in is_digit d -> d <> "" -> is_ascii c = true -> ascii_digit c = false ->
  String.eqb d (String c k') = false.
Proof.
  intros Hd Hne Ha Hc. apply String.eqb_neq. intros ->.
  unfold all_in in Hd. rewrite chars_cons in Hd.
  assert (Hhead : forall tl, is_digit (String c tl) = false).
  { intros tl. cbn [is_digit]. now rewrite Ha, Hc. }
  destruct (chars k') as [| ch rest]; [| destruct (continues ch)];
    apply Forall_cons in Hd as [Hd _]; now rewrite Hhead in Hd.
Qed.

(** X10.  A track URL without locale that continues with a slash and
    digits is not read as that track: the optional locale group takes
    "track", the ID becomes the kind and the digits after it the ID.
    [download] raises [ValueError] when these digits are more than [int]
    accepts, and otherwise [ActionNotSupported] carrying the ID of the
    track; it makes no request. *)
Theorem download_trailing_segment (secure www : bool) (id more bitrate : string)
    (cb : bool) (s : state) :
  all_in is_digit id -> id <> "" ->
  all_in is_digit more -> more <> "" ->
  download (provider_url secure www None "track" id +:+ "/" +:+ more) bitrate cb s =
  (if too_long more then Raise ValueError else Raise (ActionNotSupported id), s).
Proof.
  intros Hid Hne Hmore Hmne.
  replace (provider_url secure www None "track" id +:+ "/" +:+ more)
    with (provider_url secure www (Some "track") id more +:+ "").
  2: { unfold provider_url. rewrite !append_assoc, append_nil_r. reflexivity. }
  rewrite download_dispatch; try assumption.
  - unfold bind, lift, py_int. destruct (too_long more); [reflexivity |].
    rewrite (digits_not_kind id "t" "rack"); try easy.
    rewrite (digits_not_kind id "a" "lbum"); try easy.
  - intros l [= <-]. split; [| discriminate].
    unfold all_in. cbn. repeat constructor.
  - now apply all_digits_words.
  - split; [reflexivity | exact I].
Qed.

(** X11.  A string that does not start with a provider URL -- word
    characters and digits being those of every script -- makes
    [download] raise [InvalidUrlError] carrying the string, without any
    request and without touching the state. *)
Theorem download_invalid_url (url bitrate : string) (cb : bool) (s : state) :
  (forall secure www locale kind digits rest,
     (forall l, locale = Some l -> all_in is_word l /\ l <> "") ->
     all_in is_word kind -> kind <> "" ->
     all_in is_digit digits -> digits <> "" ->
     url <> provider_url secure www locale kind digits +:+ rest) ->
  download url bitrate cb s = (Raise (InvalidUrlError url), s).
Proof.
  intros Hshape. unfold download.
  destruct (re_match URL_PATTERN url) as [result |] eqn:Hm; [| reflexivity].
  apply re_match_sound in Hm
    as (secure & www & locale & kind & digits & rest & Hurl & Hl & Hk & Hkne
        & Hd & Hdne & _).
  now destruct (Hshape secure www locale kind digits rest).
Qed.
End DownloadFacts.

Lemma download_dispatch_witness :
  (forall l, Some "en" = Some l
             -> all_in (is_word (H := example_platform)) l /\ l <> "")
  /\ all_in (is_word (H := example_platform)) "track" /\ "track" <> ""
  /\ all_in (is_digit (H := example_platform)) "12345" /\ "12345" <> ""
  /\ clean_tail (H := example_platform) "?utm=1"
  /\ download (H := example_platform)
       (provider_url true true (Some "en") "track" "12345" +:+ "?utm=1") "FLAC" false
     = (track <- Track_init_via_track_id (H := example_platform) 12345;;
        buffer <- download_track (H := example_platform) track "FLAC" false;;
        ret (OneTrack buffer)).
Proof.
  assert (H1 : forall l, Some "en" = Some l
                         -> all_in (is_word (H := example_platform)) l /\ l <> "").
  { intros l [= <-]. split; [unfold all_in; cbn; repeat constructor | discriminate]. }
  assert (H2 : all_in (is_word (H := example_platform)) "track")
    by (unfold all_in; cbn; repeat constructor).
  assert (H3 : all_in (is_digit (H := example_platform)) "12345")
    by (unfold all_in; cbn; repeat constructor).
  assert (H4 : clean_tail (H := example_platform) "?utm=1")
    by (split; [reflexivity | cbn; split; [reflexivity | discriminate]]).
  split; [exact H1 |]. split; [exact H2 |]. split; [discriminate |].
  split; [exact H3 |]. split; [discriminate |]. split; [exact H4 |].
  exact (download_dispatch (H := example_platform) true true (Some "en") "track"
           "12345" "?utm=1" "FLAC" false H1 H2 ltac:(discriminate) H3
           ltac:(discriminate) H4).
Defined.

Lemma download_trailing_segment_witness :
  all_in (is_digit (H := example_platform)) "123" /\ "123" <> ""
  /\ all_in (is_digit (H := example_platform)) "456" /\ "456" <> ""
  /\ download (H := example_platform) "https://www.deezer.com/track/123/456"
       "FLAC" false (initial_state "arl")
     = (Raise (ActionNotSupported "123"), initial_state "arl").
Proof.
  assert (H1 : all_in (is_digit (H := example_platform)) "123")
    by (unfold all_in; cbn; repeat constructor).
  assert (H2 : all_in (is_digit (H := example_platform)) "456")
    by (unfold all_in; cbn; repeat constructor).
  split; [exact H1 |]. split; [discriminate |].
  split; [exact H2 |]. split; [discriminate |].
  exact (download_trailing_segment (H := example_platform) true true "123" "456"
           "FLAC" false (initial_state "arl") H1 ltac:(discriminate) H2
           ltac:(discriminate)).
Defined.

Lemma download_invalid_url_witness :
  download (H := example_platform) "https://open.spotify.com/track/1" "FLAC" false
    (initial_state "arl")
  = (Raise (InvalidUrlError "https://open.spotify.com/track/1"), initial_state "arl").
Proof.
  apply (download_invalid_url (H := example_platform)).
  intros secure www locale kind digits rest _ _ _ _ _.
  unfold provider_url. destruct secure, www; discriminate.
Defined.

(** ** types.py: the instance caches *)

Section CacheFacts.
Context `{Platform}.

(** [__new__] on a cached ID: the cached instance, and nothing changes. *)
Lemma Track_new_hit (info id : value) (key : pykey) (l : loc) (s : state) :
  subscript info "id" = Ok id -> hash_key id = Ok key ->
  Track_cache s !! key = Some l ->
  Track_new info s = (Ok l, s).
Proof.
  intros Hid Hkey Hhit. unfold Track_new.
  unfold bind, lift, get. rewrite Hid, Hkey.
  rewrite bool_decide_eq_true_2 by (rewrite Hhit; eauto).
  cbn. now rewrite Hhit.
Qed.

(** [__new__] on a new ID: a fresh instance without attributes, filed
    under the ID. *)
Lemma Track_new_miss (info id : value) (key : pykey) (s : state) :
  subscript info "id" = Ok id -> hash_key id = Ok key ->
  Track_cache s !! key = None ->
  Track_new info s =
  (Ok (next_loc s),
   set_Track_cache (<[key := next_loc s]> (Track_cache s))
     (set_next_loc (S (next_loc s))
        (set_heap (<[next_loc s := {| obj_class := ClsTrack; obj_attrs := ∅ |}]> (heap s))
                  s))).
Proof.
  intros Hid Hkey Hmiss. unfold Track_new.
  unfold bind, lift, get. rewrite Hid, Hkey.
  rewrite bool_decide_eq_false_2 by (rewrite Hmiss; intros [? ?]; discriminate).
  cbn. now rewrite lookup_insert_eq.
Qed.

Lemma Album_new_hit (info id : value) (key : pykey) (l : loc) (s : state) :
  subscript info "id" = Ok id -> hash_key id = Ok key ->
  Album_cache s !! key = Some l ->
  Album_new info s = (Ok l, s).
Proof.
  intros Hid Hkey Hhit. unfold Album_new.
  unfold bind, lift, get. rewrite Hid, Hkey.
  rewrite bool_decide_eq_true_2 by (rewrite Hhit; eauto).
  cbn. now rewrite Hhit.
Qed.

Lemma Album_new_miss (info id : value) (key : pykey) (s : state) :
  subscript info "id" = Ok id -> hash_key id = Ok key ->
  Album_cache s !! key = None ->
  Album_new info s =
  (Ok (next_loc s),
   set_Album_cache (<[key := next_loc s]> (Album_cache s))
     (set_next_loc (S (next_loc s))
        (set_heap (<[next_loc s := {| obj_class := ClsAlbum; obj_attrs := ∅ |}]> (heap s))
                  s))).
Proof.
  intros Hid Hkey Hmiss. unfold Album_new.
  unfold bind, lift, get. rewrite Hid, Hkey.
  rewrite bool_decide_eq_false_2 by (rewrite Hmiss; intros [? ?]; discriminate).
  cbn. now rewrite lookup_insert_eq.
Qed.

(** X12.  A document without an ["id"] member -- the error document of
    the public API is one -- makes both constructors raise [KeyError]
    for ["id"] in [__new__], before the [DeezerApiError] guard of
    [__init__] is reached; nothing is allocated or cached. *)
Theorem construct_without_id (d : list (string * value)) (s : state) :
  assoc "id" d = None ->
  Track_call (VDict d) s = (Raise (KeyError "id"), s)
  /\ Album_call (VDict d) s = (Raise (KeyError "id"), s).
Proof.
  intros Hid. unfold Track_call, Album_call, Track_new, Album_new.
  unfold bind, lift. cbn. rewrite Hid. split; reflexivity.
Qed.
End CacheFacts.

Lemma construct_without_id_witness :
  assoc "id" [("error", VDict [("type", VStr "DataException");
                               ("message", VStr "no data");
                               ("code", VInt 800)])] = None
  /\ Track_call (H := example_platform) sample_error_info (initial_state "arl")
     = (Raise (KeyError "id"), initial_state "arl")
  /\ Album_call (H := example_platform) sample_error_info (initial_state "arl")
     = (Raise (KeyError "id"), initial_state "arl").
Proof.
  split; [reflexivity |].
  apply (construct_without_id (H := example_platform)
           [("error", VDict [("type", VStr "DataException");
                             ("message", VStr "no data");
                             ("code", VInt 800)])]
           (initial_state "arl")).
  reflexivity.
Defined.

Section ErrorPayload.
Context `{Platform}.

Lemma raise_if_error_raises (d : list (string * value)) (err type message code : value)
    (s : state) :
  assoc "error" d = Some err ->
  subscript err "type" = Ok type ->
  subscript err "message" = Ok message ->
  subscript err "code" = Ok code ->
  raise_if_error (VDict d) s = (Raise (DeezerApiError type message code), s).
Proof.
  intros Herr Ht Hm Hc. unfold raise_if_error, bind, lift. cbn.
  rewrite Herr. rewrite bool_decide_eq_true_2 by eauto.
  now rewrite Ht, Hm, Hc.
Qed.

Lemma Track_init_error (self : loc) (d : list (string * value))
    (err type message code : value) (s : state) :
  assoc "error" d = Some err ->
  subscript err "type" = Ok type ->
  subscript err "message" = Ok message ->
  subscript err "code" = Ok code ->
  Track_init self (VDict d) s = (Raise (DeezerApiError type message code), s).
Proof.
  intros Herr Ht Hm Hc. unfold Track_init.
  now rewrite (bind_Raise _ _ _ _ _ (raise_if_error_raises _ _ _ _ _ _ Herr Ht Hm Hc)).
Qed.

Lemma Album_init_error (self : loc) (d : list (string * value))
    (err type message code : value) (s : state) :
  assoc "error" d = Some err ->
  subscript err "type" = Ok type ->
  subscript err "message" = Ok message ->
  subscript err "code" = Ok code ->
  Album_init self (VDict d) s = (Raise (DeezerApiError type message code), s).
Proof.
  intros Herr Ht Hm Hc. unfold Album_init.
  now rewrite (bind_Raise _ _ _ _ _ (raise_if_error_raises _ _ _ _ _ _ Herr Ht Hm Hc)).
Qed.

(** X13.  A document that carries both an ["id"] not yet cached and an
    ["error"] member makes the constructors raise [DeezerApiError] with
    the type, message and code of the error -- after [__new__] has
    already filed a new instance under that ID: the cache keeps an
    instance without any attribute. *)
Theorem construct_error_caches_blank (d : list (string * value))
    (id err type message code : value) (key : pykey) (s : state) :
  assoc "id" d = Some id -> hash_key id = Ok key ->
  assoc "error" d = Some err ->
  subscript err "type" = Ok type ->
  subscript err "message" = Ok message ->
  subscript err "code" = Ok code ->
  (Track_cache s !! key = None ->
   exists s',
     Track_call (VDict d) s = (Raise (DeezerApiError type message code), s')
     /\ Track_cache s' !! key = Some (next_loc s)
     /\ heap s' !! next_loc s = Some {| obj_class := ClsTrack; obj_attrs := ∅ |})
  /\ (Album_cache s !! key = None ->
      exists s',
        Album_call (VDict d) s = (Raise (DeezerApiError type message code), s')
        /\ Album_cache s' !! key = Some (next_loc s)
        /\ heap s' !! next_loc s = Some {| obj_class := ClsAlbum; obj_attrs := ∅ |}).
Proof.
  intros Hid Hkey Herr Ht Hm Hc.
  assert (Hsub : subscript (VDict d) "id" = Ok id) by (cbn; now rewrite Hid).
  split; intros Hmiss.
  - eexists. unfold Track_call.
    rewrite (bind_Ok _ _ _ _ _ (Track_new_miss _ _ _ _ Hsub Hkey Hmiss)).
    rewrite (bind_Raise _ _ _ _ _ (Track_init_error _ _ _ _ _ _ _ Herr Ht Hm Hc)).
    split; [reflexivity |]. cbn. now rewrite !lookup_insert_eq.
  - eexists. unfold Album_call.
    rewrite (bind_Ok _ _ _ _ _ (Album_new_miss _ _ _ _ Hsub Hkey Hmiss)).
    rewrite (bind_Raise _ _ _ _ _ (Album_init_error _ _ _ _ _ _ _ Herr Ht Hm Hc)).
    split; [reflexivity |]. cbn. now rewrite !lookup_insert_eq.
Qed.
End ErrorPayload.

Lemma construct_error_caches_blank_witness :
  let d := [("id", VInt 7);
            ("error", VDict [("type", VStr "DataException");
                             ("message", VStr "no data"); ("code", VInt 800)])] in
  let s := initial_state "arl" in
  exists s',
    Track_call (H := example_platform) (VDict d) s
    = (Raise (DeezerApiError (VStr "DataException") (VStr "no data") (VInt 800)), s')
    /\ Track_cache s' !! KInt 7 = Some (next_loc s)
    /\ heap s' !! next_loc s = Some {| obj_class := ClsTrack; obj_attrs := ∅ |}.
Proof.
  intros d s.
  apply (proj1 (construct_error_caches_blank (H := example_platform) d (VInt 7)
                  (VDict [("type", VStr "DataException");
                          ("message", VStr "no data"); ("code", VInt 800)])
                  (VStr "DataException") (VStr "no data") (VInt 800) (KInt 7) s
                  eq_refl eq_refl eq_refl eq_refl eq_refl eq_refl)).
  reflexivity.
Defined.

(** *** Every operation, given the two constructors *)

Section OperationSteps.
Context `{Platform}.
Context (R : state -> state -> Prop) `{!PreOrder R}.
Hypothesis R_emit : forall ev, steps R (emit ev).
Hypothesis R_sess : forall g : state -> session,
  steps R (modify (fun s => set_sess (g s) s)).
Hypothesis R_tag : forall self name v,
  In name EXTENDED_TAGS -> steps R (setattr self name v).
Hypothesis R_track : forall info, steps R (Track_call info).
Hypothesis R_album : forall info, steps R (Album_call info).

Lemma json_get_request_steps (url : string) : steps R (_json_get_request url).
Proof. unfold _json_get_request. steps_go. apply R_emit. Qed.

Lemma Track_init_via_track_id_steps (n : Z) : steps R (Track_init_via_track_id n).
Proof.
  unfold Track_init_via_track_id. steps_go;
    [apply json_get_request_steps | apply R_track].
Qed.

Lemma Album_init_via_album_id_steps (n : Z) : steps R (Album_init_via_album_id n).
Proof.
  unfold Album_init_via_album_id. steps_go;
    [apply json_get_request_steps | apply R_album].
Qed.

Lemma fetch_tracks_steps (album : loc) : steps R (fetch_tracks album).
Proof.
  unfold fetch_tracks. steps_go; [apply getattr_steps; side_class | apply R_track].
Qed.

Lemma fetch_album_steps (track : loc) : steps R (fetch_album track).
Proof.
  unfold fetch_album. steps_go;
    [apply getattr_steps; side_class | apply json_get_request_steps | apply R_album].
Qed.

Lemma download_track_steps (track : loc) (bitrate : string) (cb : bool) :
  steps R (download_track track bitrate cb).
Proof. apply download_track_fuel_steps; auto. Qed.

Lemma run_all_steps {A} (coros : list (M A)) (s : state) :
  (forall c, In c coros -> steps R c) -> R s (snd (run_all coros s)).
Proof.
  revert s. induction coros as [| c coros IH]; intros s Hc; cbn [run_all].
  - reflexivity.
  - pose proof (Hc c (or_introl eq_refl) s) as H1.
    destruct (c s) as [r s1].
    pose proof (IH s1 (fun c' Hin => Hc c' (or_intror Hin))) as H2.
    destruct (run_all coros s1) as [rs s2]. cbn [snd] in *.
    etransitivity; eassumption.
Qed.

Lemma gather_steps {A} (coros : list (M A)) :
  (forall c, In c coros -> steps R c) -> steps R (gather coros).
Proof.
  intros Hc s. unfold gather.
  pose proof (run_all_steps coros s Hc) as Hrun.
  destruct (run_all coros s) as [rs s']. exact Hrun.
Qed.

Lemma download_album_steps (album : loc) (bitrate : string) :
  steps R (download_album album bitrate).
Proof.
  unfold download_album. steps_go; [apply fetch_tracks_steps |].
  apply gather_steps. intros c [track [<- _]]%in_map_iff.
  apply download_track_steps.
Qed.

Lemma download_steps (url bitrate : string) (cb : bool) :
  steps R (download url bitrate cb).
Proof.
  unfold download. steps_go;
    first [ apply Track_init_via_track_id_steps | apply download_track_steps
          | apply Album_init_via_album_id_steps | apply download_album_steps ].
Qed.

Lemma search_songs_steps (name : string) (a b : Z) : steps R (search_songs name a b).
Proof.
  unfold search_songs, _find_albums, _find_tracks. steps_go;
    first [ apply update_requests_session_steps; auto
          | apply search_request_steps; auto ].
Qed.

Lemma perform_steps (op : operation) (s : state) : R s (perform op s).
Proof.
  destruct op; cbn [perform].
  - apply R_track.
  - apply R_album.
  - apply Track_init_via_track_id_steps.
  - apply Album_init_via_album_id_steps.
  - apply fetch_tracks_steps.
  - apply fetch_album_steps.
  - apply add_more_tags_steps; auto.
  - apply get_api_steps; auto.
  - unfold _refresh_session. apply refresh_session_with_steps; auto.
    intros. apply get_api_steps; auto.
  - apply search_songs_steps.
  - apply download_track_steps.
  - unfold download_track_via_id.
    apply steps_bind; [apply _ | apply Track_init_via_track_id_steps |].
    intros. apply download_track_steps.
  - apply download_album_steps.
  - apply download_steps.
Qed.

Lemma later_steps (s s' : state) : later s s' -> R s s'.
Proof.
  intros [ops ->]. revert s. induction ops as [| op ops IH]; intros s; cbn.
  - reflexivity.
  - etransitivity; [apply perform_steps | apply IH].
Qed.
End OperationSteps.

(** *** The caches only grow *)

#[local] Instance caches_grow_preorder : PreOrder caches_grow.
Proof.
  split.
  - intros s. split; reflexivity.
  - intros s1 s2 s3 [H1 H2] [H3 H4]. split; etransitivity; eassumption.
Qed.

Lemma caches_grow_same (s s' : state) :
  Track_cache s' = Track_cache s -> Album_cache s' = Album_cache s ->
  caches_grow s s'.
Proof. intros HT HA. unfold caches_grow. rewrite HT, HA. split; reflexivity. Qed.

Section CachesGrow.
Context `{Platform}.

Lemma setattr_caches (self : loc) (name : string) (v : value) :
  steps caches_grow (setattr self name v).
Proof. intros s. now apply caches_grow_same. Qed.

Lemma copy_field_caches (self : loc) (name : string) (info : value) (key : string) :
  steps caches_grow (copy_field self name info key).
Proof. unfold copy_field. steps_go. apply setattr_caches. Qed.

Lemma copy_field2_caches (self : loc) (name : string) (info : value) (k1 k2 : string) :
  steps caches_grow (copy_field2 self name info k1 k2).
Proof. unfold copy_field2. steps_go. apply setattr_caches. Qed.

Lemma raise_if_error_state (info : value) (s : state) :
  snd (raise_if_error info s) = s.
Proof.
  symmetry. revert s. change (steps eq (raise_if_error info)).
  unfold raise_if_error. steps_go.
Qed.

Lemma Track_init_caches (self : loc) (info : value) :
  steps caches_grow (Track_init self info).
Proof.
  unfold Track_init. steps_go;
    first [ apply copy_field_caches | apply copy_field2_caches | apply setattr_caches
          | intros s; rewrite raise_if_error_state; reflexivity ].
Qed.

Lemma Album_init_caches (self : loc) (info : value) :
  steps caches_grow (Album_init self info).
Proof.
  unfold Album_init. steps_go;
    first [ apply copy_field_caches | apply copy_field2_caches | apply setattr_caches
          | intros s; rewrite raise_if_error_state; reflexivity ].
Qed.

Lemma Track_new_caches (info : value) : steps caches_grow (Track_new info).
Proof.
  intros s. unfold Track_new, bind, lift, get.
  destruct (subscript info "id") as [id | e |]; try reflexivity.
  destruct (hash_key id) as [key | e |]; try reflexivity.
  destruct (Track_cache s !! key) as [l |] eqn:Hc.
  - rewrite bool_decide_eq_true_2 by eauto. cbn. rewrite Hc. reflexivity.
  - rewrite bool_decide_eq_false_2 by (intros [? ?]; discriminate).
    cbn. rewrite lookup_insert_eq. cbn.
    split; cbn; [now apply insert_subseteq | reflexivity].
Qed.

Lemma Album_new_caches (info : value) : steps caches_grow (Album_new info).
Proof.
  intros s. unfold Album_new, bind, lift, get.
  destruct (subscript info "id") as [id | e |]; try reflexivity.
  destruct (hash_key id) as [key | e |]; try reflexivity.
  destruct (Album_cache s !! key) as [l |] eqn:Hc.
  - rewrite bool_decide_eq_true_2 by eauto. cbn. rewrite Hc. reflexivity.
  - rewrite bool_decide_eq_false_2 by (intros [? ?]; discriminate).
    cbn. rewrite lookup_insert_eq. cbn.
    split; cbn; [reflexivity | now apply insert_subseteq].
Qed.

Lemma Track_call_caches (info : value) : steps caches_grow (Track_call info).
Proof.
  unfold Track_call. steps_go; [apply Track_new_caches | apply Track_init_caches].
Qed.

Lemma Album_call_caches (info : value) : steps caches_grow (Album_call info).
Proof.
  unfold Album_call. steps_go; [apply Album_new_caches | apply Album_init_caches].
Qed.

(** No operation of the package removes or rebinds a cache entry. *)
Lemma later_caches_grow (s s' : state) : later s s' -> caches_grow s s'.
Proof.
  apply later_steps.
  - apply _.
  - intros ev s0. now apply caches_grow_same.
  - intros g s0. now apply caches_grow_same.
  - intros self name v _. apply setattr_caches.
  - apply Track_call_caches.
  - apply Album_call_caches.
Qed.
End CachesGrow.

Section CacheIdentity.
Context `{Platform}.

(** What a constructor returns is what the cache holds for the ID. *)
Lemma Track_call_cached (info id : value) (key : pykey) (l : loc) (s s1 : state) :
  subscript info "id" = Ok id -> hash_key id = Ok key ->
  Track_call info s = (Ok l, s1) ->
  Track_cache s1 !! key = Some l
  /\ (forall l0, Track_cache s !! key = Some l0 -> l = l0).
Proof.
  intros Hid Hkey Hcall. unfold Track_call in Hcall.
  apply bind_Ok_inv in Hcall as (l' & s0 & Hnew & Hcall).
  apply bind_Ok_inv in Hcall as ([] & s1' & Hinit & Hret).
  injection Hret as <- <-.
  pose proof (Track_init_caches l' info s0) as [Hgrow _].
  rewrite Hinit in Hgrow. cbn [snd] in Hgrow.
  destruct (Track_cache s !! key) as [l0 |] eqn:Hc.
  - rewrite (Track_new_hit _ _ _ _ _ Hid Hkey Hc) in Hnew. injection Hnew as <- <-.
    split; [| now intros ? [= <-]].
    eapply lookup_weaken; eassumption.
  - rewrite (Track_new_miss _ _ _ _ Hid Hkey Hc) in Hnew. injection Hnew as <- <-.
    split; [| discriminate].
    eapply lookup_weaken; [| exact Hgrow]. cbn. apply lookup_insert_eq.
Qed.

Lemma Album_call_cached (info id : value) (key : pykey) (l : loc) (s s1 : state) :
  subscript info "id" = Ok id -> hash_key id = Ok key ->
  Album_call info s = (Ok l, s1) ->
  Album_cache s1 !! key = Some l
  /\ (forall l0, Album_cache s !! key = Some l0 -> l = l0).
Proof.
  intros Hid Hkey Hcall. unfold Album_call in Hcall.
  apply bind_Ok_inv in Hcall as (l' & s0 & Hnew & Hcall).
  apply bind_Ok_inv in Hcall as ([] & s1' & Hinit & Hret).
  injection Hret as <- <-.
  pose proof (Album_init_caches l' info s0) as [_ Hgrow].
  rewrite Hinit in Hgrow. cbn [snd] in Hgrow.
  destruct (Album_cache s !! key) as [l0 |] eqn:Hc.
  - rewrite (Album_new_hit _ _ _ _ _ Hid Hkey Hc) in Hnew. injection Hnew as <- <-.
    split; [| now intros ? [= <-]].
    eapply lookup_weaken; eassumption.
  - rewrite (Album_new_miss _ _ _ _ Hid Hkey Hc) in Hnew. injection Hnew as <- <-.
    split; [| discriminate].
    eapply lookup_weaken; [| exact Hgrow]. cbn. apply lookup_insert_eq.
Qed.

(** X14.  Constructing a [Track] (or an [Album]) from two documents with
    the same ID gives the same instance, whatever operations of the
    package ran in between: the second call returns the location the
    first one returned. *)
Theorem same_id_same_instance (info1 info2 id1 id2 : value) (key : pykey)
    (l1 l2 : loc) (s s1 s2 s3 : state) :
  subscript info1 "id" = Ok id1 -> hash_key id1 = Ok key ->
  subscript info2 "id" = Ok id2 -> hash_key id2 = Ok key ->
  later s1 s2 ->
  (Track_call info1 s = (Ok l1, s1) -> Track_call info2 s2 = (Ok l2, s3) -> l1 = l2)
  /\ (Album_call info1 s = (Ok l1, s1) -> Album_call info2 s2 = (Ok l2, s3) -> l1 = l2).
Proof.
  intros Hid1 Hkey1 Hid2 Hkey2 Hlater.
  destruct (later_caches_grow _ _ Hlater) as [HT HA].
  split; intros Hfirst Hsecond.
  - destruct (Track_call_cached _ _ _ _ _ _ Hid1 Hkey1 Hfirst) as [Hc1 _].
    destruct (Track_call_cached _ _ _ _ _ _ Hid2 Hkey2 Hsecond) as [_ Hsame].
    symmetry. apply Hsame. eapply lookup_weaken; eassumption.
  - destruct (Album_call_cached _ _ _ _ _ _ Hid1 Hkey1 Hfirst) as [Hc1 _].
    destruct (Album_call_cached _ _ _ _ _ _ Hid2 Hkey2 Hsecond) as [_ Hsame].
    symmetry. apply Hsame. eapply lookup_weaken; eassumption.
Qed.
End CacheIdentity.

Lemma same_id_same_instance_witness :
  let s := initial_state "arl" in
  let r1 := Track_call (H := example_platform) (sample_track_info 5) s in
  let s2 := perform (H := example_platform) (OpTrack (sample_track_info 6)) (snd r1) in
  let r2 := Track_call (H := example_platform) (sample_track_info 5) s2 in
  exists l1 l2 : loc, fst r1 = Ok l1 /\ fst r2 = Ok l2 /\ l1 = l2.
Proof.
  intros s r1 s2 r2. exists O, O.
  split; [vm_compute; reflexivity |]. split; [vm_compute; reflexivity |].
  apply (proj1 (same_id_same_instance (H := example_platform)
                  (sample_track_info 5) (sample_track_info 5) (VInt 5) (VInt 5) (KInt 5)
                  O O s (snd r1) s2 (snd r2)
                  eq_refl eq_refl eq_refl eq_refl
                  (ex_intro _ [OpTrack (sample_track_info 6)] eq_refl))).
  - vm_compute; reflexivity.
  - vm_compute; reflexivity.
Defined.

(** ** types.py: one instance for each ID *)

#[local] Instance preserves_preorder (P : state -> Prop) : PreOrder (preserves P).
Proof. split; unfold preserves; [intros s; auto | intros s1 s2 s3; auto]. Qed.

Lemma wf_initial (arl : string) : wf (initial_state arl).
Proof.
  unfold wf, cache_sound, cache_complete, cache_injective. cbn.
  repeat split; intros; try (rewrite lookup_empty in *; discriminate).
Qed.

Lemma wf_same_objects (s s' : state) : same_objects s s' -> wf s -> wf s'.
Proof.
  intros (Hh & Hn & HT & HA).
  unfold wf, cache_sound, cache_complete. rewrite Hh, Hn, HT, HA. auto.
Qed.

(** Assigning an attribute keeps the invariant, provided an [id] fits
    the key under which the instance is filed. *)
Lemma wf_setattr (self : loc) (name : string) (v : value) (s : state) :
  (name = "id" ->
   exists key, hash_key v = Ok key
     /\ (Track_cache s !! key = Some self \/ Album_cache s !! key = Some self)) ->
  wf s -> wf (snd (setattr self name v s)).
Proof.
  intros Hid (HsT & HsA & HcT & HcA & HiT & HiA & Hfresh).
  assert (Hsound : forall cls cache,
    (cls = ClsTrack /\ cache = Track_cache s \/ cls = ClsAlbum /\ cache = Album_cache s) ->
    cache_sound cls cache s ->
    cache_sound cls cache (snd (setattr self name v s))).
  { intros cls cache Hwhich Hs key l Hl. destruct (Hs key l Hl) as (Hlt & o & Ho & Hcls & Hido).
    split; [exact Hlt |]. cbn.
    destruct (decide (self = l)) as [-> | Hne].
    - rewrite lookup_alter_eq, Ho. cbn. eexists. split; [reflexivity |].
      split; [exact Hcls |]. cbn. intros v0.
      destruct (decide (name = "id")) as [-> | Hn].
      + rewrite lookup_insert_eq. intros [= <-].
        destruct (Hid eq_refl) as (key' & Hk' & Hcached).
        rewrite Hk'. f_equal.
        destruct Hwhich as [[-> ->] | [-> ->]], Hcached as [Hc | Hc].
        * now apply (HiT key' key l).
        * destruct (HsA key' l Hc) as (_ & o' & Ho' & Hcls' & _). congruence.
        * destruct (HsT key' l Hc) as (_ & o' & Ho' & Hcls' & _). congruence.
        * now apply (HiA key' key l).
      + rewrite lookup_insert_ne by congruence. apply Hido.
    - rewrite lookup_alter_ne by assumption. eauto. }
  assert (Hcomplete : forall cls cache,
    cache_complete cls cache s ->
    cache_complete cls cache (snd (setattr self name v s))).
  { intros cls cache Hc l o. cbn.
    destruct (decide (self = l)) as [-> | Hne].
    - rewrite lookup_alter_eq. destruct (heap s !! l) as [o' |] eqn:Ho'; [| discriminate].
      cbn. intros [= <-] Hcls. now apply (Hc l o').
    - rewrite lookup_alter_ne by assumption. apply Hc. }
  split; [apply Hsound; auto |]. split; [apply Hsound; auto |].
  split; [apply Hcomplete; auto |]. split; [apply Hcomplete; auto |].
  split; [exact HiT |]. split; [exact HiA |].
  intros l Hl. cbn.
  destruct (decide (self = l)) as [-> | Hne].
  - rewrite lookup_alter_eq, (Hfresh l Hl). reflexivity.
  - rewrite lookup_alter_ne by assumption. now apply Hfresh.
Qed.

Section CacheInvariantInit.
Context `{Platform}.
Variables (self : loc) (info id : value) (key : pykey).
Hypothesis Hid : subscript info "id" = Ok id.
Hypothesis Hkey : hash_key id = Ok key.

Lemma setattr_filed (name : string) (v : value) :
  (name = "id" -> hash_key v = Ok key) ->
  steps (preserves (filed self key)) (setattr self name v).
Proof.
  intros Hname s [Hwf Hfiled]. split; [| exact Hfiled].
  apply wf_setattr; [| exact Hwf]. intros Hn. exists key. auto.
Qed.

Lemma copy_field_filed (name k : string) :
  (name = "id" -> k = "id") ->
  steps (preserves (filed self key)) (copy_field self name info k).
Proof.
  intros Hname s. unfold copy_field, bind, lift.
  destruct (subscript info k) as [v | e |] eqn:Hv; cbn [snd]; try (intros Hf; exact Hf).
  apply setattr_filed. intros Hn. rewrite (Hname Hn), Hid in Hv. now injection Hv as <-.
Qed.

Lemma copy_field2_filed (name k1 k2 : string) :
  name <> "id" ->
  steps (preserves (filed self key)) (copy_field2 self name info k1 k2).
Proof.
  intros Hname. unfold copy_field2. steps_go. now apply setattr_filed.
Qed.

Lemma Track_init_filed : steps (preserves (filed self key)) (Track_init self info).
Proof.
  unfold Track_init. steps_go;
    first [ apply copy_field_filed; (discriminate || reflexivity || (intros _; reflexivity))
          | apply copy_field2_filed; discriminate
          | apply setattr_filed; discriminate
          | intros s; rewrite raise_if_error_state; reflexivity ].
Qed.

Lemma Album_init_filed : steps (preserves (filed self key)) (Album_init self info).
Proof.
  unfold Album_init. steps_go;
    first [ apply copy_field_filed; (discriminate || reflexivity || (intros _; reflexivity))
          | apply copy_field2_filed; discriminate
          | apply setattr_filed; discriminate
          | intros s; rewrite raise_if_error_state; reflexivity ].
Qed.
End CacheInvariantInit.

Section CacheInvariant.
Context `{Platform}.

(** Allocating an instance and filing it under a free key keeps the
    invariant. *)
Lemma wf_alloc_track (key : pykey) (s : state) :
  Track_cache s !! key = None -> wf s ->
  wf (set_Track_cache (<[key := next_loc s]> (Track_cache s))
       (set_next_loc (S (next_loc s))
          (set_heap (<[next_loc s := {| obj_class := ClsTrack; obj_attrs := ∅ |}]> (heap s))
                    s))).
Proof.
  intros Hmiss (HsT & HsA & HcT & HcA & HiT & HiA & Hfresh).
  unfold wf, cache_sound, cache_complete, cache_injective. cbn.
  split; [| split; [| split; [| split; [| split; [| split]]]]].
  - intros k l Hl. destruct (decide (k = key)) as [-> | Hk].
    + rewrite lookup_insert_eq in Hl. injection Hl as <-. split; [lia |].
      rewrite lookup_insert_eq. eexists. split; [reflexivity |]. split; [reflexivity |].
      cbn. intros v Hv. rewrite lookup_empty in Hv. discriminate.
    + rewrite lookup_insert_ne in Hl by congruence.
      destruct (HsT k l Hl) as (Hlt & o & Ho & Hrest). split; [lia |].
      rewrite lookup_insert_ne by lia. eauto.
  - intros k l Hl. destruct (HsA k l Hl) as (Hlt & o & Ho & Hrest). split; [lia |].
    rewrite lookup_insert_ne by lia. eauto.
  - intros l o Ho Hcls. destruct (decide (l = next_loc s)) as [-> | Hl].
    + exists key. apply lookup_insert_eq.
    + rewrite lookup_insert_ne in Ho by congruence.
      destruct (HcT l o Ho Hcls) as [k Hk]. exists k.
      rewrite lookup_insert_ne by congruence. exact Hk.
  - intros l o Ho Hcls. destruct (decide (l = next_loc s)) as [-> | Hl].
    + rewrite lookup_insert_eq in Ho. injection Ho as <-. discriminate.
    + rewrite lookup_insert_ne in Ho by congruence. eauto.
  - assert (Hold : forall k, Track_cache s !! k = Some (next_loc s) -> False).
    { intros k Hk. destruct (HsT k _ Hk) as [Hlt _]. lia. }
    intros k1 k2 l H1 H2.
    destruct (decide (k1 = key)) as [-> | Hk1], (decide (k2 = key)) as [-> | Hk2];
      try reflexivity.
    + rewrite lookup_insert_eq in H1. injection H1 as <-.
      rewrite lookup_insert_ne in H2 by congruence. destruct (Hold _ H2).
    + rewrite lookup_insert_eq in H2. injection H2 as <-.
      rewrite lookup_insert_ne in H1 by congruence. destruct (Hold _ H1).
    + rewrite lookup_insert_ne in H1, H2 by congruence. eauto.
  - exact HiA.
  - intros l Hl. rewrite lookup_insert_ne by lia. apply Hfresh. lia.
Qed.

Lemma wf_alloc_album (key : pykey) (s : state) :
  Album_cache s !! key = None -> wf s ->
  wf (set_Album_cache (<[key := next_loc s]> (Album_cache s))
       (set_next_loc (S (next_loc s))
          (set_heap (<[next_loc s := {| obj_class := ClsAlbum; obj_attrs := ∅ |}]> (heap s))
                    s))).
Proof.
  intros Hmiss (HsT & HsA & HcT & HcA & HiT & HiA & Hfresh).
  unfold wf, cache_sound, cache_complete, cache_injective. cbn.
  split; [| split; [| split; [| split; [| split; [| split]]]]].
  - intros k l Hl. destruct (HsT k l Hl) as (Hlt & o & Ho & Hrest). split; [lia |].
    rewrite lookup_insert_ne by lia. eauto.
  - intros k l Hl. destruct (decide (k = key)) as [-> | Hk].
    + rewrite lookup_insert_eq in Hl. injection Hl as <-. split; [lia |].
      rewrite lookup_insert_eq. eexists. split; [reflexivity |]. split; [reflexivity |].
      cbn. intros v Hv. rewrite lookup_empty in Hv. discriminate.
    + rewrite lookup_insert_ne in Hl by congruence.
      destruct (HsA k l Hl) as (Hlt & o & Ho & Hrest). split; [lia |].
      rewrite lookup_insert_ne by lia. eauto.
  - intros l o Ho Hcls. destruct (decide (l = next_loc s)) as [-> | Hl].
    + rewrite lookup_insert_eq in Ho. injection Ho as <-. discriminate.
    + rewrite lookup_insert_ne in Ho by congruence. eauto.
  - intros l o Ho Hcls. destruct (decide (l = next_loc s)) as [-> | Hl].
    + exists key. apply lookup_insert_eq.
    + rewrite lookup_insert_ne in Ho by congruence.
      destruct (HcA l o Ho Hcls) as [k Hk]. exists k.
      rewrite lookup_insert_ne by congruence. exact Hk.
  - exact HiT.
  - assert (Hold : forall k, Album_cache s !! k = Some (next_loc s) -> False).
    { intros k Hk. destruct (HsA k _ Hk) as [Hlt _]. lia. }
    intros k1 k2 l H1 H2.
    destruct (decide (k1 = key)) as [-> | Hk1], (decide (k2 = key)) as [-> | Hk2];
      try reflexivity.
    + rewrite lookup_insert_eq in H1. injection H1 as <-.
      rewrite lookup_insert_ne in H2 by congruence. destruct (Hold _ H2).
    + rewrite lookup_insert_eq in H2. injection H2 as <-.
      rewrite lookup_insert_ne in H1 by congruence. destruct (Hold _ H1).
    + rewrite lookup_insert_ne in H1, H2 by congruence. eauto.
  - intros l Hl. rewrite lookup_insert_ne by lia. apply Hfresh. lia.
Qed.

Lemma Track_call_wf (info : value) : steps (preserves wf) (Track_call info).
Proof.
  intros s Hwf. unfold Track_call.
  destruct (subscript info "id") as [id | e |] eqn:Hid;
    [| unfold Track_new, bind, lift; rewrite Hid; exact Hwf ..].
  destruct (hash_key id) as [key | e |] eqn:Hkey;
    [| unfold Track_new, bind, lift; rewrite Hid, Hkey; exact Hwf ..].
  assert (Hnew : exists l s0, Track_new info s = (Ok l, s0) /\ filed l key s0).
  { destruct (Track_cache s !! key) as [l |] eqn:Hc.
    - exists l, s. split; [eapply Track_new_hit; eassumption |]. split; auto.
    - eexists _, _. split; [eapply Track_new_miss; eassumption |].
      split; [now apply wf_alloc_track |]. left. cbn. apply lookup_insert_eq. }
  destruct Hnew as (l & s0 & Hnew & Hfiled).
  rewrite (bind_Ok _ _ _ _ _ Hnew).
  pose proof (Track_init_filed l info id key Hid Hkey s0 Hfiled) as [Hwf' _].
  unfold bind at 1. destruct (Track_init l info s0) as [[[] | e |] s1]; exact Hwf'.
Qed.

Lemma Album_call_wf (info : value) : steps (preserves wf) (Album_call info).
Proof.
  intros s Hwf. unfold Album_call.
  destruct (subscript info "id") as [id | e |] eqn:Hid;
    [| unfold Album_new, bind, lift; rewrite Hid; exact Hwf ..].
  destruct (hash_key id) as [key | e |] eqn:Hkey;
    [| unfold Album_new, bind, lift; rewrite Hid, Hkey; exact Hwf ..].
  assert (Hnew : exists l s0, Album_new info s = (Ok l, s0) /\ filed l key s0).
  { destruct (Album_cache s !! key) as [l |] eqn:Hc.
    - exists l, s. split; [eapply Album_new_hit; eassumption |]. split; auto.
    - eexists _, _. split; [eapply Album_new_miss; eassumption |].
      split; [now apply wf_alloc_album |]. right. cbn. apply lookup_insert_eq. }
  destruct Hnew as (l & s0 & Hnew & Hfiled).
  rewrite (bind_Ok _ _ _ _ _ Hnew).
  pose proof (Album_init_filed l info id key Hid Hkey s0 Hfiled) as [Hwf' _].
  unfold bind at 1. destruct (Album_init l info s0) as [[[] | e |] s1]; exact Hwf'.
Qed.

Lemma later_wf (s s' : state) : later s s' -> wf s -> wf s'.
Proof.
  apply (later_steps (preserves wf)).
  - intros ev s0. refine (wf_same_objects _ _ _). repeat split.
  - intros g s0. refine (wf_same_objects _ _ _). repeat split.
  - intros self name v Hin s0. refine (wf_setattr _ _ _ _ _). intros ->.
    cbn in Hin. intuition discriminate.
  - apply Track_call_wf.
  - apply Album_call_wf.
Qed.

(** X15.  In every state the operations of the package reach from a
    fresh interpreter, two live instances of one class whose [id]
    attributes are one and the same dictionary key are one and the same
    object: each class holds at most one instance for an ID. *)
Theorem one_instance_per_id (arl : string) (s : state) (l1 l2 : loc) (o1 o2 : object)
    (v1 v2 : value) (key : pykey) :
  later (initial_state arl) s ->
  heap s !! l1 = Some o1 -> heap s !! l2 = Some o2 ->
  obj_class o1 = obj_class o2 ->
  obj_attrs o1 !! "id" = Some v1 -> obj_attrs o2 !! "id" = Some v2 ->
  hash_key v1 = Ok key -> hash_key v2 = Ok key ->
  l1 = l2.
Proof.
  intros Hlater Ho1 Ho2 Hcls Hv1 Hv2 Hkey1 Hkey2.
  pose proof (later_wf _ _ Hlater (wf_initial arl))
    as (HsT & HsA & HcT & HcA & HiT & HiA & _).
  assert (Hgen : forall cls cache,
    cache_sound cls cache s -> cache_complete cls cache s ->
    obj_class o1 = cls -> l1 = l2).
  { intros cls cache Hs Hc Hcls1.
    destruct (Hc l1 o1 Ho1 Hcls1) as [k1 Hk1].
    destruct (Hc l2 o2 Ho2 ltac:(congruence)) as [k2 Hk2].
    destruct (Hs k1 l1 Hk1) as (_ & o1' & Ho1' & _ & Hid1).
    destruct (Hs k2 l2 Hk2) as (_ & o2' & Ho2' & _ & Hid2).
    pose proof (eq_trans (eq_sym Ho1') Ho1) as [= ->].
    pose proof (eq_trans (eq_sym Ho2') Ho2) as [= ->].
    pose proof (Hid1 _ Hv1). pose proof (Hid2 _ Hv2).
    assert (k1 = k2) as -> by congruence. congruence. }
  destruct (obj_class o1) eqn:Hc1; eauto.
Qed.
End CacheInvariant.

Lemma one_instance_per_id_witness :
  let s := fold_left (fun s op => perform (H := example_platform) op s)
             [OpTrack (sample_track_info 5); OpAlbum (sample_album_info 5 [5]);
              OpTrack (sample_track_info 5)]
             (initial_state "arl") in
  exists o : object,
    heap s !! O = Some o /\ obj_class o = ClsTrack
    /\ obj_attrs o !! "id" = Some (VInt 5) /\ O = O.
Proof.
  intros s.
  destruct (heap s !! O) as [o |] eqn:Ho; [| vm_compute in Ho; discriminate].
  exists o. split; [reflexivity |].
  assert (Hcls : obj_class o = ClsTrack).
  { vm_compute in Ho. injection Ho as <-. reflexivity. }
  assert (Hid : obj_attrs o !! "id" = Some (VInt 5)).
  { vm_compute in Ho. injection Ho as <-. vm_compute. reflexivity. }
  split; [exact Hcls |]. split; [exact Hid |].
  apply (one_instance_per_id (H := example_platform) "arl" s O O o o (VInt 5) (VInt 5)
           (KInt 5) (ex_intro _ _ eq_refl) Ho Ho eq_refl Hid Hid eq_refl eq_refl).
Defined.

(** ** session.py: [search_songs] *)

Lemma mapM_summaries {A B} (f : A -> outcome B) (l : list A) :
  Forall (fun e => exists r, f e = Ok r) l ->
  exists rs, Res.mapM f l = Ok rs /\ Forall2 (fun e r => f e = Ok r) l rs.
Proof.
  induction 1 as [| e l [r Hr] _ (rs & Hrs & IH)]; cbn.
  - exists []. split; [reflexivity | constructor].
  - exists (r :: rs). rewrite Hr, Hrs. split; [reflexivity | now constructor].
Qed.

Lemma slice_to_sublist {A} (P : A -> Prop) (n : Z) (l : list A) :
  Forall P l -> Forall P (slice_to n l).
Proof.
  intros Hl. unfold slice_to. destruct (n <? 0); now apply Forall_take.
Qed.

Lemma slice_to_length {A} (n : Z) (l : list A) :
  (0 <= n -> length (slice_to n l) = Nat.min (Z.to_nat n) (length l))
  /\ (n < 0 -> length (slice_to n l) = (length l - Z.to_nat (- n))%nat).
Proof.
  unfold slice_to. split; intros Hn.
  - destruct (Z.ltb_spec n 0); [lia |]. apply List.length_firstn.
  - destruct (Z.ltb_spec n 0); [| lia]. rewrite List.length_firstn. lia.
Qed.

Section SearchFacts.
Context `{Platform}.

(** X16.  When both searches answer with lists of well-formed entries,
    [search_songs] returns the display records of [albums[:albums_count]]
    and of [tracks[:songs_limit - albums_count]], in the order delivered.
    For [0 <= albums_count <= songs_limit] these are the first
    [albums_count] albums and the first [songs_limit - albums_count]
    tracks; for [albums_count > songs_limit] the bound of the second
    slice is negative, and the tracks are not dropped but only lose
    their last [albums_count - songs_limit] entries. *)
Theorem search_songs_truncation (name : string) (albums_count songs_limit : Z)
    (s : state) (ra rt : value) (albums tracks : list value) :
  let url_a := LEGACY_API_URL +:+ "search/album" in
  let url_t := LEGACY_API_URL +:+ "search" in
  http_search (history s) url_a name = Ok ra ->
  subscript ra "data" = Ok (VList albums) ->
  http_search (history s ++ [EvSearch url_a name]) url_t name = Ok rt ->
  subscript rt "data" = Ok (VList tracks) ->
  Forall (fun e => exists r, album_summary e = Ok r) albums ->
  Forall (fun e => exists r, track_summary e = Ok r) tracks ->
  exists A T,
    fst (search_songs name albums_count songs_limit s) = Ok (A, T)
    /\ Forall2 (fun e r => album_summary e = Ok r) (slice_to albums_count albums) A
    /\ Forall2 (fun e r => track_summary e = Ok r)
         (slice_to (songs_limit - albums_count) tracks) T
    /\ (0 <= albums_count <= songs_limit ->
        length A = Nat.min (Z.to_nat albums_count) (length albums)
        /\ length T = Nat.min (Z.to_nat (songs_limit - albums_count)) (length tracks))
    /\ (songs_limit < albums_count ->
        length T = (length tracks - Z.to_nat (albums_count - songs_limit))%nat).
Proof.
  intros url_a url_t Ha Hda Ht Hdt Hwa Hwt.
  destruct (mapM_summaries album_summary (slice_to albums_count albums)
              (slice_to_sublist _ _ _ Hwa)) as (A & HA & HA2).
  destruct (mapM_summaries track_summary (slice_to (songs_limit - albums_count) tracks)
              (slice_to_sublist _ _ _ Hwt)) as (T & HT & HT2).
  exists A, T. split.
  - unfold search_songs, update_requests_session, gather2, _find_albums, _find_tracks,
      search_request, with_transport, bind, get, emit, modify, lift, ret.
    cbn. fold url_a url_t. rewrite Ha. cbn. rewrite Hda. rewrite Ht. cbn. rewrite Hdt.
    cbn. rewrite HA, HT. reflexivity.
  - split; [exact HA2 |]. split; [exact HT2 |].
    rewrite <- (Forall2_length _ _ _ HA2), <- (Forall2_length _ _ _ HT2).
    split.
    + intros [H0 Hle]. split; apply slice_to_length; lia.
    + intros Hlt. rewrite (proj2 (slice_to_length _ _)) by lia. do 2 f_equal. lia.
Qed.
End SearchFacts.

Lemma search_songs_truncation_witness :
  let albums := map (fun n => sample_album_info n []) [1; 2; 3; 4] in
  let tracks := map sample_track_info [1; 2; 3; 4; 5] in
  exists A T,
    fst (search_songs (H := search_platform albums tracks) "song" 3 5 (initial_state "arl"))
    = Ok (A, T)
    /\ length A = 3%nat /\ length T = 2%nat.
Proof.
  intros albums tracks.
  destruct (search_songs_truncation (H := search_platform albums tracks)
              "song" 3 5 (initial_state "arl")
              (VDict [("data", VList albums)]) (VDict [("data", VList tracks)])
              albums tracks eq_refl eq_refl eq_refl eq_refl)
    as (A & T & Hrun & _ & _ & Hlen & _).
  - repeat constructor; eexists; reflexivity.
  - repeat constructor; eexists; reflexivity.
  - exists A, T. split; [exact Hrun |]. apply Hlen. lia.
Defined.

(** ** types.py: what [add_more_tags] assigns *)

Section HydrationEffects.
Context `{Platform}.

Lemma setattr_run (self : loc) (name : string) (v : value) (s : state) :
  setattr self name v s = (Ok tt, snd (setattr self name v s)).
Proof. reflexivity. Qed.

Lemma lift_setattr_run (self : loc) (name : string) (x : outcome value) (v : value)
    (s : state) :
  x = Ok v ->
  (v <- lift x;; setattr self name v) s = (Ok tt, snd (setattr self name v s)).
Proof. intros ->. reflexivity. Qed.

Lemma lift_run {A} (x : outcome A) (s : state) : lift x s = (x, s).
Proof. reflexivity. Qed.

Lemma attr_of_setattr_other (s : state) (self l : loc) (name n : string) (v : value) :
  n <> name -> attr_of (snd (setattr l n v s)) self name = attr_of s self name.
Proof. intros Hn. rewrite attr_of_setattr. apply decide_False. tauto. Qed.

Lemma attr_of_setattr_same (s : state) (self : loc) (name : string) (v : value) :
  is_Some (heap s !! self) ->
  attr_of (snd (setattr self name v s)) self name = Some v.
Proof.
  intros [o Ho]. rewrite attr_of_setattr, decide_True by auto. now rewrite Ho.
Qed.

Lemma setattr_alive (s : state) (self l : loc) (n : string) (v : value) :
  is_Some (heap s !! self) -> is_Some (heap (snd (setattr l n v s)) !! self).
Proof.
  intros [o Ho]. cbn. destruct (decide (l = self)) as [-> | Hl].
  - rewrite lookup_alter_eq, Ho. cbn. eauto.
  - rewrite lookup_alter_ne by assumption. eauto.
Qed.

Lemma attr_of_alive (s : state) (self : loc) (name : string) (v : value) :
  attr_of s self name = Some v -> is_Some (heap s !! self).
Proof. unfold attr_of. destruct (heap s !! self); [eauto | discriminate]. Qed.
End HydrationEffects.

Ltac alive := repeat apply setattr_alive; assumption.
Ltac read_attr :=
  repeat first [ rewrite attr_of_setattr_other by discriminate
               | rewrite attr_of_setattr_same by alive ];
  try reflexivity.

Section HydrationTags.
Context `{Platform}.
Variables (self : loc) (s s1 : state) (track_id : value).
Variables (r data : list (string * value)) (md5 mv contributors copyright : value).
Hypothesis Hid : attr_of s self "id" = Some track_id.
Hypothesis Hapi :
  get_api METHOD_PAGE_TRACK (VDict [("sng_id", track_id)]) s = (Ok (VDict r), s1).
Hypothesis Hdata : assoc "DATA" r = Some (VDict data).
Hypothesis Hmd5 : assoc "MD5_ORIGIN" data = Some md5.
Hypothesis Hmv : assoc "MEDIA_VERSION" data = Some mv.
Hypothesis Hcontributors : assoc "SNG_CONTRIBUTORS" data = Some contributors.
Hypothesis Hcopyright : assoc "COPYRIGHT" data = Some copyright.
Hypothesis Hshape : is_list contributors = true \/ exists c, contributors = VDict c.

Lemma hydration_alive : is_Some (heap s1 !! self).
Proof.
  pose proof (get_api_steps same_objects
                ltac:(intros ev s0; repeat split)
                ltac:(intros g s0; repeat split)
                METHOD_PAGE_TRACK (VDict [("sng_id", track_id)]) s) as (Hh & _).
  rewrite Hapi in Hh. cbn [snd] in Hh. rewrite Hh.
  eapply attr_of_alive, Hid.
Qed.

(** The state after the assignments that do not depend on the lyrics. *)
Lemma add_more_tags_data (composer author : value) :
  (if is_list contributors then composer = VNone /\ author = VNone
   else dict_get contributors "composer" = Ok composer
        /\ dict_get contributors "author" = Ok author) ->
  exists s2 k,
    add_more_tags self s = k s2
    /\ k = (has_lyrics <- lift (Ok (bool_decide (is_Some (assoc "LYRICS" r))));;
            if has_lyrics : bool then
              (v <- lift (let? l := subscript (VDict r) "LYRICS" in dict_get l "LYRICS_TEXT");;
               setattr self "lyrics" v);;
              (v <- lift (let? l := subscript (VDict r) "LYRICS" in dict_get l "LYRICS_SYNC_JSON");;
               setattr self "lyrics_sync" v);;
              (v <- lift (let? l := subscript (VDict r) "LYRICS" in dict_get l "LYRICS_COPYRIGHTS");;
               setattr self "lyrics_copyrights" v);;
              (v <- lift (let? l := subscript (VDict r) "LYRICS" in
                          let? w := dict_get l "LYRICS_WRITERS" in split_comma_space w);;
               setattr self "lyrics_writers" v)
            else
              setattr self "lyrics" VNone;;
              setattr self "lyrics_sync" VNone;;
              setattr self "lyrics_copyrights" VNone;;
              setattr self "lyrics_writers" VNone)
    /\ is_Some (heap s2 !! self)
    /\ attr_of s2 self "md5_origin" = Some md5
    /\ attr_of s2 self "media_version" = Some mv
    /\ attr_of s2 self "composer" = Some composer
    /\ attr_of s2 self "author" = Some author
    /\ attr_of s2 self "copyright" = Some copyright
    /\ (forall name,
          ~ In name ["md5_origin"; "media_version"; "composer"; "author"; "copyright"] ->
          attr_of s2 self name = attr_of s self name).
Proof.
  intros Hc.
  assert (HD : subscript (VDict r) "DATA" = Ok (VDict data)) by (cbn; now rewrite Hdata).
  assert (Hm1 : (let? x := subscript (VDict r) "DATA" in subscript x "MD5_ORIGIN") = Ok md5)
    by (rewrite HD; cbn; now rewrite Hmd5).
  assert (Hm2 : (let? x := subscript (VDict r) "DATA" in subscript x "MEDIA_VERSION") = Ok mv)
    by (rewrite HD; cbn; now rewrite Hmv).
  assert (Hm3 : (let? x := subscript (VDict r) "DATA" in subscript x "COPYRIGHT")
                = Ok copyright)
    by (rewrite HD; cbn; now rewrite Hcopyright).
  assert (Hm4 : (let? d := subscript (VDict r) "DATA" in subscript d "SNG_CONTRIBUTORS")
                = Ok contributors)
    by (rewrite HD; cbn; now rewrite Hcontributors).
  eexists _, _. split.
  - unfold add_more_tags.
    unfold bind at 1. rewrite getattr_run, Hid.
    rewrite (bind_Ok _ _ _ _ _ Hapi).
    unfold copy_field2.
    rewrite (bind_Ok _ _ _ _ _ (lift_setattr_run self "md5_origin" _ md5 _ Hm1)).
    rewrite (bind_Ok _ _ _ _ _ (lift_setattr_run self "media_version" _ mv _ Hm2)).
    unfold bind at 1. rewrite lift_run, Hm4.
    match goal with
    | |- bind ?m _ ?s0 = _ =>
        assert (Hrun : m s0 = (Ok tt, snd (setattr self "author" author
                                         (snd (setattr self "composer" composer s0)))))
    end.
    { destruct (is_list contributors).
      - destruct Hc as [-> ->]. reflexivity.
      - destruct Hc as [Hc1 Hc2].
        assert (Hg1 : (let? d := subscript (VDict r) "DATA" in
                       let? c := subscript d "SNG_CONTRIBUTORS" in dict_get c "composer")
                      = Ok composer)
          by (rewrite HD; cbn; rewrite Hcontributors; exact Hc1).
        assert (Hg2 : (let? d := subscript (VDict r) "DATA" in
                       let? c := subscript d "SNG_CONTRIBUTORS" in dict_get c "author")
                      = Ok author)
          by (rewrite HD; cbn; rewrite Hcontributors; exact Hc2).
        rewrite (bind_Ok _ _ _ _ _ (lift_setattr_run self "composer" _ composer _ Hg1)).
        now apply lift_setattr_run. }
    rewrite (bind_Ok _ _ _ _ _ Hrun).
    rewrite (bind_Ok _ _ _ _ _ (lift_setattr_run self "copyright" _ copyright _ Hm3)).
    reflexivity.
  - split; [reflexivity |].
    pose proof hydration_alive as Halive.
    split; [alive |].
    repeat (split; [read_attr |]).
    intros name Hname.
    assert (Hs1 : attr_of s1 self name = attr_of s self name).
    { pose proof (get_api_steps same_objects
                ltac:(intros ev s0; repeat split)
                ltac:(intros g s0; repeat split)
                METHOD_PAGE_TRACK (VDict [("sng_id", track_id)]) s) as (Hh & _).
      rewrite Hapi in Hh. cbn [snd] in Hh. unfold attr_of. now rewrite Hh. }
    rewrite <- Hs1.
    repeat (rewrite attr_of_setattr_other
              by (intros <-; apply Hname; cbn; tauto)).
    reflexivity.
Qed.

Lemma contributors_shape :
  if is_list contributors
  then get_or_none (Some contributors) "composer" = VNone
       /\ get_or_none (Some contributors) "author" = VNone
  else dict_get contributors "composer" = Ok (get_or_none (Some contributors) "composer")
       /\ dict_get contributors "author" = Ok (get_or_none (Some contributors) "author").
Proof.
  destruct Hshape as [Hl | [c ->]].
  - rewrite Hl. destruct contributors; try discriminate. split; reflexivity.
  - split; reflexivity.
Qed.

(** X17.  When the page-track reply carries the origin hash, the media
    version, the copyright and the contributors -- a list or a
    dictionary -- and either no lyrics or lyrics whose writers are a
    string, [add_more_tags] returns and has assigned: composer and
    author as [None] for a list of contributors and as the entries of
    the dictionary otherwise; the four lyrics attributes from the
    [LYRICS] part, the writers split at [", "], or all four as [None]
    when the reply has no such part.  No other attribute changes. *)
Theorem add_more_tags_sets :
  (assoc "LYRICS" r = None
   \/ exists l w, assoc "LYRICS" r = Some (VDict l)
                  /\ assoc "LYRICS_WRITERS" l = Some (VStr w)) ->
  exists s',
    add_more_tags self s = (Ok tt, s')
    /\ attr_of s' self "md5_origin" = Some md5
    /\ attr_of s' self "media_version" = Some mv
    /\ attr_of s' self "composer" = Some (get_or_none (Some contributors) "composer")
    /\ attr_of s' self "author" = Some (get_or_none (Some contributors) "author")
    /\ attr_of s' self "copyright" = Some copyright
    /\ attr_of s' self "lyrics" = Some (get_or_none (assoc "LYRICS" r) "LYRICS_TEXT")
    /\ attr_of s' self "lyrics_sync"
       = Some (get_or_none (assoc "LYRICS" r) "LYRICS_SYNC_JSON")
    /\ attr_of s' self "lyrics_copyrights"
       = Some (get_or_none (assoc "LYRICS" r) "LYRICS_COPYRIGHTS")
    /\ attr_of s' self "lyrics_writers"
       = Some (match get_or_none (assoc "LYRICS" r) "LYRICS_WRITERS" with
               | VStr w => VList (map VStr (str_split w ", "))
               | _ => VNone
               end)
    /\ (forall name, ~ In name EXTENDED_TAGS -> attr_of s' self name = attr_of s self name).
Proof.
  intros Hlyrics.
  destruct (add_more_tags_data _ _ contributors_shape)
    as (s2 & k & Hrun & -> & Halive & H1 & H2 & H3 & H4 & H5 & Hrest).
  rewrite Hrun. clear Hrun.
  destruct Hlyrics as [Hnone | (l & w & Hl & Hw)].
  - eexists. split.
    + unfold bind at 1. rewrite lift_run.
      rewrite bool_decide_eq_false_2 by (rewrite Hnone; intros [? ?]; discriminate).
      do 3 rewrite (bind_Ok _ _ _ _ _ (setattr_run _ _ _ _)).
      apply setattr_run.
    + rewrite Hnone. cbn [get_or_none].
      repeat (split; [read_attr; assumption |]).
      intros name Hname.
      repeat (rewrite attr_of_setattr_other by (intros <-; apply Hname; cbn; tauto)).
      apply Hrest. intros Hin. apply Hname. cbn in *. tauto.
  - eexists. split.
    + unfold bind at 1. rewrite lift_run.
      rewrite bool_decide_eq_true_2 by (rewrite Hl; eauto).
      cbn [subscript]. rewrite Hl. cbn [Res.bind dict_get]. rewrite Hw.
      do 3 rewrite (bind_Ok _ _ _ _ _ (lift_setattr_run _ _ _ _ _ eq_refl)).
      now apply lift_setattr_run.
    + rewrite Hl. cbn [get_or_none]. rewrite Hw. cbn [default].
      repeat (split; [read_attr; assumption |]).
      intros name Hname.
      repeat (rewrite attr_of_setattr_other by (intros <-; apply Hname; cbn; tauto)).
      apply Hrest. intros Hin. apply Hname. cbn in *. tauto.
Qed.

(** X18.  Lyrics that name no writers make [add_more_tags] raise
    [AttributeError] ([None] has no [split]) after the origin hash, the
    media version and the first three lyrics attributes were assigned:
    the instance is left updated in part, its [lyrics_writers] as it
    was. *)
Theorem add_more_tags_writers_missing (l : list (string * value)) :
  assoc "LYRICS" r = Some (VDict l) ->
  assoc "LYRICS_WRITERS" l = None ->
  exists s',
    add_more_tags self s = (Raise AttributeError, s')
    /\ attr_of s' self "md5_origin" = Some md5
    /\ attr_of s' self "media_version" = Some mv
    /\ attr_of s' self "lyrics" = Some (default VNone (assoc "LYRICS_TEXT" l))
    /\ attr_of s' self "lyrics_sync" = Some (default VNone (assoc "LYRICS_SYNC_JSON" l))
    /\ attr_of s' self "lyrics_copyrights"
       = Some (default VNone (assoc "LYRICS_COPYRIGHTS" l))
    /\ attr_of s' self "lyrics_writers" = attr_of s self "lyrics_writers".
Proof.
  intros Hl Hw.
  destruct (add_more_tags_data _ _ contributors_shape)
    as (s2 & k & Hrun & -> & Halive & H1 & H2 & H3 & H4 & H5 & Hrest).
  rewrite Hrun. clear Hrun.
  eexists. split.
  - unfold bind at 1. rewrite lift_run.
    rewrite bool_decide_eq_true_2 by (rewrite Hl; eauto).
    cbn [subscript]. rewrite Hl. cbn [Res.bind dict_get]. rewrite Hw.
    do 3 rewrite (bind_Ok _ _ _ _ _ (lift_setattr_run _ _ _ _ _ eq_refl)).
    reflexivity.
  - repeat (split; [read_attr; assumption |]).
    read_attr. apply Hrest. cbn. intuition discriminate.
Qed.
End HydrationTags.

Lemma add_more_tags_sets_witness :
  exists s',
    add_more_tags (H := example_platform) O resolved_state = (Ok tt, s')
    /\ attr_of s' O "composer" = Some (VList [VStr "Ann"; VStr "Bob"])
    /\ attr_of s' O "lyrics_sync" = Some VNone
    /\ attr_of s' O "lyrics_writers" = Some (VList [VStr "Ann"; VStr "Bob"])
    /\ attr_of s' O "title" = Some (VStr "Song").
Proof.
  pose (s1 := snd (get_api (H := example_platform) "deezer.pageTrack"
                     (VDict [("sng_id", VInt 1)]) resolved_state)).
  destruct (add_more_tags_sets (H := example_platform) O resolved_state s1 (VInt 1)
              [("DATA", VDict [("MD5_ORIGIN", VStr "abc123");
                               ("MEDIA_VERSION", VStr "1");
                               ("SNG_CONTRIBUTORS",
                                VDict [("composer", VList [VStr "Ann"; VStr "Bob"]);
                                       ("author", VList [VStr "Cy"])]);
                               ("COPYRIGHT", VStr "(c) Label")]);
               ("LYRICS", VDict [("LYRICS_TEXT", VStr "la la");
                                 ("LYRICS_COPYRIGHTS", VStr "(c) Words");
                                 ("LYRICS_WRITERS", VStr "Ann, Bob")])]
              [("MD5_ORIGIN", VStr "abc123");
               ("MEDIA_VERSION", VStr "1");
               ("SNG_CONTRIBUTORS",
                VDict [("composer", VList [VStr "Ann"; VStr "Bob"]);
                       ("author", VList [VStr "Cy"])]);
               ("COPYRIGHT", VStr "(c) Label")]
              (VStr "abc123") (VStr "1")
              (VDict [("composer", VList [VStr "Ann"; VStr "Bob"]);
                      ("author", VList [VStr "Cy"])])
              (VStr "(c) Label"))
    as (s' & Hrun & _ & _ & Hc & _ & _ & _ & Hsync & _ & Hw & Hrest).
  - vm_compute. reflexivity.
  - vm_compute. reflexivity.
  - reflexivity.
  - reflexivity.
  - reflexivity.
  - reflexivity.
  - reflexivity.
  - right. eexists. reflexivity.
  - right. eexists _, _. split; reflexivity.
  - exists s'. split; [exact Hrun |]. split; [exact Hc |]. split; [exact Hsync |].
    split; [exact Hw |].
    rewrite Hrest; [vm_compute; reflexivity |].
    cbn. intuition discriminate.
Defined.

Lemma add_more_tags_writers_missing_witness :
  exists s',
    add_more_tags (H := page_track_platform sample_page_track_no_writers) O resolved_state
    = (Raise AttributeError, s')
    /\ attr_of s' O "lyrics" = Some (VStr "la la")
    /\ attr_of s' O "lyrics_writers" = None.
Proof.
  pose (s1 := snd (get_api (H := page_track_platform sample_page_track_no_writers)
                     "deezer.pageTrack" (VDict [("sng_id", VInt 1)]) resolved_state)).
  destruct (add_more_tags_writers_missing
              (H := page_track_platform sample_page_track_no_writers)
              O resolved_state s1 (VInt 1)
              [("DATA", VDict [("MD5_ORIGIN", VStr "abc123");
                               ("MEDIA_VERSION", VStr "1");
                               ("SNG_CONTRIBUTORS", VList []);
                               ("COPYRIGHT", VStr "(c) Label")]);
               ("LYRICS", VDict [("LYRICS_TEXT", VStr "la la")])]
              [("MD5_ORIGIN", VStr "abc123");
               ("MEDIA_VERSION", VStr "1");
               ("SNG_CONTRIBUTORS", VList []);
               ("COPYRIGHT", VStr "(c) Label")]
              (VStr "abc123") (VStr "1") (VList []) (VStr "(c) Label"))
    with (l := [("LYRICS_TEXT", VStr "la la")])
    as (s' & Hrun & _ & _ & Hl & _ & _ & Hw).
  - vm_compute. reflexivity.
  - vm_compute. reflexivity.
  - reflexivity.
  - reflexivity.
  - reflexivity.
  - reflexivity.
  - reflexivity.
  - left. reflexivity.
  - reflexivity.
  - reflexivity.
  - exists s'. split; [exact Hrun |]. split; [exact Hl |].
    rewrite Hw. vm_compute. reflexivity.
Defined.

(** ** The claims on the session guard and on error documents *)

(** C2.  The guard of [get_api] compares the wrong way round.  The clock
    of the example server stands at 100.  A session whose token expires
    at 3700, one hour after it was obtained, refreshes before the call
    although the token is still good; a session whose token expired at
    50 does not refresh and sends the stale token. *)
Theorem get_api_guard_inverted :
  posted_methods
    (history (snd (get_api (H := example_platform) "deezer.pageTrack"
                     (VDict [("sng_id", VInt 1)]) (logged_in "token" 3700))))
  = [VStr "deezer.getUserData"; VStr "deezer.pageTrack"]
  /\ history (snd (get_api (H := example_platform) "deezer.pageTrack"
                     (VDict [("sng_id", VInt 1)]) (logged_in "token" 50)))
     = [EvClock;
        EvPost "http://www.deezer.com/ajax/gw-light.php"
               (api_params (VStr "token") "deezer.pageTrack")
               (VDict [("sng_id", VInt 1)]) [("arl", "arl")]].
Proof. split; vm_compute; reflexivity. Qed.

(** C4.  The error document of the public API has no ["id"] member, so
    resolving an entity the server does not know ends in [__new__] with
    [KeyError] for ["id"]; the guard of [__init__] that raises
    [DeezerApiError] is not reached. *)
Theorem resolve_unknown_entity :
  Track_init_via_track_id (H := sample_platform unknown_entities) 1 (initial_state "arl")
  = (Raise (KeyError "id"),
     set_history [EvGetJson "https://api.deezer.com/track/1"] (initial_state "arl"))
  /\ Album_init_via_album_id (H := sample_platform unknown_entities) 1 (initial_state "arl")
     = (Raise (KeyError "id"),
        set_history [EvGetJson "https://api.deezer.com/album/1"] (initial_state "arl")).
Proof. split; vm_compute; reflexivity. Qed.

(** ** The claim on [download] *)

Section DownloadClaim.
Context `{Platform}.

(** C6, as amended.  A provider URL
    [http(s)://(www.)deezer.com/(<locale>/)<kind>/<digits>] whose digits
    [int] accepts, followed by nothing or by text that starts with
    neither a word character nor a slash and a digit, is dispatched on
    its kind: "track" to the track path and "album" to the album path,
    with the number the digits spell, any other kind to
    [ActionNotSupported] carrying the kind.  A string that does not
    start with a provider URL raises [InvalidUrlError] carrying the
    string. *)
Theorem download_by_url (url bitrate : string) (cb : bool) (s : state) :
  (forall secure www locale kind digits rest content_id,
     url = provider_url secure www locale kind digits +:+ rest ->
     (forall l, locale = Some l -> all_in is_word l /\ l <> "") ->
     all_in is_word kind -> kind <> "" ->
     all_in is_digit digits -> digits <> "" ->
     clean_tail rest ->
     py_int digits = Ok content_id ->
     download url bitrate cb s =
     if String.eqb kind "track" then
       (track <- Track_init_via_track_id content_id;;
        buffer <- download_track track bitrate cb;;
        ret (OneTrack buffer)) s
     else if String.eqb kind "album" then
       (album <- Album_init_via_album_id content_id;;
        buffers <- download_album album bitrate;;
        ret (WholeAlbum buffers)) s
     else (Raise (ActionNotSupported kind), s))
  /\ ((forall secure www locale kind digits rest,
         (forall l, locale = Some l -> all_in is_word l /\ l <> "") ->
         all_in is_word kind -> kind <> "" ->
         all_in is_digit digits -> digits <> "" ->
         url <> provider_url secure www locale kind digits +:+ rest) ->
      download url bitrate cb s = (Raise (InvalidUrlError url), s)).
Proof.
  split.
  - intros secure www locale kind digits rest content_id -> Hl Hk Hkne Hd Hdne Hrest Hint.
    transitivity
      ((content_id <- lift (py_int digits);;
        if String.eqb kind "track" then
          track <- Track_init_via_track_id content_id;;
          buffer <- download_track track bitrate cb;;
          ret (OneTrack buffer)
        else if String.eqb kind "album" then
          album <- Album_init_via_album_id content_id;;
          buffers <- download_album album bitrate;;
          ret (WholeAlbum buffers)
        else raise (ActionNotSupported kind)) s).
    { unfold download. rewrite re_match_provider_url by assumption. reflexivity. }
    unfold bind at 1. rewrite lift_run, Hint.
    destruct (String.eqb kind "track"); [reflexivity |].
    destruct (String.eqb kind "album"); reflexivity.
  - intros Hshape. unfold download.
    destruct (re_match URL_PATTERN url) as [result |] eqn:Hm; [| reflexivity].
    apply re_match_sound in Hm
      as (secure & www & locale & kind & digits & rest & Hurl & Hl & Hk & Hkne
          & Hd & Hdne & _).
    now destruct (Hshape secure www locale kind digits rest).
Qed.
End DownloadClaim.

Lemma download_by_url_witness :
  download (H := example_platform) "https://www.deezer.com/album/302127" "FLAC" false
    (initial_state "arl")
  = (album <- Album_init_via_album_id (H := example_platform) 302127;;
     buffers <- download_album (H := example_platform) album "FLAC";;
     ret (WholeAlbum buffers)) (initial_state "arl").
Proof.
  apply (proj1 (download_by_url (H := example_platform)
                  "https://www.deezer.com/album/302127" "FLAC" false
                  (initial_state "arl"))
           true true None "album" "302127" "" 302127).
  - reflexivity.
  - discriminate.
  - unfold all_in; cbn; repeat constructor.
  - discriminate.
  - unfold all_in; cbn; repeat constructor.
  - discriminate.
  - split; [reflexivity | exact I].
  - vm_compute. reflexivity.
Defined.

(** C6, the case the claim misses: a track URL with more digits than
    [int] converts (4300 by default) raises [ValueError] and is neither
    dispatched nor refused as unsupported or invalid. *)
Lemma download_too_many_digits :
  download (H := example_platform)
    ("https://www.deezer.com/track/" +:+ string_of_list_ascii (repeat "1"%char 4301))
    "FLAC" false (initial_state "arl")
  = (Raise ValueError, initial_state "arl").
Proof. vm_compute. reflexivity. Qed.

(** ** The claim on [search_songs] *)

Lemma slice_to_firstn {A} (n : Z) (l : list A) :
  0 <= n -> slice_to n l = firstn (Z.to_nat n) l.
Proof. intros Hn. unfold slice_to. destruct (Z.ltb_spec n 0); [lia | reflexivity]. Qed.

Section SearchClaim.
Context `{Platform}.

(** C9, as amended.  For limits with [0 <= albums_count <= songs_limit],
    when both searches answer with lists of well-formed entries,
    [search_songs] returns the display records of the first
    [albums_count] albums and of the first [songs_limit - albums_count]
    tracks, each list in the order the provider delivered it. *)
Theorem search_songs_limits (name : string) (albums_count songs_limit : Z)
    (s : state) (ra rt : value) (albums tracks : list value) :
  let url_a := LEGACY_API_URL +:+ "search/album" in
  let url_t := LEGACY_API_URL +:+ "search" in
  0 <= albums_count <= songs_limit ->
  http_search (history s) url_a name = Ok ra ->
  subscript ra "data" = Ok (VList albums) ->
  http_search (history s ++ [EvSearch url_a name]) url_t name = Ok rt ->
  subscript rt "data" = Ok (VList tracks) ->
  Forall (fun e => exists r, album_summary e = Ok r) albums ->
  Forall (fun e => exists r, track_summary e = Ok r) tracks ->
  exists A T,
    fst (search_songs name albums_count songs_limit s) = Ok (A, T)
    /\ Forall2 (fun e r => album_summary e = Ok r)
         (firstn (Z.to_nat albums_count) albums) A
    /\ Forall2 (fun e r => track_summary e = Ok r)
         (firstn (Z.to_nat (songs_limit - albums_count)) tracks) T
    /\ (length A <= Z.to_nat albums_count)%nat
    /\ (length T <= Z.to_nat (songs_limit - albums_count))%nat.
Proof.
  intros url_a url_t Hlim Ha Hda Ht Hdt Hwa Hwt.
  destruct (mapM_summaries album_summary (slice_to albums_count albums)
              (slice_to_sublist _ _ _ Hwa)) as (A & HA & HA2).
  destruct (mapM_summaries track_summary (slice_to (songs_limit - albums_count) tracks)
              (slice_to_sublist _ _ _ Hwt)) as (T & HT & HT2).
  exists A, T. split.
  - unfold search_songs, update_requests_session, gather2, _find_albums, _find_tracks,
      search_request, with_transport, bind, get, emit, modify, lift, ret.
    cbn. fold url_a url_t. rewrite Ha. cbn. rewrite Hda. rewrite Ht. cbn. rewrite Hdt.
    cbn. rewrite HA, HT. reflexivity.
  - rewrite slice_to_firstn in HA2, HT2 by lia.
    split; [exact HA2 |]. split; [exact HT2 |].
    rewrite <- (Forall2_length _ _ _ HA2), <- (Forall2_length _ _ _ HT2).
    rewrite !List.length_firstn. lia.
Qed.
End SearchClaim.

Lemma search_songs_limits_witness :
  let albums := map (fun n => sample_album_info n []) [1; 2; 3; 4; 5; 6; 7; 8; 9; 10] in
  let tracks := map sample_track_info [1; 2; 3; 4; 5; 6; 7; 8; 9; 10] in
  exists A T,
    fst (search_songs (H := search_platform albums tracks) "song" 3 50 (initial_state "arl"))
    = Ok (A, T)
    /\ length A = 3%nat /\ (length T <= 47)%nat.
Proof.
  intros albums tracks.
  destruct (search_songs_limits (H := search_platform albums tracks)
              "song" 3 50 (initial_state "arl")
              (VDict [("data", VList albums)]) (VDict [("data", VList tracks)])
              albums tracks ltac:(lia) eq_refl eq_refl eq_refl eq_refl)
    as (A & T & Hrun & HA & _ & _ & HT).
  - repeat constructor; eexists; reflexivity.
  - repeat constructor; eexists; reflexivity.
  - exists A, T. split; [exact Hrun |]. split; [| exact HT].
    rewrite <- (Forall2_length _ _ _ HA). reflexivity.
Defined.

(** C9, the case the claim misses: with [albums_count = 5] and
    [songs_limit = 3] the bound of the track slice is [-2], and of ten
    tracks the search returns eight instead of none. *)
Lemma search_songs_negative_bound :
  let albums := map (fun n => sample_album_info n []) [1; 2; 3; 4; 5; 6; 7; 8; 9; 10] in
  let tracks := map sample_track_info [1; 2; 3; 4; 5; 6; 7; 8; 9; 10] in
  match fst (search_songs (H := search_platform albums tracks) "song" 5 3
               (initial_state "arl")) with
  | Ok (A, T) => length A = 5%nat /\ length T = 8%nat
  | _ => False
  end.
Proof. vm_compute. split; reflexivity. Qed.

(** ** The claim on [add_more_tags] *)

Section HydrationClaim.
Context `{Platform}.
Variables (self : loc) (s s1 : state) (track_id : value).
Variables (r data : list (string * value)) (md5 mv contributors copyright : value).
Hypothesis Hid : attr_of s self "id" = Some track_id.
Hypothesis Hapi :
  get_api METHOD_PAGE_TRACK (VDict [("sng_id", track_id)]) s = (Ok (VDict r), s1).
Hypothesis Hdata : assoc "DATA" r = Some (VDict data).
Hypothesis Hmd5 : assoc "MD5_ORIGIN" data = Some md5.
Hypothesis Hmv : assoc "MEDIA_VERSION" data = Some mv.
Hypothesis Hcontributors : assoc "SNG_CONTRIBUTORS" data = Some contributors.
Hypothesis Hcopyright : assoc "COPYRIGHT" data = Some copyright.
Hypothesis Hshape : is_list contributors = true \/ exists c, contributors = VDict c.
Hypothesis Hlyrics :
  assoc "LYRICS" r = None
  \/ exists l w, assoc "LYRICS" r = Some (VDict l)
                 /\ assoc "LYRICS_WRITERS" l = Some (VStr w).

(** C8, as amended.  For a hydration reply that carries origin hash,
    media version, copyright and the contributors -- a list or a
    dictionary -- and whose [LYRICS] part, if there is one, names its
    writers in a string, [add_more_tags] returns, and then: composer and
    author are [None] when the contributors are a list, and the
    dictionary's entries under these names otherwise; with a [LYRICS]
    part the four lyrics attributes are its text, its synchronised
    text, its copyrights and its writers split at [", "]; without one
    all four are [None]. *)
Theorem add_more_tags_normalises :
  exists s',
    add_more_tags self s = (Ok tt, s')
    /\ (is_list contributors = true ->
        attr_of s' self "composer" = Some VNone
        /\ attr_of s' self "author" = Some VNone)
    /\ (forall c, contributors = VDict c ->
        attr_of s' self "composer" = Some (default VNone (assoc "composer" c))
        /\ attr_of s' self "author" = Some (default VNone (assoc "author" c)))
    /\ (assoc "LYRICS" r = None ->
        attr_of s' self "lyrics" = Some VNone
        /\ attr_of s' self "lyrics_sync" = Some VNone
        /\ attr_of s' self "lyrics_copyrights" = Some VNone
        /\ attr_of s' self "lyrics_writers" = Some VNone)
    /\ (forall l w,
        assoc "LYRICS" r = Some (VDict l) ->
        assoc "LYRICS_WRITERS" l = Some (VStr w) ->
        attr_of s' self "lyrics" = Some (default VNone (assoc "LYRICS_TEXT" l))
        /\ attr_of s' self "lyrics_sync"
           = Some (default VNone (assoc "LYRICS_SYNC_JSON" l))
        /\ attr_of s' self "lyrics_copyrights"
           = Some (default VNone (assoc "LYRICS_COPYRIGHTS" l))
        /\ attr_of s' self "lyrics_writers" = Some (VList (map VStr (str_split w ", ")))).
Proof.
  destruct (add_more_tags_data self s s1 track_id r data md5 mv contributors copyright
              Hid Hapi Hdata Hmd5 Hmv Hcontributors Hcopyright Hshape _ _
              (contributors_shape data contributors Hcontributors Hshape))
    as (s2 & k & Hrun & -> & Halive & _ & _ & H3 & H4 & _).
  rewrite Hrun. clear Hrun.
  assert (Hlist : is_list contributors = true ->
                  get_or_none (Some contributors) "composer" = VNone
                  /\ get_or_none (Some contributors) "author" = VNone).
  { destruct contributors; try discriminate. intros _. split; reflexivity. }
  destruct Hlyrics as [Hnone | (l & w & Hl & Hw)].
  - eexists. split.
    + unfold bind at 1. rewrite lift_run.
      rewrite bool_decide_eq_false_2 by (rewrite Hnone; intros [? ?]; discriminate).
      do 3 rewrite (bind_Ok _ _ _ _ _ (setattr_run _ _ _ _)).
      apply setattr_run.
    + split.
      { intros Hc. destruct (Hlist Hc) as [Hc1 Hc2].
        split; read_attr; [now rewrite H3, Hc1 | now rewrite H4, Hc2]. }
      split.
      { intros c ->. split; read_attr; assumption. }
      split.
      { intros _. repeat split; read_attr. }
      intros l w Hl. rewrite Hnone in Hl. discriminate.
  - eexists. split.
    + unfold bind at 1. rewrite lift_run.
      rewrite bool_decide_eq_true_2 by (rewrite Hl; eauto).
      cbn [subscript]. rewrite Hl. cbn [Res.bind dict_get]. rewrite Hw.
      do 3 rewrite (bind_Ok _ _ _ _ _ (lift_setattr_run _ _ _ _ _ eq_refl)).
      now apply lift_setattr_run.
    + split.
      { intros Hc. destruct (Hlist Hc) as [Hc1 Hc2].
        split; read_attr; [now rewrite H3, Hc1 | now rewrite H4, Hc2]. }
      split.
      { intros c ->. split; read_attr; assumption. }
      split.
      { intros Hnone. rewrite Hnone in Hl. discriminate. }
      intros l' w' Hl' Hw'. rewrite Hl in Hl'. injection Hl' as <-.
      rewrite Hw in Hw'. injection Hw' as <-.
      repeat split; read_attr.
Qed.
End HydrationClaim.

Lemma add_more_tags_normalises_witness :
  exists s',
    add_more_tags (H := example_platform) O resolved_state = (Ok tt, s')
    /\ attr_of s' O "composer" = Some (VList [VStr "Ann"; VStr "Bob"])
    /\ attr_of s' O "author" = Some (VList [VStr "Cy"])
    /\ attr_of s' O "lyrics" = Some (VStr "la la")
    /\ attr_of s' O "lyrics_writers" = Some (VList [VStr "Ann"; VStr "Bob"]).
Proof.
  pose (s1 := snd (get_api (H := example_platform) "deezer.pageTrack"
                     (VDict [("sng_id", VInt 1)]) resolved_state)).
  pose (lyrics := [("LYRICS_TEXT", VStr "la la");
                   ("LYRICS_COPYRIGHTS", VStr "(c) Words");
                   ("LYRICS_WRITERS", VStr "Ann, Bob")]).
  pose (people := [("composer", VList [VStr "Ann"; VStr "Bob"]);
                   ("author", VList [VStr "Cy"])]).
  destruct (add_more_tags_normalises (H := example_platform) O resolved_state s1 (VInt 1)
              [("DATA", VDict [("MD5_ORIGIN", VStr "abc123");
                               ("MEDIA_VERSION", VStr "1");
                               ("SNG_CONTRIBUTORS", VDict people);
                               ("COPYRIGHT", VStr "(c) Label")]);
               ("LYRICS", VDict lyrics)]
              [("MD5_ORIGIN", VStr "abc123");
               ("MEDIA_VERSION", VStr "1");
               ("SNG_CONTRIBUTORS", VDict people);
               ("COPYRIGHT", VStr "(c) Label")]
              (VStr "abc123") (VStr "1") (VDict people) (VStr "(c) Label"))
    as (s' & Hrun & _ & Hdict & _ & Hwith).
  - vm_compute. reflexivity.
  - vm_compute. reflexivity.
  - reflexivity.
  - reflexivity.
  - reflexivity.
  - reflexivity.
  - reflexivity.
  - right. eexists. reflexivity.
  - right. exists lyrics, "Ann, Bob". split; reflexivity.
  - destruct (Hdict people eq_refl) as [Hc Ha].
    destruct (Hwith lyrics "Ann, Bob" eq_refl eq_refl) as (Hl & _ & _ & Hw).
    exists s'. split; [exact Hrun |]. split; [exact Hc |]. split; [exact Ha |].
    split; [exact Hl | exact Hw].
Defined.

(** C8, the case the claim misses: a reply whose [LYRICS] part names no
    writers.  [add_more_tags] raises [AttributeError] and leaves
    [lyrics_writers] unset. *)
Lemma add_more_tags_lyrics_without_writers :
  let run := add_more_tags (H := page_track_platform sample_page_track_no_writers) O
               resolved_state in
  fst run = Raise AttributeError
  /\ attr_of (snd run) O "lyrics" = Some (VStr "la la")
  /\ attr_of (snd run) O "lyrics_writers" = None.
Proof. vm_compute. repeat split. Qed.

(** ** The claims on [download_track] *)

Section DownloadTrackClaims.
Context `{Platform}.

(** Fuel beyond the bitrates left in the chain changes nothing. *)
Lemma download_track_fuel_enough (track : loc) (cb : bool) (n m : nat) :
  forall (bitrate : string) (s : state),
    (steps_left BITRATES bitrate < n)%nat -> (steps_left BITRATES bitrate < m)%nat ->
    download_track_fuel n track bitrate cb s = download_track_fuel m track bitrate cb s.
Proof.
  revert m. induction n as [| n IH]; intros m bitrate s Hn Hm; [lia |].
  destruct m as [| m]; [lia |].
  rewrite !download_track_fuel_S.
  destruct (open_stream track bitrate s) as [[[resp total] | e |] s1]; try reflexivity.
  destruct (total =? 0); [| reflexivity].
  destruct (next_in BITRATES bitrate) as [lower |] eqn:Hnext; [| reflexivity].
  apply next_in_steps_left in Hnext. apply IH; lia.
Qed.

(** The requests of a [download_track] call, attempt by attempt. *)
Lemma download_track_attempts (fuel : nat) (track : loc) (cb : bool) :
  forall (bitrate : string) (s : state),
  exists d,
    history (snd (download_track_fuel fuel track bitrate cb s)) = history s ++ d
    /\ alternating d
    /\ (count is_stream d <= S (steps_left BITRATES bitrate))%nat
    /\ (forall k, step_downs fuel track bitrate s = Some k ->
        count is_hydration d = S k /\ count is_stream d = S k).
Proof.
  induction fuel as [| fuel IH]; intros bitrate s.
  { exists []. rewrite app_nil_r. split; [reflexivity |].
    split; [apply alternating_of_counts; unfold count; cbn [List.filter length]; lia |].
    split; [unfold count; cbn [List.filter length]; lia |].
    intros k Hk. discriminate. }
  rewrite download_track_fuel_S. cbn [step_downs].
  destruct (open_stream_trace track bitrate s) as (d1 & Hd1 & Halt1 & Hle1 & Hok1).
  destruct (open_stream track bitrate s) as [[[resp total] | e |] s1];
    cbn [fst snd] in *.
  2, 3: exists d1; split; [assumption |]; split; [assumption |];
        split; [lia |]; intros ? ?; discriminate.
  destruct (Hok1 _ eq_refl) as [Hs1 Hh1].
  destruct (total =? 0).
  - destruct (next_in BITRATES bitrate) as [lower |] eqn:Hnext.
    + apply next_in_steps_left in Hnext.
      destruct (IH lower s1) as (d2 & Hd2 & Halt2 & Hle2 & Hok2).
      exists (d1 ++ d2). rewrite Hd2, Hd1, <- app_assoc.
      split; [reflexivity |].
      split; [apply alternating_app; [assumption | lia | assumption] |].
      rewrite !count_app. split; [lia |].
      intros k Hk.
      destruct (step_downs fuel track lower s1) as [k' |]; [| discriminate].
      injection Hk as <-. destruct (Hok2 k' eq_refl). lia.
    + exists d1. destruct (attr_of s1 track "id"); cbn [fst snd];
        (split; [assumption |]; split; [assumption |];
         split; [lia |]; intros k [= <-]; lia).
  - rewrite read_chunks_run.
    destruct (count_progress_events 0 total (chunks resp) cb) as [Hps Hph].
    exists (d1 ++ (if cb then progress_events 0 total (chunks resp) else [])).
    assert (Hhist :
      history (set_history (history s1
                 ++ (if cb then progress_events 0 total (chunks resp) else [])) s1)
      = history s ++ d1 ++ (if cb then progress_events 0 total (chunks resp) else [])).
    { cbn. now rewrite Hd1, <- app_assoc. }
    destruct (stream_error resp); cbn [fst snd];
      (split; [exact Hhist |];
       split; [apply alternating_app;
               [assumption | lia | apply alternating_of_counts; lia] |];
       rewrite !count_app; split; [lia |]; intros k [= <-]; lia).
Qed.

(** A call that steps down [k] times has that many bitrates below the
    one it started with. *)
Lemma step_downs_bound (levels : nat) (track : loc) :
  forall (bitrate : string) (s : state) (k : nat),
    step_downs levels track bitrate s = Some k ->
    (k <= steps_left BITRATES bitrate)%nat.
Proof.
  induction levels as [| levels IH]; intros bitrate s k; cbn [step_downs];
    [discriminate |].
  destruct (open_stream track bitrate s) as [[[resp total] | e |] s1];
    try discriminate.
  destruct (total =? 0); [| intros [= <-]; lia].
  destruct (next_in BITRATES bitrate) as [lower |] eqn:Hnext; [| intros [= <-]; lia].
  apply next_in_steps_left in Hnext.
  destruct (step_downs levels track lower s1) as [k' |] eqn:Hk'; [| discriminate].
  intros [= <-]. apply IH in Hk'. lia.
Qed.

(** A stream is opened only with origin hash and media version set, to
    strings. *)
Lemma open_stream_Ok_tags (track : loc) (bitrate : string) (s : state) r s1 :
  open_stream track bitrate s = (Ok r, s1) ->
  exists md5_origin media_version,
    attr_of s1 track "md5_origin" = Some (VStr md5_origin)
    /\ attr_of s1 track "media_version" = Some (VStr media_version).
Proof.
  unfold open_stream. intros Hrun.
  apply bind_Ok_inv in Hrun as (? & s0 & _ & Hrun).
  apply bind_Ok_inv in Hrun as (? & s2 & _ & Hrun).
  apply bind_Ok_inv in Hrun as (url & s3 & Hurl & Hrun).
  pose proof (get_stream_url_state track (get_quality bitrate) s2) as Hsame.
  rewrite Hurl in Hsame. cbn [snd] in Hsame. subst s3.
  assert (Htags : exists md5_origin media_version,
             attr_of s2 track "md5_origin" = Some (VStr md5_origin)
             /\ attr_of s2 track "media_version" = Some (VStr media_version)).
  { unfold get_stream_url in Hurl.
    apply bind_Ok_inv in Hurl as (v1 & ? & H1 & Hurl).
    rewrite getattr_run in H1.
    destruct (attr_of s2 track "md5_origin") as [a1 |] eqn:Ha1; [| discriminate].
    injection H1 as -> <-.
    apply bind_Ok_inv in Hurl as (v2 & ? & H2 & Hurl).
    rewrite getattr_run in H2.
    destruct (attr_of s2 track "id") as [a2 |]; [| discriminate].
    injection H2 as -> <-.
    apply bind_Ok_inv in Hurl as (v3 & ? & H3 & Hurl).
    rewrite getattr_run in H3.
    destruct (attr_of s2 track "media_version") as [a3 |] eqn:Ha3; [| discriminate].
    injection H3 as -> <-.
    apply bind_Ok_inv in Hurl as (fields & ? & Hf & _).
    rewrite lift_run in Hf. injection Hf as Hf _.
    destruct v1; try discriminate. destruct v3.
    all: try (cbn in Hf; discriminate).
    eauto. }
  destruct Htags as (md5_origin & media_version & Hm & Hv).
  exists md5_origin, media_version.
  apply bind_Ok_inv in Hrun as ([resp ?] & s4 & Hreq & Hlen).
  apply bind_Ok_inv in Hlen as (? & s5 & Hlen & Hret).
  rewrite lift_run in Hlen. injection Hlen as _ <-.
  cbn in Hret. injection Hret as _ <-.
  unfold with_transport, bind, get, emit, modify, lift, raise in Hreq. cbn in Hreq.
  destruct (transport_open (sess s2)); [| discriminate].
  cbn in Hreq.
  destruct (http_stream (history s2) url); try discriminate.
  injection Hreq as _ <-.
  split; assumption.
Qed.

(** C3.  Whatever the track, the bitrate asked for and the state: when
    the stream opened declares a length of zero, [download_track] is
    [download_track] for the next bitrate of the chain FLAC, MP3_320,
    MP3_256, MP3_128, from the state the attempt left, and where the
    chain has no next bitrate -- at MP3_128 -- it raises [DownloadError]
    with the ID of the track in that state; in every other case the
    method does not call itself, whatever a further call would do; and a
    call sends at most four stream requests, one for the bitrate asked
    for and at most three for bitrates below it. *)
Theorem download_track_bitrate_chain (track : loc) (bitrate : string) (cb : bool)
    (s : state) :
  map (next_in BITRATES) BITRATES
  = [Some "MP3_320"; Some "MP3_256"; Some "MP3_128"; None]
  /\ (forall response s1,
        open_stream track bitrate s = (Ok (response, 0), s1) ->
        exists track_id,
          attr_of s track "id" = Some track_id
          /\ download_track track bitrate cb s =
             match next_in BITRATES bitrate with
             | Some lower => download_track track lower cb s1
             | None => (Raise (DownloadError track_id), s1)
             end)
  /\ ((forall response s1, open_stream track bitrate s <> (Ok (response, 0), s1)) ->
      forall rec : loc -> string -> bool -> M bytes,
        download_track_step rec track bitrate cb s = download_track track bitrate cb s)
  /\ (exists d,
        history (snd (download_track track bitrate cb s)) = history s ++ d
        /\ (count is_stream d <= 4)%nat
        /\ (forall k, step_downs 4 track bitrate s = Some k ->
            count is_stream d = S k /\ (k <= 3)%nat)).
Proof.
  split; [reflexivity |]. split; [| split].
  - intros response s1 Hopen.
    destruct (open_stream_Ok_id _ _ _ _ _ Hopen) as [track_id Hid].
    exists track_id. split; [exact Hid |].
    unfold download_track at 1. rewrite download_track_fuel_S, Hopen. cbn [Z.eqb].
    destruct (next_in BITRATES bitrate) as [lower |] eqn:Hnext.
    + apply next_in_steps_left in Hnext.
      pose proof (steps_left_bound bitrate).
      apply download_track_fuel_enough; lia.
    + pose proof (open_stream_keeps_id track bitrate s) as Hkeep.
      rewrite Hopen in Hkeep. cbn [snd] in Hkeep. now rewrite Hkeep, Hid.
  - intros Hother rec. unfold download_track.
    change (download_track_fuel 4) with (download_track_step (download_track_fuel 3)).
    rewrite !download_track_step_run.
    destruct (open_stream track bitrate s) as [[[resp total] | e |] s1]; try reflexivity.
    destruct (Z.eqb_spec total 0) as [-> | _]; [| reflexivity].
    now destruct (Hother resp s1).
  - destruct (download_track_attempts 4 track cb bitrate s)
      as (d & Hd & _ & Hle & Hk).
    pose proof (steps_left_bound bitrate).
    exists d. split; [exact Hd |]. split; [lia |].
    intros k Hsome. destruct (Hk k Hsome) as [_ Hs].
    split; [exact Hs |]. apply step_downs_bound in Hsome. lia.
Qed.

(** C10.  Whatever the state -- extended tags set or not -- the
    page-track requests and the stream requests of a [download_track]
    call alternate, a page-track request first: every attempt hydrates
    anew before it asks for its stream.  A call that steps down [k]
    times has sent [k + 1] page-track requests and [k + 1] stream
    requests.  And an attempt opens its stream only with the origin hash
    and the media version of the instance set, to strings. *)
Theorem download_track_hydrates (track : loc) (bitrate : string) (cb : bool)
    (s : state) :
  (exists d,
     history (snd (download_track track bitrate cb s)) = history s ++ d
     /\ alternating d
     /\ (forall k, step_downs 4 track bitrate s = Some k ->
         count is_hydration d = (k + 1)%nat /\ count is_stream d = (k + 1)%nat))
  /\ (forall r s1,
        open_stream track bitrate s = (Ok r, s1) ->
        (exists d1,
           history s1 = history s ++ d1
           /\ count is_hydration d1 = 1%nat /\ count is_stream d1 = 1%nat
           /\ alternating d1)
        /\ exists md5_origin media_version,
             attr_of s1 track "md5_origin" = Some (VStr md5_origin)
             /\ attr_of s1 track "media_version" = Some (VStr media_version)).
Proof.
  split.
  - destruct (download_track_attempts 4 track cb bitrate s)
      as (d & Hd & Halt & _ & Hk).
    exists d. split; [exact Hd |]. split; [exact Halt |].
    intros k Hsome. rewrite Nat.add_1_r. now apply Hk.
  - intros r s1 Hopen. split.
    + destruct (open_stream_trace track bitrate s) as (d1 & Hd1 & Halt1 & _ & Hok1).
      rewrite Hopen in Hd1, Hok1. cbn [fst snd] in Hd1, Hok1.
      destruct (Hok1 r eq_refl) as [Hs Hh].
      exists d1. split; [exact Hd1 |]. split; [exact Hh |]. split; [exact Hs | exact Halt1].
    + exact (open_stream_Ok_tags track bitrate s r s1 Hopen).
Qed.
End DownloadTrackClaims.

Lemma download_track_bitrate_chain_witness :
  let s := resolved_state in
  let s1 := snd (open_stream (H := example_platform) O "FLAC" s) in
  let s4 := snd (download_track (H := example_platform) O "FLAC" false s) in
  open_stream (H := example_platform) O "FLAC" s = (Ok (empty_response, 0), s1)
  /\ download_track (H := example_platform) O "FLAC" false s
     = download_track (H := example_platform) O "MP3_320" false s1
  /\ download_track (H := example_platform) O "FLAC" false s
     = (Raise (DownloadError (VInt 1)), s4)
  /\ step_downs (H := example_platform) 4 O "FLAC" s = Some 3%nat
  /\ exists d, history s4 = history s ++ d /\ count is_stream d = 4%nat.
Proof.
  intros s s1 s4.
  destruct (download_track_bitrate_chain (H := example_platform) O "FLAC" false s)
    as (_ & Hzero & _ & d & Hd & _ & Hk).
  assert (Hopen : open_stream (H := example_platform) O "FLAC" s
                  = (Ok (empty_response, 0), s1)) by (vm_compute; reflexivity).
  assert (Hsteps : step_downs (H := example_platform) 4 O "FLAC" s = Some 3%nat)
    by (vm_compute; reflexivity).
  destruct (Hzero empty_response s1 Hopen) as (track_id & _ & Hrun).
  destruct (Hk 3%nat Hsteps) as [Hcount _].
  split; [exact Hopen |]. split; [exact Hrun |].
  split; [vm_compute; reflexivity |]. split; [exact Hsteps |].
  exists d. split; [exact Hd | exact Hcount].
Defined.

Lemma download_track_hydrates_witness :
  let P := sample_platform (scripted 100 [0; 3]) in
  let s := resolved_state in
  let s2 := snd (download_track (H := P) O "FLAC" false s) in
  step_downs (H := P) 4 O "FLAC" s = Some 1%nat
  /\ fst (download_track (H := P) O "FLAC" false s) = Ok (repeat "a"%byte 3)
  /\ exists d, history s2 = history s ++ d
               /\ count (is_hydration (H := P)) d = 2%nat
               /\ count is_stream d = 2%nat.
Proof.
  intros P s s2.
  destruct (download_track_hydrates (H := P) O "FLAC" false s)
    as ((d & Hd & _ & Hk) & _).
  assert (Hsteps : step_downs (H := P) 4 O "FLAC" s = Some 1%nat)
    by (vm_compute; reflexivity).
  destruct (Hk 1%nat Hsteps) as [Hh Hs].
  split; [exact Hsteps |]. split; [vm_compute; reflexivity |].
  exists d. split; [exact Hd |]. split; [exact Hh | exact Hs].
Defined.

(** ** The claim on the instance caches *)

Section InitOutcome.
Context `{Platform}.

End InitOutcome.


Section OneInstance.
Context `{Platform}.









End OneInstance.

